(** * disgord: user entities, copy protocol and selective JSON encoding

    A shallow embedding of [struct_user.go] and [httd/json_std.go].

    Go pointers are addresses into a grow-only store (Go has no explicit
    deallocation), [nil] is [None].  A call either returns, blocks forever on
    a lock, or crashes (nil dereference, index out of range, unlocking an
    unlocked mutex); the three are told apart by [outcome]. *)

From Stdlib Require Import ZArith Lia Ascii String.
From stdpp Require Import base option list strings pretty.

Local Open Scope string_scope.

(** ** Outcomes of a call *)

Inductive outcome (A : Type) : Type :=
  | Done (a : A)
  | Blocks
  | Panics.

Arguments Done {A} a.
Arguments Blocks {A}.
Arguments Panics {A}.

Definition obind {A B : Type} (x : outcome A) (k : A -> outcome B) : outcome B :=
  match x with
  | Done a => k a
  | Blocks => Blocks
  | Panics => Panics
  end.

Notation "'let!' x ':=' c 'in' k" := (obind c (fun x => k))
  (at level 10, x pattern, c at level 100, k at level 200).

(** [l[i]] of a Go slice: an index out of range crashes. *)
Definition index {A : Type} (l : list A) (i : nat) : outcome A :=
  match l !! i with
  | Some x => Done x
  | None => Panics
  end.

(** ** Auxiliary value objects *)

(** Modelled from the spec: the [Snowflake] type is declared outside these
    files; it is a 64-bit identifier whose value 0 denotes absence.  Only
    comparison with 0 is used here, so the integer is left unbounded. *)
Definition Snowflake : Type := Z.

(** Modelled from the spec: [Snowflake.Empty], identifier value 0. *)
Definition Empty (s : Snowflake) : bool := (s =? 0)%Z.

Definition StatusIdle : string := "idle".
Definition StatusDnd : string := "dnd".
Definition StatusOnline : string := "online".
Definition StatusOffline : string := "offline".

Definition ActivityFlagInstance : Z := Z.shiftl 1 0.
Definition ActivityFlagJoin : Z := Z.shiftl 1 1.
Definition ActivityFlagSpectate : Z := Z.shiftl 1 2.
Definition ActivityFlagJoinRequest : Z := Z.shiftl 1 3.
Definition ActivityFlagSync : Z := Z.shiftl 1 4.
Definition ActivityFlagPlay : Z := Z.shiftl 1 5.

Record ActivityParty : Type := {
  party_ID : string;
  Size : list Z
}.

(** [ActivityParty.Limit] *)
Definition Limit (ap : ActivityParty) : outcome Z :=
  if negb (length (Size ap) =? 2)%nat then Done 0%Z
  else index (Size ap) 1.

(** [ActivityParty.NumberOfPeople] *)
Definition NumberOfPeople (ap : ActivityParty) : outcome Z :=
  if negb (length (Size ap) =? 1)%nat then Done 0%Z
  else index (Size ap) 0.

(** ** The reader/writer lock embedded in every [User]

    [sync.RWMutex] as a count of readers and a writer flag, the two things
    its reader counter records.  The flag is set from the moment a writer
    has announced itself in [Lock] until its [Unlock]: with no reader left
    that writer holds the lock ([writer_holds]), with readers still inside
    it waits for them to leave ([writer_waits]).  As in Go, [RLock] cannot
    proceed behind a writer, whether it holds the lock or waits for it, and
    [Lock] cannot proceed while a writer or a reader is inside; unlocking a
    lock that is not held is a fatal error of the Go runtime.  A call that
    has to wait is reported as [Blocks]; what other goroutines have done to
    the lock, a writer that has started to wait included, is part of the
    lock state the call meets. *)

Record RWMutex : Type := {
  readers : nat;
  writer : bool
}.

Definition writer_holds (m : RWMutex) : bool :=
  writer m && (readers m =? 0)%nat.

Definition writer_waits (m : RWMutex) : bool :=
  writer m && negb (readers m =? 0)%nat.

Definition RLock (m : RWMutex) : outcome RWMutex :=
  if writer m then Blocks
  else Done {| readers := S (readers m); writer := false |}.

Definition Lock (m : RWMutex) : outcome RWMutex :=
  if writer m || negb (readers m =? 0)%nat then Blocks
  else Done {| readers := readers m; writer := true |}.

Definition RUnlock (m : RWMutex) : outcome RWMutex :=
  match readers m with
  | O => Panics
  | S n => Done {| readers := n; writer := writer m |}
  end.

Definition Unlock (m : RWMutex) : outcome RWMutex :=
  if writer m then Done {| readers := readers m; writer := false |}
  else Panics.

(** ** Entities and the store *)

Abbreviation addr := nat (only parsing).

(** A Go pointer: [None] is [nil]. *)
Abbreviation ptr := (option nat) (only parsing).

Record User : Type := {
  ID : Snowflake;
  Username : string;
  Discriminator : string;
  Email : string;
  Avatar : ptr;            (* *string *)
  Token : string;
  Verified : bool;
  MFAEnabled : bool;
  Bot : bool;
  mu : RWMutex             (* the embedded sync.RWMutex *)
}.

Record UserPresence : Type := {
  presence_User : ptr;     (* *User *)
  Roles : list Snowflake;
  Game : ptr;              (* *UserActivity *)
  GuildID : Snowflake;
  Nick : string;
  Status : string
}.

Record heap : Type := {
  users : list User;
  cells : list string;     (* the string variables *string points to *)
  presences : list UserPresence
}.

(** The zero value [User{}]. *)
Definition User_zero : User :=
  {| ID := 0%Z; Username := ""; Discriminator := ""; Email := "";
     Avatar := None; Token := ""; Verified := false; MFAEnabled := false;
     Bot := false; mu := {| readers := 0; writer := false |} |}.

(** [NewUser]: [&User{}], a fresh address holding the zero value. *)
Definition NewUser (h : heap) : addr * heap :=
  (length (users h),
   {| users := users h ++ [User_zero]; cells := cells h;
      presences := presences h |}).

(** The dynamic values an [interface{}] argument can hold. *)
Inductive value : Type :=
  | VNil
  | VUserPtr (p : ptr)
  | VUser (u : User)
  | VUserPresencePtr (p : ptr)
  | VString (s : string)
  | VInt (z : Z).

Definition is_UserPtr (v : value) : bool :=
  match v with
  | VUserPtr _ => true
  | _ => false
  end.

Inductive error : Type :=
  | ErrorUnsupportedType (msg : string)
  | errors_New (msg : string).

(** Modelled from the spec: [NewErrorUnsupportedType] is declared outside
    these files; it builds the UnsupportedType (type-mismatch) error. *)
Definition NewErrorUnsupportedType (msg : string) : error :=
  ErrorUnsupportedType msg.

Definition load_user (h : heap) (p : ptr) : outcome User :=
  match p with
  | None => Panics
  | Some a => index (users h) a
  end.

Definition store_user (h : heap) (a : addr) (u : User) : heap :=
  {| users := <[a := u]> (users h); cells := cells h;
     presences := presences h |}.

Definition load_cell (h : heap) (p : addr) : outcome string :=
  index (cells h) p.

Definition store_cell (h : heap) (p : addr) (s : string) : heap :=
  {| users := users h; cells := <[p := s]> (cells h);
     presences := presences h |}.

(** A fresh string variable holding [s]. *)
Definition alloc_cell (h : heap) (s : string) : addr * heap :=
  (length (cells h),
   {| users := users h; cells := cells h ++ [s];
      presences := presences h |}).

Definition with_mu (u : User) (m : RWMutex) : User :=
  {| ID := ID u; Username := Username u; Discriminator := Discriminator u;
     Email := Email u; Avatar := Avatar u; Token := Token u;
     Verified := Verified u; MFAEnabled := MFAEnabled u; Bot := Bot u;
     mu := m |}.

Definition with_Avatar (u : User) (p : ptr) : User :=
  {| ID := ID u; Username := Username u; Discriminator := Discriminator u;
     Email := Email u; Avatar := p; Token := Token u;
     Verified := Verified u; MFAEnabled := MFAEnabled u; Bot := Bot u;
     mu := mu u |}.

(** The scalar fields [CopyOverTo] assigns one by one. *)
Inductive field : Type :=
  | FID | FUsername | FDiscriminator | FEmail
  | FToken | FVerified | FMFAEnabled | FBot.

(** [dst.f = src.f] on the struct values. *)
Definition assign_field (f : field) (dst src : User) : User :=
  match f with
  | FID =>
    {| ID := ID src; Username := Username dst;
       Discriminator := Discriminator dst; Email := Email dst;
       Avatar := Avatar dst; Token := Token dst; Verified := Verified dst;
       MFAEnabled := MFAEnabled dst; Bot := Bot dst; mu := mu dst |}
  | FUsername =>
    {| ID := ID dst; Username := Username src;
       Discriminator := Discriminator dst; Email := Email dst;
       Avatar := Avatar dst; Token := Token dst; Verified := Verified dst;
       MFAEnabled := MFAEnabled dst; Bot := Bot dst; mu := mu dst |}
  | FDiscriminator =>
    {| ID := ID dst; Username := Username dst;
       Discriminator := Discriminator src; Email := Email dst;
       Avatar := Avatar dst; Token := Token dst; Verified := Verified dst;
       MFAEnabled := MFAEnabled dst; Bot := Bot dst; mu := mu dst |}
  | FEmail =>
    {| ID := ID dst; Username := Username dst;
       Discriminator := Discriminator dst; Email := Email src;
       Avatar := Avatar dst; Token := Token dst; Verified := Verified dst;
       MFAEnabled := MFAEnabled dst; Bot := Bot dst; mu := mu dst |}
  | FToken =>
    {| ID := ID dst; Username := Username dst;
       Discriminator := Discriminator dst; Email := Email dst;
       Avatar := Avatar dst; Token := Token src; Verified := Verified dst;
       MFAEnabled := MFAEnabled dst; Bot := Bot dst; mu := mu dst |}
  | FVerified =>
    {| ID := ID dst; Username := Username dst;
       Discriminator := Discriminator dst; Email := Email dst;
       Avatar := Avatar dst; Token := Token dst; Verified := Verified src;
       MFAEnabled := MFAEnabled dst; Bot := Bot dst; mu := mu dst |}
  | FMFAEnabled =>
    {| ID := ID dst; Username := Username dst;
       Discriminator := Discriminator dst; Email := Email dst;
       Avatar := Avatar dst; Token := Token dst; Verified := Verified dst;
       MFAEnabled := MFAEnabled src; Bot := Bot dst; mu := mu dst |}
  | FBot =>
    {| ID := ID dst; Username := Username dst;
       Discriminator := Discriminator dst; Email := Email dst;
       Avatar := Avatar dst; Token := Token dst; Verified := Verified dst;
       MFAEnabled := MFAEnabled dst; Bot := Bot src; mu := mu dst |}
  end.

(** ** The copy protocol

    The body of [CopyOverTo] after its type assertion, statement by
    statement.  Each statement is one atomic action on the store, so the
    same list serves as the program of a thread when several copies run
    concurrently. *)

Inductive action : Type :=
  | ARLock (p : ptr)                      (* p.RLock() *)
  | ALock (p : ptr)                       (* p.Lock() *)
  | ARUnlock (p : ptr)                    (* p.RUnlock() *)
  | AUnlock (p : ptr)                     (* p.Unlock() *)
  | AAssign (f : field) (dst src : ptr)   (* dst.f = src.f *)
  | ACopyAvatar (dst src : ptr).
    (* if src.Avatar != nil { avatar := deref src.Avatar; dst.Avatar = &avatar } *)

Definition on_mutex (op : RWMutex -> outcome RWMutex) (p : ptr) (h : heap)
  : outcome heap :=
  match p with
  | None => Panics
  | Some a =>
    let! u := index (users h) a in
    let! m := op (mu u) in
    Done (store_user h a (with_mu u m))
  end.

Definition update_user (f : User -> User) (p : ptr) (h : heap)
  : outcome heap :=
  match p with
  | None => Panics
  | Some a =>
    let! t := index (users h) a in
    Done (store_user h a (f t))
  end.

Definition exec (a : action) (h : heap) : outcome heap :=
  match a with
  | ARLock p => on_mutex RLock p h
  | ALock p => on_mutex Lock p h
  | ARUnlock p => on_mutex RUnlock p h
  | AUnlock p => on_mutex Unlock p h
  | AAssign f dst src =>
    let! s := load_user h src in
    update_user (fun t => assign_field f t s) dst h
  | ACopyAvatar dst src =>
    let! s := load_user h src in
    match Avatar s with
    | None => Done h
    | Some p =>
      let! avatar := load_cell h p in
      let '(q, h1) := alloc_cell h avatar in
      update_user (fun t => with_Avatar t (Some q)) dst h1
    end
  end.

(** One goroutine running a list of statements to the end. *)
Fixpoint run (prog : list action) (h : heap) : outcome heap :=
  match prog with
  | [] => Done h
  | a :: rest => let! h1 := exec a h in run rest h1
  end.

Definition CopyOverTo_body (u user : ptr) : list action :=
  [ ARLock u;
    ALock user;
    AAssign FID user u;
    AAssign FUsername user u;
    AAssign FDiscriminator user u;
    AAssign FEmail user u;
    AAssign FToken user u;
    AAssign FVerified user u;
    AAssign FMFAEnabled user u;
    AAssign FBot user u;
    ACopyAvatar user u;
    ARUnlock u;
    AUnlock user ].

(** [User.CopyOverTo]: the returned error and the store afterwards. *)
Definition CopyOverTo (u : ptr) (other : value) (h : heap)
  : outcome (option error * heap) :=
  match other with
  | VUserPtr user =>
    let! h1 := run (CopyOverTo_body u user) h in
    Done (None, h1)
  | _ =>
    Done (Some (NewErrorUnsupportedType "argument given is not a *User type"),
          h)
  end.

(** [User.DeepCopy]: the error of [CopyOverTo] is dropped. *)
Definition DeepCopy (u : ptr) (h : heap) : outcome (value * heap) :=
  let '(c, h1) := NewUser h in
  let copy := VUserPtr (Some c) in
  let! r := CopyOverTo u copy h1 in
  Done (copy, snd r).

(** [User.Clear]: the body is a comment. *)
Definition Clear (u : ptr) (h : heap) : outcome heap := Done h.

(** [UserPresence.Clear]: [p.Game = nil]. *)
Definition UserPresence_Clear (p : ptr) (h : heap) : outcome heap :=
  match p with
  | None => Panics
  | Some a =>
    let! x := index (presences h) a in
    Done {| users := users h; cells := cells h;
            presences :=
              <[a := {| presence_User := presence_User x; Roles := Roles x;
                        Game := None; GuildID := GuildID x; Nick := Nick x;
                        Status := Status x |}]> (presences h) |}
  end.

(** [User.Valid] *)
Definition Valid (u : User) : bool := (0 <? ID u)%Z.

(** [User.Partial] *)
Definition Partial (u : User) : bool :=
  if decide (Username u ++ Discriminator u = "") then true else false.

(** Modelled from the spec: [Snowflake.String] is declared outside these
    files; the identifier is written in decimal. *)
Definition Snowflake_String (s : Snowflake) : string := pretty s.

(** [User.Mention] *)
Definition Mention (u : User) : string :=
  "<@" ++ Snowflake_String (ID u) ++ ">".

(** [User.MentionNickname] *)
Definition MentionNickname (u : User) : string :=
  "<@!" ++ Snowflake_String (ID u) ++ ">".

(** [User.String] *)
Definition User_String (u : User) : string :=
  Username u ++ "#" ++ Discriminator u ++ "{" ++ Snowflake_String (ID u) ++ "}".

(** ** The store after a copy *)

Definition two (l : list User) (a : addr) (ta : User) (b : addr) (tb : User)
  : list User :=
  <[b := tb]> (<[a := ta]> l).

Definition mk_heap (us : list User) (cs : list string)
    (ps : list UserPresence) : heap :=
  {| users := us; cells := cs; presences := ps |}.

(** What a copy leaves in the target: the scalar fields of the source, the
    given Avatar pointer, and the target's own lock. *)
Definition copied (src dst : User) (avatar : ptr) : User :=
  {| ID := ID src; Username := Username src;
     Discriminator := Discriminator src; Email := Email src;
     Avatar := avatar; Token := Token src; Verified := Verified src;
     MFAEnabled := MFAEnabled src; Bot := Bot src; mu := mu dst |}.

(** The store after [CopyOverTo] from the user [ua] into the user [ub] at
    [b]: a non-nil Avatar is copied into a fresh cell, a nil one leaves the
    target's Avatar as it was. *)
Definition CopyOverTo_result (h : heap) (b : addr) (ua ub : User) : heap :=
  match Avatar ua with
  | None =>
    mk_heap (<[b := copied ua ub (Avatar ub)]> (users h)) (cells h)
            (presences h)
  | Some p =>
    match cells h !! p with
    | Some s =>
      mk_heap (<[b := copied ua ub (Some (length (cells h)))]> (users h))
              (cells h ++ [s]) (presences h)
    | None => h
    end
  end.

(** The eight scalar fields agree. *)
Definition same_scalars (x y : User) : Prop :=
  ID x = ID y
  /\ Username x = Username y
  /\ Discriminator x = Discriminator y
  /\ Email x = Email y
  /\ Token x = Token y
  /\ Verified x = Verified y
  /\ MFAEnabled x = MFAEnabled y
  /\ Bot x = Bot y.

(** ** Concurrent copies

    Threads are statement lists over the shared store; a schedule names the
    thread that takes the next step.  A thread whose next statement cannot
    proceed does not move; in particular a thread waiting in [Lock] sets the
    writer flag only when it obtains the lock.  For copies out of one source
    this makes no difference, since no thread write-locks a lock that
    another thread read-locks and no reader ever arrives behind a waiting
    writer; nor for copies in opposite directions, where both threads wait
    in [Lock] for a reader that never leaves.  For copies between arbitrary
    users, [waits] further down counts a reader that arrives behind a thread
    standing at its [Lock] as waiting too. *)

Definition config : Type := heap * list (list action).

Definition step_thread (i : nat) (c : config) : option config :=
  match snd c !! i with
  | Some (a :: rest) =>
    match exec a (fst c) with
    | Done h1 => Some (h1, <[i := rest]> (snd c))
    | _ => None
    end
  | _ => None
  end.

Fixpoint run_schedule (sched : list nat) (c : config) : option config :=
  match sched with
  | [] => Some c
  | i :: rest =>
    match step_thread i c with
    | Some c1 => run_schedule rest c1
    | None => None
    end
  end.

Definition blocked (h : heap) (t : list action) : bool :=
  match t with
  | a :: _ => match exec a h with Blocks => true | _ => false end
  | [] => false
  end.

Definition finished (t : list action) : bool :=
  match t with [] => true | _ => false end.

(** Every thread has finished or waits for a lock, and some thread waits:
    no step is possible any more. *)
Definition deadlocked (c : config) : bool :=
  forallb (fun t => finished t || blocked (fst c) t) (snd c)
  && existsb (blocked (fst c)) (snd c).

Definition deadlock_free (c : config) : Prop :=
  forall sched c1, run_schedule sched c = Some c1 -> deadlocked c1 = false.

Definition is_lock_action (a : action) : bool :=
  match a with
  | ARLock _ | ALock _ | ARUnlock _ | AUnlock _ => true
  | _ => false
  end.

(** ** Selective serialization

    The wire form of a struct is the list of members [encoding/json] writes,
    in declaration order.  A field tagged [omitempty] is left out when it
    holds its zero value. *)

Inductive jvalue : Type :=
  | JNull
  | JBool (b : bool)
  | JString (s : string)
  | JSnowflake (id : Snowflake).   (* written by the identifier's marshaler *)

Definition member : Type := string * jvalue.

Definition omitempty (key : string) (empty : bool) (v : jvalue)
  : list member :=
  if empty then [] else [(key, v)].

Definition string_empty (s : string) : bool :=
  (String.length s =? 0)%nat.

(** A [*string] field: [null] for [nil], else the string it points to. *)
Definition encode_Avatar (h : heap) (p : ptr) : outcome jvalue :=
  match p with
  | None => Done JNull
  | Some a => let! s := load_cell h a in Done (JString s)
  end.

(** The members of a [User] value, from its struct tags; the embedded
    mutex is tagged to be skipped and never written. *)
Definition User_members (h : heap) (u : User) : outcome (list member) :=
  let! avatar := encode_Avatar h (Avatar u) in
  Done (omitempty "id" (ID u =? 0)%Z (JSnowflake (ID u))
        ++ omitempty "username" (string_empty (Username u))
                     (JString (Username u))
        ++ omitempty "discriminator" (string_empty (Discriminator u))
                     (JString (Discriminator u))
        ++ omitempty "email" (string_empty (Email u)) (JString (Email u))
        ++ [("avatar", avatar)]
        ++ omitempty "token" (string_empty (Token u)) (JString (Token u))
        ++ omitempty "verified" (negb (Verified u)) (JBool (Verified u))
        ++ omitempty "mfa_enabled" (negb (MFAEnabled u))
                     (JBool (MFAEnabled u))
        ++ omitempty "bot" (negb (Bot u)) (JBool (Bot u)))%list.

Definition has_key (k : string) (ms : list member) : bool :=
  existsb (String.eqb k) (map fst ms).

Definition dquote : string := String "034"%char EmptyString.

Section Encoding.

(** The two leaf encoders are outside these files: the string literal
    writer of [encoding/json] (quoting and escaping) and the marshaler of
    the identifier type. *)
Variable encode_string : string -> string.
Variable Snowflake_MarshalJSON : Snowflake -> string.

Definition encode_value (v : jvalue) : string :=
  match v with
  | JNull => "null"
  | JBool true => "true"
  | JBool false => "false"
  | JString s => encode_string s
  | JSnowflake id => Snowflake_MarshalJSON id
  end.

Definition encode_member (m : member) : string :=
  dquote ++ fst m ++ dquote ++ ":" ++ encode_value (snd m).

Definition encode_object (ms : list member) : string :=
  "{" ++ String.concat "," (map encode_member ms) ++ "}".

(** [json.Marshal] of the dereferenced user, converted to a [User] value:
    the plain struct encoding, since the value has no [MarshalJSON] of its
    own (the method is on the pointer). *)
Definition json_Marshal_User (h : heap) (u : User)
  : outcome (string * option error) :=
  let! ms := User_members h u in
  Done (encode_object ms, None).

(** [User.MarshalJSON] *)
Definition MarshalJSON (u : ptr) (h : heap)
  : outcome (string * option error) :=
  let! x := load_user h u in
  if Empty (ID x) then Done ("{}", None)
  else json_Marshal_User h x.

End Encoding.

(** ** Decode dispatch *)

(** The [json.Unmarshaler] interface. *)
Record Unmarshaler : Type := {
  UnmarshalJSON : string -> heap -> outcome (option error * heap)
}.

Section Decoding.

(** Which dynamic values carry an [UnmarshalJSON] method, and the generic
    decoder [json.Unmarshal], are both outside these files. *)
Variable assert_Unmarshaler : value -> option Unmarshaler.
Variable json_Unmarshal :
  string -> value -> heap -> outcome (option error * heap).

(** [httd.Unmarshal] *)
Definition Unmarshal (data : string) (v : value) (h : heap)
  : outcome (option error * heap) :=
  match assert_Unmarshaler v with
  | Some j => UnmarshalJSON j data h
  | None => json_Unmarshal data v h
  end.

End Decoding.

(** ** Remote actions through a session *)

(** Modelled from the spec: [Channel], [Message] and [Session] are declared
    outside these files.  The session is an opaque collaborator with a state
    of its own that creates a direct channel by user identifier and sends a
    message given a channel identifier. *)
Record Channel : Type := { channel_ID : Snowflake }.

Record Message : Type := { Content : string }.

Record Session (S : Type) : Type := {
  CreateDM : Snowflake -> S -> (option Channel * option error) * S;
  session_SendMsg :
    Snowflake -> Message -> S -> (option Message * option error) * S
}.

Arguments CreateDM {S} _ _ _.
Arguments session_SendMsg {S} _ _ _ _.

(** [User.SendMsg] *)
Definition SendMsg {S : Type} (session : Session S) (u : ptr)
    (message : Message) (h : heap) (s : S)
  : outcome ((option Channel * option Message * option error) * S) :=
  let! x := load_user h u in
  let '((channel, err), s1) := CreateDM session (ID x) s in
  match err with
  | Some e => Done ((channel, None, Some e), s1)
  | None =>
    match channel with
    | None => Panics
    | Some ch =>
      let '((msg, err2), s2) :=
        session_SendMsg session (channel_ID ch) message s1 in
      Done ((channel, msg, err2), s2)
    end
  end.

(** [User.SaveToDiscord] *)
Definition SaveToDiscord {S : Type} (session : Session S) (u : ptr)
    (h : heap) (s : S) : outcome (option error * heap * S) :=
  Done (Some (errors_New "not implemented"), h, s).

(** A session that only records the calls made on it. *)
Inductive session_call : Type :=
  | CallCreateDM (id : Snowflake)
  | CallSendMsg (channelID : Snowflake) (message : Message).

Definition recording_session : Session (list session_call) :=
  {| CreateDM := fun id log =>
       ((Some {| channel_ID := id |}, None), (log ++ [CallCreateDM id])%list);
     session_SendMsg := fun cid m log =>
       ((Some m, None), (log ++ [CallSendMsg cid m])%list) |}.

(** ** Sample data *)

(** Quoting without escapes: what the string writer of [encoding/json]
    produces for strings of plain letters and digits. *)
Definition plain_quote (s : string) : string := dquote ++ s ++ dquote.

(** An identifier written as a quoted decimal. *)
Definition quoted_decimal (id : Snowflake) : string :=
  dquote ++ pretty id ++ dquote.

Definition ann : User :=
  {| ID := 123%Z; Username := "Ann"; Discriminator := "0001"; Email := "";
     Avatar := Some 0; Token := ""; Verified := true; MFAEnabled := false;
     Bot := false; mu := {| readers := 0; writer := false |} |}.

(** A reference-only user: every field but the identifier is populated. *)
Definition mention_only : User :=
  {| ID := 0%Z; Username := "Bob"; Discriminator := "0002";
     Email := "bob@example.org"; Avatar := Some 0; Token := "t";
     Verified := true; MFAEnabled := true; Bot := true;
     mu := {| readers := 0; writer := false |} |}.

Definition sample_heap : heap :=
  {| users := [ann; mention_only; User_zero];
     cells := ["a.png"];
     presences :=
       [{| presence_User := Some 0; Roles := []; Game := Some 0;
           GuildID := 7%Z; Nick := "annie"; Status := StatusOnline |}] |}.

(** A decoder with a custom capability used in the examples: it reports the
    payload back as an error and touches nothing. *)
Definition echo_decoder : Unmarshaler :=
  {| UnmarshalJSON := fun data h => Done (Some (errors_New data), h) |}.

Definition only_strings_decode (v : value) : option Unmarshaler :=
  match v with
  | VString _ => Some echo_decoder
  | _ => None
  end.

Definition generic_ok (data : string) (v : value) (h : heap)
  : outcome (option error * heap) := Done (None, h).

(** The source has no Avatar, the target has one. *)
Definition ann_no_avatar : User :=
  {| ID := 1%Z; Username := "Ann"; Discriminator := "0001"; Email := "";
     Avatar := None; Token := ""; Verified := false; MFAEnabled := false;
     Bot := false; mu := {| readers := 0; writer := false |} |}.

Definition bob : User :=
  {| ID := 2%Z; Username := "Bob"; Discriminator := "0002"; Email := "";
     Avatar := Some 0; Token := ""; Verified := false; MFAEnabled := false;
     Bot := false; mu := {| readers := 0; writer := false |} |}.

Definition stale_heap : heap :=
  {| users := [ann_no_avatar; bob]; cells := ["old.png"]; presences := [] |}.

Definition two_free_users : heap :=
  {| users := [User_zero; User_zero]; cells := []; presences := [] |}.

(** Two threads copying in opposite directions between the same two
    users. *)
Definition opposite_copies : config :=
  (two_free_users,
   [CopyOverTo_body (Some 0) (Some 1); CopyOverTo_body (Some 1) (Some 0)]).

Definition awaited_heap : heap :=
  {| users := [with_mu ann {| readers := 1; writer := true |};
               mention_only; User_zero];
     cells := ["a.png"];
     presences := [] |}.

(** ** The remaining operations *)

(** [User.SendMsgString] *)
Definition SendMsgString {S : Type} (session : Session S) (u : ptr)
    (content : string) (h : heap) (s : S)
  : outcome ((option Channel * option Message * option error) * S) :=
  SendMsg session u {| Content := content |} h s.

(** The zero value [UserPresence{}]. *)
Definition UserPresence_zero : UserPresence :=
  {| presence_User := None; Roles := []; Game := None; GuildID := 0%Z;
     Nick := ""; Status := "" |}.

(** [NewUserPresence] *)
Definition NewUserPresence (h : heap) : addr * heap :=
  (length (presences h),
   {| users := users h; cells := cells h;
      presences := presences h ++ [UserPresence_zero] |}).

(** [UserPresence.Update]: the body is a comment. *)
Definition UserPresence_Update (p : ptr) (status : string) (h : heap)
  : outcome heap := Done h.

(** [UserPresence.String] *)
Definition UserPresence_String (p : ptr) (h : heap) : outcome string :=
  match p with
  | None => Panics
  | Some a => let! x := index (presences h) a in Done (Status x)
  end.

(** The flags in declaration order. *)
Definition ActivityFlags : list Z :=
  [ActivityFlagInstance; ActivityFlagJoin; ActivityFlagSpectate;
   ActivityFlagJoinRequest; ActivityFlagSync; ActivityFlagPlay].

(** A session wrapped so that every call made on it is appended to a log;
    its answers are those of the wrapped session. *)
Definition logged {S : Type} (session : Session S)
  : Session (S * list session_call) :=
  {| CreateDM := fun id st =>
       let '(r, s1) := CreateDM session id (fst st) in
       (r, (s1, (snd st ++ [CallCreateDM id])%list));
     session_SendMsg := fun cid m st =>
       let '(r, s1) := session_SendMsg session cid m (fst st) in
       (r, (s1, (snd st ++ [CallSendMsg cid m])%list)) |}.

(** The lock states of all users, by address. *)
Definition locks (h : heap) : list RWMutex := mu <$> users h.

Definition free : RWMutex := {| readers := 0; writer := false |}.

Definition is_free (m : RWMutex) : bool :=
  negb (writer m) && (readers m =? 0)%nat.

(** A session that refuses to open a channel. *)
Definition refusing_session : Session unit :=
  {| CreateDM := fun id s => ((None, Some (errors_New "cannot open channel")), s);
     session_SendMsg := fun cid m s => ((Some m, None), s) |}.

(** ** Copies out of one source, run concurrently *)

(** One thread per target, each copying the user at [a] into its target. *)
Definition copies_from (a : addr) (targets : list addr) : list (list action) :=
  (fun t => CopyOverTo_body (Some a) (Some t)) <$> targets.

(** The statements that may have to wait. *)
Definition is_acquire (x : action) : bool :=
  match x with
  | ARLock _ | ALock _ => true
  | _ => false
  end.

(** What stays true while such threads run: every thread is somewhere in
    its copy; the source's lock never has a writer; no target's lock has
    readers; and a target's lock that has a writer is held by a thread that
    is past its [Lock] and has not finished its [Unlock]. *)
Definition copy_inv (a : addr) (c : config) : Prop :=
  Forall (fun prog => exists t k,
            t <> a /\ prog = skipn k (CopyOverTo_body (Some a) (Some t)))
         (snd c)
  /\ (forall m, locks (fst c) !! a = Some m -> writer m = false)
  /\ (forall x m, x <> a -> locks (fst c) !! x = Some m -> readers m = 0)
  /\ (forall x m, locks (fst c) !! x = Some m -> writer m = true ->
        exists i k, 2 <= k <= 12
                    /\ snd c !! i
                       = Some (skipn k (CopyOverTo_body (Some a) (Some x)))).

(** A thread holds the source's read lock from after its [RLock] until its
    [RUnlock]: when between 2 and 12 statements are left. *)
Definition reading (prog : list action) : bool :=
  (2 <=? length prog)%nat && (length prog <=? 12)%nat.

Fixpoint count_reading (ts : list (list action)) : nat :=
  match ts with
  | [] => 0
  | prog :: rest => (if reading prog then 1 else 0) + count_reading rest
  end.

(** What stays true, beyond [copy_inv], when the store is well formed: the
    source and all targets are users of the store and the source's Avatar
    pointer is valid; the source's reader count is its initial value [r0]
    plus the threads that hold its read lock; a thread past its [Lock] finds
    its target's writer flag set; and no two threads are past the [Lock] of
    the same target. *)
Definition copy_safe (a : addr) (r0 : nat) (c : config) : Prop :=
  copy_inv a c
  /\ (exists ua, users (fst c) !! a = Some ua
                 /\ forall p, Avatar ua = Some p -> is_Some (cells (fst c) !! p))
  /\ (forall i t k, snd c !! i
                    = Some (skipn k (CopyOverTo_body (Some a) (Some t))) ->
                    k <= 12 -> is_Some (users (fst c) !! t))
  /\ (forall m, locks (fst c) !! a = Some m ->
        readers m = r0 + count_reading (snd c))
  /\ (forall i t k, snd c !! i
                    = Some (skipn k (CopyOverTo_body (Some a) (Some t))) ->
                    2 <= k <= 12 ->
                    exists m, locks (fst c) !! t = Some m /\ writer m = true)
  /\ (forall i j t k k',
        snd c !! i = Some (skipn k (CopyOverTo_body (Some a) (Some t))) ->
        snd c !! j = Some (skipn k' (CopyOverTo_body (Some a) (Some t))) ->
        2 <= k <= 12 -> 2 <= k' <= 12 -> i = j).

(** The statements all threads together still have to run. *)
Fixpoint statements_left (ts : list (list action)) : nat :=
  match ts with
  | [] => 0
  | prog :: rest => length prog + statements_left rest
  end.

(** The place of the assignment of a field in [CopyOverTo_body]. *)
Definition field_pos (f : field) : nat :=
  match f with
  | FID => 2 | FUsername => 3 | FDiscriminator => 4 | FEmail => 5
  | FToken => 6 | FVerified => 7 | FMFAEnabled => 8 | FBot => 9
  end.

(** Two users agree on a field. *)
Definition field_eq (f : field) (x y : User) : Prop :=
  match f with
  | FID => ID x = ID y
  | FUsername => Username x = Username y
  | FDiscriminator => Discriminator x = Discriminator y
  | FEmail => Email x = Email y
  | FToken => Token x = Token y
  | FVerified => Verified x = Verified y
  | FMFAEnabled => MFAEnabled x = MFAEnabled y
  | FBot => Bot x = Bot y
  end.

(** What stays true of the fields while copies out of [a] run: the source
    keeps the scalar fields of [ua0], and the target of thread [i] agrees
    with [ua0] on every field whose assignment the thread has passed. *)
Definition copy_fields (a : addr) (ua0 : User) (targets : list addr)
    (c : config) : Prop :=
  length (snd c) = length targets
  /\ (forall ua f, users (fst c) !! a = Some ua -> field_eq f ua ua0)
  /\ (forall i t, targets !! i = Some t ->
        t <> a
        /\ exists k,
             snd c !! i = Some (skipn k (CopyOverTo_body (Some a) (Some t)))
             /\ forall f ut, field_pos f < k -> users (fst c) !! t = Some ut ->
                             field_eq f ut ua0).

(** ** Copies between arbitrary users, run concurrently *)

(** One thread per pair of a source and a target. *)
Definition copies (pairs : list (addr * addr)) : list (list action) :=
  (fun p => CopyOverTo_body (Some (fst p)) (Some (snd p))) <$> pairs.

Definition is_RLock (x : action) : bool :=
  match x with ARLock _ => true | _ => false end.

Definition is_Lock (x : action) : bool :=
  match x with ALock _ => true | _ => false end.

Definition is_RUnlock_of (a : addr) (x : action) : bool :=
  match x with ARUnlock (Some b) => (b =? a)%nat | _ => false end.

Definition is_Unlock_of (a : addr) (x : action) : bool :=
  match x with AUnlock (Some b) => (b =? a)%nat | _ => false end.

(** A thread is a reader of [a] when it has the [RUnlock] of [a] still to
    run and no [RLock] before it; it holds [a] as a writer when it has the
    [Unlock] of [a] still to run and no [Lock] before it. *)
Definition reads (a : addr) (prog : list action) : bool :=
  existsb (is_RUnlock_of a) prog && negb (existsb is_RLock prog).

Definition holds (a : addr) (prog : list action) : bool :=
  existsb (is_Unlock_of a) prog && negb (existsb is_Lock prog).

Fixpoint count_threads (f : list action -> bool) (ts : list (list action))
  : nat :=
  match ts with
  | [] => 0
  | prog :: rest => (if f prog then 1 else 0) + count_threads f rest
  end.

(** Go lets no new reader in once a writer has started to wait.  A thread
    about to take the read lock of [a] is therefore also counted as waiting
    when another thread stands at the [Lock] of [a], whether or not that
    thread has to wait itself. *)
Definition at_Lock (a : addr) (prog : list action) : bool :=
  match prog with
  | ALock (Some b) :: _ => (b =? a)%nat
  | _ => false
  end.

Definition behind_writer (ts : list (list action)) (prog : list action)
  : bool :=
  match prog with
  | ARLock (Some a) :: _ => existsb (at_Lock a) ts
  | _ => false
  end.

Definition waits (c : config) (prog : list action) : bool :=
  blocked (fst c) prog || behind_writer (snd c) prog.

(** Every thread has finished or waits in this wider sense, and some thread
    waits. *)
Definition stalled (c : config) : bool :=
  forallb (fun t => finished t || waits c t) (snd c)
  && existsb (waits c) (snd c).

(** The readers a lock has before the copies start. *)
Definition readers_at (h : heap) (x : addr) : nat :=
  match locks h !! x with
  | Some m => readers m
  | None => 0
  end.

(** What stays true while copies run that all ascend a ranking of the users:
    every thread is somewhere in one of the copies; a lock has a writer
    exactly when one thread is past its [Lock] of it, and no two threads
    are; and the readers of a lock are those it had at the start, none for
    a target, and the threads between their [RLock] and [RUnlock] of it. *)
Definition ranked_inv (rank : addr -> nat) (bound : nat)
    (pairs : list (addr * addr)) (r0 : addr -> nat) (c : config) : Prop :=
  (forall s t, (s, t) ∈ pairs ->
     rank s < rank t /\ rank t < bound /\ r0 t = 0)
  /\ Forall (fun prog => exists s t k,
               (s, t) ∈ pairs
               /\ prog = skipn k (CopyOverTo_body (Some s) (Some t)))
            (snd c)
  /\ (forall x m, locks (fst c) !! x = Some m ->
        count_threads (holds x) (snd c) = (if writer m then 1 else 0)
        /\ readers m = r0 x + count_threads (reads x) (snd c)).

(** What stays true, beyond [ranked_inv], when the store is well formed:
    the number of users does not change, sources and targets are users of
    the store, and every Avatar pointer is valid. *)
Definition ranked_safe (rank : addr -> nat) (bound : nat)
    (pairs : list (addr * addr)) (r0 : addr -> nat) (n : nat) (c : config)
  : Prop :=
  ranked_inv rank bound pairs r0 c
  /\ length (users (fst c)) = n
  /\ (forall s t, (s, t) ∈ pairs -> s < n /\ t < n)
  /\ (forall x u p, users (fst c) !! x = Some u -> Avatar u = Some p ->
        is_Some (cells (fst c) !! p)).

(** ** Party limits *)

Lemma index_lookup {A : Type} (l : list A) (i : nat) (x : A) :
  l !! i = Some x -> index l i = Done x.
Proof. intros H. unfold index. now rewrite H. Qed.

Lemma Limit_two (ap : ActivityParty) (x y : Z) :
  Size ap = [x; y] -> Limit ap = Done y.
Proof. intros H. unfold Limit. now rewrite H. Qed.

Lemma Limit_other (ap : ActivityParty) :
  length (Size ap) <> 2 -> Limit ap = Done 0%Z.
Proof.
  intros H. unfold Limit.
  destruct (Nat.eqb_spec (length (Size ap)) 2) as [E | E]; [contradiction | reflexivity].
Qed.

Lemma NumberOfPeople_one (ap : ActivityParty) (x : Z) :
  Size ap = [x] -> NumberOfPeople ap = Done x.
Proof. intros H. unfold NumberOfPeople. now rewrite H. Qed.

Lemma NumberOfPeople_other (ap : ActivityParty) :
  length (Size ap) <> 1 -> NumberOfPeople ap = Done 0%Z.
Proof.
  intros H. unfold NumberOfPeople.
  destruct (Nat.eqb_spec (length (Size ap)) 1) as [E | E]; [contradiction | reflexivity].
Qed.

(** C7: [Limit] returns [Size[1]] exactly when the size list has length 2
    and 0 for every other length; [NumberOfPeople] returns [Size[0]] exactly
    when the list has length 1 and 0 otherwise; neither ever crashes. *)
Theorem Party_Limit_NumberOfPeople (ap : ActivityParty) :
  (length (Size ap) = 2 ->
     exists y, Size ap !! 1 = Some y /\ Limit ap = Done y)
  /\ (length (Size ap) <> 2 -> Limit ap = Done 0%Z)
  /\ (length (Size ap) = 1 ->
        exists x, Size ap !! 0 = Some x /\ NumberOfPeople ap = Done x)
  /\ (length (Size ap) <> 1 -> NumberOfPeople ap = Done 0%Z)
  /\ (exists z, Limit ap = Done z)
  /\ (exists z, NumberOfPeople ap = Done z).
Proof.
  refine (conj _ (conj _ (conj _ (conj _ (conj _ _))))).
  - intros H. destruct (Size ap) as [| x [| y [| z l]]] eqn:E; try discriminate H.
    exists y. split; [reflexivity | now apply (Limit_two ap x y)].
  - apply Limit_other.
  - intros H. destruct (Size ap) as [| x [| y l]] eqn:E; try discriminate H.
    exists x. split; [reflexivity | now apply NumberOfPeople_one].
  - apply NumberOfPeople_other.
  - destruct (Size ap) as [| x [| y [| z l]]] eqn:E.
    + exists 0%Z. apply Limit_other. rewrite E. discriminate.
    + exists 0%Z. apply Limit_other. rewrite E. discriminate.
    + exists y. now apply (Limit_two ap x y).
    + exists 0%Z. apply Limit_other. rewrite E. discriminate.
  - destruct (Size ap) as [| x [| y l]] eqn:E.
    + exists 0%Z. apply NumberOfPeople_other. rewrite E. discriminate.
    + exists x. now apply NumberOfPeople_one.
    + exists 0%Z. apply NumberOfPeople_other. rewrite E. discriminate.
Qed.

Lemma Party_Limit_NumberOfPeople_witness :
  Limit {| party_ID := "p"; Size := [3; 5]%Z |} = Done 5%Z
  /\ NumberOfPeople {| party_ID := "p"; Size := [3; 5]%Z |} = Done 0%Z
  /\ NumberOfPeople {| party_ID := "p"; Size := [4]%Z |} = Done 4%Z
  /\ Limit {| party_ID := "p"; Size := [4]%Z |} = Done 0%Z.
Proof.
  pose proof (Party_Limit_NumberOfPeople {| party_ID := "p"; Size := [3; 5]%Z |})
    as (L2 & _ & _ & N2 & _).
  pose proof (Party_Limit_NumberOfPeople {| party_ID := "p"; Size := [4]%Z |})
    as (_ & L1 & N1 & _).
  destruct (L2 eq_refl) as (y & Hy & HL). injection Hy as <-.
  destruct (N1 eq_refl) as (x & Hx & HN). injection Hx as <-.
  refine (conj _ (conj _ (conj _ _))).
  - exact HL.
  - apply N2. discriminate.
  - exact HN.
  - apply L1. discriminate.
Defined.

(** ** Serialization *)

Lemma load_user_lookup (h : heap) (a : addr) (u : User) :
  users h !! a = Some u -> load_user h (Some a) = Done u.
Proof. intros H. simpl. now apply index_lookup. Qed.

Lemma has_key_app (k : string) (xs ys : list member) :
  has_key k (xs ++ ys) = has_key k xs || has_key k ys.
Proof. unfold has_key. now rewrite map_app, existsb_app. Qed.

Lemma has_key_cons (k key : string) (v : jvalue) (ms : list member) :
  has_key k ((key, v) :: ms) = String.eqb k key || has_key k ms.
Proof. reflexivity. Qed.

Lemma has_key_omitempty (k key : string) (e : bool) (v : jvalue) :
  has_key k (omitempty key e v) = negb e && String.eqb k key.
Proof. destruct e; simpl; [reflexivity |]. unfold has_key. simpl. now rewrite orb_false_r. Qed.

Lemma string_empty_spec (s : string) : string_empty s = true <-> s = "".
Proof. destruct s; simpl; split; intros H; try reflexivity; discriminate. Qed.

Lemma encode_Avatar_valid (h : heap) (p : ptr) :
  (forall a, p = Some a -> is_Some (cells h !! a)) ->
  exists v, encode_Avatar h p = Done v.
Proof.
  intros H. destruct p as [a |]; simpl.
  - destruct (H a eq_refl) as [s Hs]. exists (JString s).
    unfold load_cell. now rewrite (index_lookup _ _ _ Hs).
  - now exists JNull.
Qed.

(** Which keys the members of a user carry. *)
Lemma User_members_keys (h : heap) (u : User) (ms : list member) (k : string) :
  User_members h u = Done ms ->
  has_key k ms =
    (negb (ID u =? 0)%Z && String.eqb k "id")
    || (negb (string_empty (Username u)) && String.eqb k "username")
    || (negb (string_empty (Discriminator u)) && String.eqb k "discriminator")
    || (negb (string_empty (Email u)) && String.eqb k "email")
    || String.eqb k "avatar"
    || (negb (string_empty (Token u)) && String.eqb k "token")
    || (Verified u && String.eqb k "verified")
    || (MFAEnabled u && String.eqb k "mfa_enabled")
    || (Bot u && String.eqb k "bot").
Proof.
  unfold User_members.
  destruct (encode_Avatar h (Avatar u)) as [v | |]; cbn [obind]; try discriminate.
  intros [= <-].
  change ([("avatar", v)] ++ ?l)%list with (("avatar", v) :: l).
  rewrite !has_key_app, !has_key_omitempty, has_key_cons.
  rewrite !has_key_app, !has_key_omitempty, !negb_involutive.
  now rewrite !orb_assoc.
Qed.

Lemma string_app_assoc (s t r : string) : (s ++ t) ++ r = s ++ t ++ r.
Proof.
  induction s as [| c s IH]; [reflexivity |].
  change (String c ((s ++ t) ++ r) = String c (s ++ t ++ r)).
  now rewrite IH.
Qed.

Section EncodingFacts.

  Variable encode_string : string -> string.
  Variable Snowflake_MarshalJSON : Snowflake -> string.

(** C1: a user whose identifier is empty (0) is written as the empty object
    with no error, whatever its other fields hold. *)
Theorem MarshalJSON_reference_only (h : heap) (a : addr) (u : User) :
  users h !! a = Some u ->
  ID u = 0%Z ->
  MarshalJSON encode_string Snowflake_MarshalJSON (Some a) h
  = Done ("{}", None).
Proof.
  intros Hu Hid. unfold MarshalJSON.
  rewrite (load_user_lookup _ _ _ Hu). simpl.
  unfold Empty. now rewrite Hid.
Qed.

(** C5: a user with identifier > 0 is written in the full form: the output
    is the object of its members, every omit-when-default field holding its
    zero value is absent, and the identifier is present.  The members are
    exactly the identifier, each omit-when-default field that is not at its
    zero value, and the avatar ([null] for a nil pointer, else the string
    pointed to), in the order of the struct; the bytes are those members
    between braces, separated by commas, the identifier first. *)
Theorem MarshalJSON_full_form (h : heap) (a : addr) (u : User) :
  users h !! a = Some u ->
  (0 < ID u)%Z ->
  (forall p, Avatar u = Some p -> is_Some (cells h !! p)) ->
  exists ms,
    User_members h u = Done ms
    /\ MarshalJSON encode_string Snowflake_MarshalJSON (Some a) h
       = Done (encode_object encode_string Snowflake_MarshalJSON ms, None)
    /\ In ("id", JSnowflake (ID u)) ms
    /\ has_key "id" ms = true
    /\ (Username u = "" -> has_key "username" ms = false)
    /\ (Discriminator u = "" -> has_key "discriminator" ms = false)
    /\ (Email u = "" -> has_key "email" ms = false)
    /\ (Token u = "" -> has_key "token" ms = false)
    /\ (Verified u = false -> has_key "verified" ms = false)
    /\ (MFAEnabled u = false -> has_key "mfa_enabled" ms = false)
    /\ (Bot u = false -> has_key "bot" ms = false)
    /\ exists avatar avatar_text,
         match Avatar u with
         | None => avatar = JNull /\ avatar_text = "null"
         | Some p =>
           exists s, cells h !! p = Some s
                     /\ avatar = JString s
                     /\ avatar_text = encode_string s
         end
         /\ ms = ([("id", JSnowflake (ID u))]
                  ++ (if decide (Username u = "") then []
                      else [("username", JString (Username u))])
                  ++ (if decide (Discriminator u = "") then []
                      else [("discriminator", JString (Discriminator u))])
                  ++ (if decide (Email u = "") then []
                      else [("email", JString (Email u))])
                  ++ [("avatar", avatar)]
                  ++ (if decide (Token u = "") then []
                      else [("token", JString (Token u))])
                  ++ (if Verified u then [("verified", JBool true)] else [])
                  ++ (if MFAEnabled u then [("mfa_enabled", JBool true)] else [])
                  ++ (if Bot u then [("bot", JBool true)] else []))%list
         /\ MarshalJSON encode_string Snowflake_MarshalJSON (Some a) h
            = Done ("{" ++ dquote ++ "id" ++ dquote ++ ":"
                        ++ Snowflake_MarshalJSON (ID u)
                    ++ (if decide (Username u = "") then ""
                        else "," ++ dquote ++ "username" ++ dquote ++ ":"
                                 ++ encode_string (Username u))
                    ++ (if decide (Discriminator u = "") then ""
                        else "," ++ dquote ++ "discriminator" ++ dquote ++ ":"
                                 ++ encode_string (Discriminator u))
                    ++ (if decide (Email u = "") then ""
                        else "," ++ dquote ++ "email" ++ dquote ++ ":"
                                 ++ encode_string (Email u))
                    ++ "," ++ dquote ++ "avatar" ++ dquote ++ ":" ++ avatar_text
                    ++ (if decide (Token u = "") then ""
                        else "," ++ dquote ++ "token" ++ dquote ++ ":"
                                 ++ encode_string (Token u))
                    ++ (if Verified u
                        then "," ++ dquote ++ "verified" ++ dquote ++ ":true"
                        else "")
                    ++ (if MFAEnabled u
                        then "," ++ dquote ++ "mfa_enabled" ++ dquote ++ ":true"
                        else "")
                    ++ (if Bot u
                        then "," ++ dquote ++ "bot" ++ dquote ++ ":true"
                        else "")
                    ++ "}", None).
Proof.
  intros Hu Hid Hav.
  assert (Hne : (ID u =? 0)%Z = false) by (apply Z.eqb_neq; lia).
  destruct (encode_Avatar_valid h (Avatar u) Hav) as [v Hv].
  assert (Hms : exists ms, User_members h u = Done ms
                           /\ In ("id", JSnowflake (ID u)) ms).
  { unfold User_members. rewrite Hv. simpl. rewrite Hne. simpl.
    eexists. split; [reflexivity | now left]. }
  destruct Hms as (ms & Hms & Hin).
  assert (Hrun : MarshalJSON encode_string Snowflake_MarshalJSON (Some a) h
       = Done (encode_object encode_string Snowflake_MarshalJSON ms, None)).
  { unfold MarshalJSON. rewrite (load_user_lookup _ _ _ Hu). simpl.
    unfold Empty. rewrite Hne. unfold json_Marshal_User. now rewrite Hms. }
  exists ms. split; [exact Hms |]. split; [exact Hrun |].
  split; [exact Hin |].
  pose proof (fun k => User_members_keys h u ms k Hms) as K.
  refine (conj _ (conj _ (conj _ (conj _ (conj _ (conj _ (conj _ (conj _ _)))))))).
  - rewrite K, Hne. reflexivity.
  - intros E. rewrite K, E. simpl. now rewrite !andb_false_r.
  - intros E. rewrite K, E. simpl. now rewrite !andb_false_r.
  - intros E. rewrite K, E. simpl. now rewrite !andb_false_r.
  - intros E. rewrite K, E. simpl. now rewrite !andb_false_r.
  - intros E. rewrite K, E. simpl. now rewrite !andb_false_r.
  - intros E. rewrite K, E. simpl. now rewrite !andb_false_r.
  - intros E. rewrite K, E. simpl. now rewrite !andb_false_r.
  - rewrite Hrun. clear Hrun K Hin.
    exists v, (encode_value encode_string Snowflake_MarshalJSON v).
    split.
    { destruct (Avatar u) as [p |]; simpl in Hv.
      - destruct (Hav p eq_refl) as [s Hs]. exists s.
        unfold load_cell in Hv. rewrite (index_lookup _ _ _ Hs) in Hv.
        injection Hv as <-. auto.
      - injection Hv as <-. auto. }
    unfold User_members in Hms. rewrite Hv, Hne in Hms. cbn [obind] in Hms.
    injection Hms as <-.
    destruct (Username u) as [| c1 s1]; destruct (Discriminator u) as [| c2 s2];
      destruct (Email u) as [| c3 s3]; destruct (Token u) as [| c4 s4];
      destruct (Verified u); destruct (MFAEnabled u); destruct (Bot u);
      repeat match goal with
             | |- context [decide (?x = ?y)] =>
               destruct (decide (x = y)); [try discriminate | try congruence]
             end.
    all: split; [reflexivity |].
    all: unfold encode_object, encode_member; cbn -[String.append dquote].
    all: rewrite ?string_app_assoc; reflexivity.
Qed.
End EncodingFacts.

Lemma MarshalJSON_reference_only_witness :
  users sample_heap !! 1 = Some mention_only
  /\ ID mention_only = 0%Z
  /\ MarshalJSON plain_quote quoted_decimal (Some 1) sample_heap
     = Done ("{}", None).
Proof.
  split; [reflexivity |]. split; [reflexivity |].
  apply (MarshalJSON_reference_only plain_quote quoted_decimal
           sample_heap 1 mention_only); reflexivity.
Defined.

Lemma MarshalJSON_full_form_witness :
  users sample_heap !! 0 = Some ann
  /\ (0 < ID ann)%Z
  /\ (forall p, Avatar ann = Some p -> is_Some (cells sample_heap !! p))
  /\ exists ms,
       User_members sample_heap ann = Done ms
       /\ MarshalJSON plain_quote quoted_decimal (Some 0) sample_heap
          = Done (encode_object plain_quote quoted_decimal ms, None)
       /\ In ("id", JSnowflake (ID ann)) ms
       /\ has_key "id" ms = true
       /\ (Username ann = "" -> has_key "username" ms = false)
       /\ (Discriminator ann = "" -> has_key "discriminator" ms = false)
       /\ (Email ann = "" -> has_key "email" ms = false)
       /\ (Token ann = "" -> has_key "token" ms = false)
       /\ (Verified ann = false -> has_key "verified" ms = false)
       /\ (MFAEnabled ann = false -> has_key "mfa_enabled" ms = false)
       /\ (Bot ann = false -> has_key "bot" ms = false)
       /\ ms = [("id", JSnowflake 123%Z); ("username", JString "Ann");
                ("discriminator", JString "0001"); ("avatar", JString "a.png");
                ("verified", JBool true)]
       /\ MarshalJSON plain_quote quoted_decimal (Some 0) sample_heap
          = Done ("{" ++ dquote ++ "id" ++ dquote ++ ":" ++ quoted_decimal 123%Z
                  ++ "," ++ dquote ++ "username" ++ dquote ++ ":"
                         ++ plain_quote "Ann"
                  ++ "," ++ dquote ++ "discriminator" ++ dquote ++ ":"
                         ++ plain_quote "0001"
                  ++ "," ++ dquote ++ "avatar" ++ dquote ++ ":"
                         ++ plain_quote "a.png"
                  ++ "," ++ dquote ++ "verified" ++ dquote ++ ":true"
                  ++ "}", None).
Proof.
  assert (H3 : forall p, Avatar ann = Some p -> is_Some (cells sample_heap !! p)).
  { intros p [= <-]. exists "a.png". reflexivity. }
  split; [reflexivity |]. split; [reflexivity |]. split; [exact H3 |].
  destruct (MarshalJSON_full_form plain_quote quoted_decimal sample_heap 0 ann
              eq_refl eq_refl H3)
    as (ms & K1 & K2 & K3 & K4 & K5 & K6 & K7 & K8 & K9 & K10 & K11
        & avatar & text & Kav & Kms & Kbytes).
  exists ms.
  refine (conj K1 (conj K2 (conj K3 (conj K4 (conj K5 (conj K6 (conj K7
           (conj K8 (conj K9 (conj K10 (conj K11 _))))))))))).
  simpl in Kav. destruct Kav as (s & Hs & -> & ->).
  injection Hs as <-.
  split; [exact Kms | exact Kbytes].
Defined.

(** The members and the bytes written for the sample user. *)
Example MarshalJSON_ann :
  User_members sample_heap ann
  = Done [("id", JSnowflake 123%Z); ("username", JString "Ann");
          ("discriminator", JString "0001"); ("avatar", JString "a.png");
          ("verified", JBool true)]
  /\ MarshalJSON plain_quote quoted_decimal (Some 0) sample_heap
     = Done ("{" ++ plain_quote "id" ++ ":" ++ plain_quote "123"
             ++ "," ++ plain_quote "username" ++ ":" ++ plain_quote "Ann"
             ++ "," ++ plain_quote "discriminator" ++ ":" ++ plain_quote "0001"
             ++ "," ++ plain_quote "avatar" ++ ":" ++ plain_quote "a.png"
             ++ "," ++ plain_quote "verified" ++ ":true}", None).
Proof. split; [reflexivity | vm_compute; reflexivity]. Qed.

(** ** Decode dispatch *)

(** C8: when the target has a custom decode capability, [Unmarshal] invokes
    it on the data and returns its result, whatever the generic decoder
    would do; otherwise it returns what the generic decoder returns. *)
Theorem Unmarshal_dispatch
    (assert_Unmarshaler : value -> option Unmarshaler)
    (json_Unmarshal : string -> value -> heap -> outcome (option error * heap))
    (data : string) (v : value) (h : heap) :
  (forall j, assert_Unmarshaler v = Some j ->
     Unmarshal assert_Unmarshaler json_Unmarshal data v h
     = UnmarshalJSON j data h
     /\ forall other_generic,
          Unmarshal assert_Unmarshaler other_generic data v h
          = UnmarshalJSON j data h)
  /\ (assert_Unmarshaler v = None ->
        Unmarshal assert_Unmarshaler json_Unmarshal data v h
        = json_Unmarshal data v h).
Proof.
  unfold Unmarshal. split.
  - intros j Hj. rewrite Hj. split; [reflexivity | intros g; reflexivity].
  - intros Hn. rewrite Hn. reflexivity.
Qed.

Lemma Unmarshal_dispatch_witness :
  Unmarshal only_strings_decode generic_ok "{}" (VString "x") sample_heap
  = Done (Some (errors_New "{}"), sample_heap)
  /\ Unmarshal only_strings_decode generic_ok "{}" (VUserPtr (Some 0)) sample_heap
     = Done (None, sample_heap).
Proof.
  split.
  - apply (proj1 (Unmarshal_dispatch only_strings_decode generic_ok "{}"
                    (VString "x") sample_heap) echo_decoder eq_refl).
  - apply (proj2 (Unmarshal_dispatch only_strings_decode generic_ok "{}"
                    (VUserPtr (Some 0)) sample_heap) eq_refl).
Defined.

(** ** Stubs *)

(** C9: [SaveToDiscord] returns the fixed "not implemented" error for every
    user, session and store, leaves the store as it was, and makes no call
    on the session: the session state is returned untouched, and a session
    that records its calls has recorded none. *)
Theorem SaveToDiscord_not_implemented
    (S : Type) (session : Session S) (u : ptr) (h : heap) (s : S) :
  SaveToDiscord session u h s
  = Done (Some (errors_New "not implemented"), h, s)
  /\ SaveToDiscord recording_session u h []
     = Done (Some (errors_New "not implemented"), h, []).
Proof. split; reflexivity. Qed.

(** The sibling [SendMsg] does call the session: on the recording session
    it leaves a [CreateDM] and a [SendMsg] call. *)
Example SendMsg_calls_session :
  SendMsg recording_session (Some 0) {| Content := "hi" |} sample_heap []
  = Done ((Some {| channel_ID := 123%Z |}, Some {| Content := "hi" |}, None),
          [CallCreateDM 123%Z; CallSendMsg 123%Z {| Content := "hi" |}]).
Proof. reflexivity. Qed.

(** C10: [Clear] on a user is a no-op: the store, and with it every field of
    every user, is unchanged; in particular no Avatar is reset. *)
Theorem User_Clear_noop (u : ptr) (h : heap) :
  Clear u h = Done h
  /\ forall h1, Clear u h = Done h1 ->
       forall a, users h1 !! a = users h !! a
                 /\ Avatar <$> users h1 !! a = Avatar <$> users h !! a.
Proof.
  split; [reflexivity |].
  intros h1 [= <-] a. split; reflexivity.
Qed.

(** By contrast [UserPresence.Clear] does reset the activity. *)
Example UserPresence_Clear_resets_Game :
  (presences sample_heap !! 0) ≫= (fun p => Game p) = Some 0
  /\ exists h1, UserPresence_Clear (Some 0) sample_heap = Done h1
                /\ Game <$> presences h1 !! 0 = Some None.
Proof. split; [reflexivity |]. eexists. split; reflexivity. Qed.

(** ** Type mismatch *)

(** C4: a target that is not a [*User] makes [CopyOverTo] return the
    UnsupportedType error with the store, and so every field of the target,
    unchanged; and whenever [CopyOverTo] returns an error the target was not
    a [*User]. *)
Theorem CopyOverTo_type_mismatch (u : ptr) (other : value) (h : heap) :
  (is_UserPtr other = false ->
     CopyOverTo u other h
     = Done (Some (NewErrorUnsupportedType "argument given is not a *User type"),
             h))
  /\ (forall e h1, CopyOverTo u other h = Done (Some e, h1) ->
        is_UserPtr other = false
        /\ e = NewErrorUnsupportedType "argument given is not a *User type"
        /\ h1 = h).
Proof.
  split.
  - intros H. destruct other; try discriminate H; reflexivity.
  - intros e h1 H. unfold CopyOverTo in H.
    destruct other; try (injection H as <- <-; repeat split; reflexivity).
    destruct (run (CopyOverTo_body u p) h); cbn [obind] in H; discriminate H.
Qed.

Lemma CopyOverTo_type_mismatch_witness :
  CopyOverTo (Some 0) (VUserPresencePtr (Some 0)) sample_heap
  = Done (Some (ErrorUnsupportedType "argument given is not a *User type"),
          sample_heap)
  /\ CopyOverTo (Some 0) (VUser mention_only) sample_heap
     = Done (Some (ErrorUnsupportedType "argument given is not a *User type"),
             sample_heap)
  /\ CopyOverTo (Some 0) VNil sample_heap
     = Done (Some (ErrorUnsupportedType "argument given is not a *User type"),
             sample_heap).
Proof.
  refine (conj _ (conj _ _)).
  - apply (proj1 (CopyOverTo_type_mismatch (Some 0) (VUserPresencePtr (Some 0))
                    sample_heap) eq_refl).
  - apply (proj1 (CopyOverTo_type_mismatch (Some 0) (VUser mention_only)
                    sample_heap) eq_refl).
  - apply (proj1 (CopyOverTo_type_mismatch (Some 0) VNil sample_heap) eq_refl).
Defined.

(** ** Running the copy protocol between two distinct users *)

Lemma run_cons (x : action) (rest : list action) (h : heap) :
  run (x :: rest) h = let! h1 := exec x h in run rest h1.
Proof. reflexivity. Qed.

Section TwoUsers.

Variables (l : list User) (a b : addr).
Hypothesis Hab : a <> b.
Hypothesis Ha : a < length l.
Hypothesis Hb : b < length l.

Lemma two_lookup_src ta tb : two l a ta b tb !! a = Some ta.
Proof.
  unfold two. rewrite list_lookup_insert_ne by congruence.
  now apply list_lookup_insert_eq.
Qed.

Lemma two_lookup_dst ta tb : two l a ta b tb !! b = Some tb.
Proof.
  unfold two. apply list_lookup_insert_eq. now rewrite length_insert.
Qed.

Lemma two_store_src ta tb x : <[a := x]> (two l a ta b tb) = two l a x b tb.
Proof.
  unfold two. rewrite list_insert_insert_ne by exact Hab.
  now rewrite list_insert_insert_eq.
Qed.

Lemma two_store_dst ta tb x : <[b := x]> (two l a ta b tb) = two l a ta b x.
Proof. unfold two. now rewrite list_insert_insert_eq. Qed.

Lemma on_mutex_src op ta tb cs ps :
  on_mutex op (Some a) (mk_heap (two l a ta b tb) cs ps)
  = let! m := op (mu ta) in
    Done (mk_heap (two l a (with_mu ta m) b tb) cs ps).
Proof.
  unfold on_mutex, mk_heap. simpl.
  rewrite (index_lookup _ _ _ (two_lookup_src ta tb)). simpl.
  destruct (op (mu ta)); simpl; try reflexivity.
  unfold store_user. simpl. now rewrite two_store_src.
Qed.

Lemma on_mutex_dst op ta tb cs ps :
  on_mutex op (Some b) (mk_heap (two l a ta b tb) cs ps)
  = let! m := op (mu tb) in
    Done (mk_heap (two l a ta b (with_mu tb m)) cs ps).
Proof.
  unfold on_mutex, mk_heap. simpl.
  rewrite (index_lookup _ _ _ (two_lookup_dst ta tb)). simpl.
  destruct (op (mu tb)); simpl; try reflexivity.
  unfold store_user. simpl. now rewrite two_store_dst.
Qed.

Lemma exec_RLock_src ta tb cs ps :
  writer (mu ta) = false ->
  exec (ARLock (Some a)) (mk_heap (two l a ta b tb) cs ps)
  = Done (mk_heap (two l a (with_mu ta {| readers := S (readers (mu ta));
                                         writer := false |}) b tb) cs ps).
Proof.
  intros Hw. cbn [exec]. rewrite on_mutex_src. unfold RLock. now rewrite Hw.
Qed.

Lemma exec_Lock_dst ta tb cs ps :
  mu tb = {| readers := 0; writer := false |} ->
  exec (ALock (Some b)) (mk_heap (two l a ta b tb) cs ps)
  = Done (mk_heap (two l a ta b (with_mu tb {| readers := 0;
                                               writer := true |})) cs ps).
Proof.
  intros Hf. cbn [exec]. rewrite on_mutex_dst. unfold Lock. now rewrite Hf.
Qed.

Lemma exec_RUnlock_src ta tb cs ps r w :
  mu ta = {| readers := S r; writer := w |} ->
  exec (ARUnlock (Some a)) (mk_heap (two l a ta b tb) cs ps)
  = Done (mk_heap (two l a (with_mu ta {| readers := r; writer := w |})
                       b tb) cs ps).
Proof.
  intros Hm. cbn [exec]. rewrite on_mutex_src. unfold RUnlock. now rewrite Hm.
Qed.

Lemma exec_Unlock_dst ta tb cs ps r :
  mu tb = {| readers := r; writer := true |} ->
  exec (AUnlock (Some b)) (mk_heap (two l a ta b tb) cs ps)
  = Done (mk_heap (two l a ta b (with_mu tb {| readers := r;
                                               writer := false |})) cs ps).
Proof.
  intros Hm. cbn [exec]. rewrite on_mutex_dst. unfold Unlock. now rewrite Hm.
Qed.

Lemma exec_assign f ta tb cs ps :
  exec (AAssign f (Some b) (Some a)) (mk_heap (two l a ta b tb) cs ps)
  = Done (mk_heap (two l a ta b (assign_field f tb ta)) cs ps).
Proof.
  unfold mk_heap. simpl.
  rewrite (index_lookup _ _ _ (two_lookup_src ta tb)). simpl.
  rewrite (index_lookup _ _ _ (two_lookup_dst ta tb)). simpl.
  unfold store_user. simpl. now rewrite two_store_dst.
Qed.

Lemma exec_copy_avatar_nil ta tb cs ps :
  Avatar ta = None ->
  exec (ACopyAvatar (Some b) (Some a)) (mk_heap (two l a ta b tb) cs ps)
  = Done (mk_heap (two l a ta b tb) cs ps).
Proof.
  intros Hav. unfold mk_heap. simpl.
  rewrite (index_lookup _ _ _ (two_lookup_src ta tb)). simpl.
  now rewrite Hav.
Qed.

Lemma exec_copy_avatar_value ta tb cs ps p s :
  Avatar ta = Some p ->
  cs !! p = Some s ->
  exec (ACopyAvatar (Some b) (Some a)) (mk_heap (two l a ta b tb) cs ps)
  = Done (mk_heap (two l a ta b (with_Avatar tb (Some (length cs))))
                  (cs ++ [s]) ps).
Proof.
  intros Hav Hs. unfold mk_heap. simpl.
  rewrite (index_lookup _ _ _ (two_lookup_src ta tb)). simpl.
  rewrite Hav. unfold load_cell. simpl.
  rewrite (index_lookup _ _ _ Hs). simpl.
  rewrite (index_lookup _ _ _ (two_lookup_dst ta tb)). simpl.
  unfold store_user. simpl. now rewrite two_store_dst.
Qed.

End TwoUsers.

Lemma with_mu_restore (u : User) (m : RWMutex) :
  mu u = m -> with_mu u m = u.
Proof. intros <-. now destruct u. Qed.

(** The whole body, run alone from a store where the source has no writer
    and the target's lock is free. *)
Lemma CopyOverTo_body_run (h : heap) (a b : addr) (ua ub : User) :
  a <> b ->
  users h !! a = Some ua ->
  users h !! b = Some ub ->
  writer (mu ua) = false ->
  mu ub = {| readers := 0; writer := false |} ->
  (forall p, Avatar ua = Some p -> is_Some (cells h !! p)) ->
  run (CopyOverTo_body (Some a) (Some b)) h
  = Done (CopyOverTo_result h b ua ub).
Proof.
  intros Hab Hua Hub Hw Hfree Hav.
  pose proof (lookup_lt_Some _ _ _ Hua) as Ha.
  pose proof (lookup_lt_Some _ _ _ Hub) as Hb.
  destruct h as [us cs ps]. simpl in Hua, Hub, Hav, Ha, Hb.
  change {| users := us; cells := cs; presences := ps |} with (mk_heap us cs ps).
  assert (Hinit : us = two us a ua b ub).
  { unfold two. now rewrite (list_insert_id us a ua Hua), (list_insert_id us b ub Hub). }
  rewrite Hinit at 1.
  unfold CopyOverTo_body.
  rewrite run_cons, exec_RLock_src by assumption. cbn [obind].
  rewrite run_cons, exec_Lock_dst by assumption. cbn [obind].
  do 8 (rewrite run_cons, exec_assign by assumption; cbn [obind]).
  assert (Hrestore : with_mu ua {| readers := readers (mu ua); writer := false |} = ua).
  { apply with_mu_restore. destruct (mu ua); simpl in *; now subst. }
  destruct (Avatar ua) as [p |] eqn:Eav.
  - destruct (Hav p eq_refl) as [s Hs].
    rewrite run_cons, exec_copy_avatar_value with (p := p) (s := s)
      by (simpl; assumption).
    cbn [obind].
    rewrite run_cons, exec_RUnlock_src with (r := readers (mu ua)) (w := false)
      by (assumption || reflexivity).
    cbn [obind].
    rewrite run_cons, exec_Unlock_dst with (r := 0)
      by (assumption || reflexivity).
    cbn [obind run]. unfold CopyOverTo_result. rewrite Eav. simpl.
    rewrite ?Hs. unfold mk_heap. f_equal. f_equal.
    unfold two.
    change (with_mu (with_mu ua ?m1) ?m2) with (with_mu ua m2).
    rewrite Hrestore, (list_insert_id us a ua Hua).
    f_equal. unfold copied. simpl. now rewrite ?Hfree.
  - rewrite run_cons, exec_copy_avatar_nil by (simpl; assumption).
    cbn [obind].
    rewrite run_cons, exec_RUnlock_src with (r := readers (mu ua)) (w := false)
      by (assumption || reflexivity).
    cbn [obind].
    rewrite run_cons, exec_Unlock_dst with (r := 0)
      by (assumption || reflexivity).
    cbn [obind run]. unfold CopyOverTo_result. rewrite Eav. simpl.
    rewrite ?Hs. unfold mk_heap. f_equal. f_equal.
    unfold two.
    change (with_mu (with_mu ua ?m1) ?m2) with (with_mu ua m2).
    rewrite Hrestore, (list_insert_id us a ua Hua).
    f_equal. unfold copied. simpl. now rewrite ?Hfree.
Qed.

(** ** Deep copy *)

Lemma same_scalars_copied (src dst : User) (p : ptr) :
  same_scalars (copied src dst p) src.
Proof. unfold same_scalars. simpl. repeat split. Qed.

Lemma DeepCopy_run (h : heap) (a : addr) (u : User) :
  users h !! a = Some u ->
  writer (mu u) = false ->
  (forall p, Avatar u = Some p -> is_Some (cells h !! p)) ->
  DeepCopy (Some a) h
  = Done (VUserPtr (Some (length (users h))),
          CopyOverTo_result (snd (NewUser h)) (length (users h)) u User_zero).
Proof.
  intros Hu Hw Hav.
  pose proof (lookup_lt_Some _ _ _ Hu) as Ha.
  unfold DeepCopy, NewUser, CopyOverTo.
  rewrite (CopyOverTo_body_run _ a (length (users h)) u User_zero).
  - reflexivity.
  - lia.
  - simpl. now apply lookup_app_l_Some.
  - simpl. now rewrite list_lookup_middle.
  - exact Hw.
  - reflexivity.
  - exact Hav.
Qed.

(** C2: [DeepCopy] returns a freshly allocated user whose fields equal the
    source's; a non-nil Avatar is a distinct, newly allocated pointer to the
    string that the source's Avatar held when the copy was made, and the
    source's string is still that string afterwards; the source is as it
    was; and a later write to either user, or through either Avatar pointer,
    leaves the other one unchanged. *)
Theorem DeepCopy_true_copy (h : heap) (a : addr) (u : User) :
  users h !! a = Some u ->
  writer (mu u) = false ->
  (forall p, Avatar u = Some p -> is_Some (cells h !! p)) ->
  exists c cu h1,
    DeepCopy (Some a) h = Done (VUserPtr (Some c), h1)
    /\ users h !! c = None
    /\ c <> a
    /\ users h1 !! c = Some cu
    /\ users h1 !! a = Some u
    /\ same_scalars cu u
    /\ mu cu = {| readers := 0; writer := false |}
    /\ match Avatar u with
       | None => Avatar cu = None
       | Some p =>
         exists q s, Avatar cu = Some q
                     /\ q <> p
                     /\ cells h !! q = None
                     /\ cells h !! p = Some s
                     /\ cells h1 !! p = Some s
                     /\ cells h1 !! q = Some s
       end
    /\ (forall v, users (store_user h1 c v) !! a = Some u)
    /\ (forall v, users (store_user h1 a v) !! c = Some cu)
    /\ (forall p q s, Avatar u = Some p -> Avatar cu = Some q ->
          cells (store_cell h1 q s) !! p = cells h1 !! p
          /\ cells (store_cell h1 p s) !! q = cells h1 !! q).
Proof.
  intros Hu Hw Hav.
  pose proof (lookup_lt_Some _ _ _ Hu) as Ha.
  set (c := length (users h)).
  assert (Hca : c <> a) by (unfold c; lia).
  assert (Hc : c < length (users h ++ [User_zero])%list)
    by (rewrite length_app; simpl; unfold c; lia).
  assert (Hfresh : users h !! c = None) by (apply lookup_ge_None_2; unfold c; lia).
  destruct (Avatar u) as [p |] eqn:Eav.
  - destruct (Hav p eq_refl) as [s Hs].
    pose proof (lookup_lt_Some _ _ _ Hs) as Hp.
    set (q := length (cells h)).
    exists c, (copied u User_zero (Some q)),
      (mk_heap (<[c := copied u User_zero (Some q)]> (users h ++ [User_zero])%list)
               (cells h ++ [s]) (presences h)).
    split.
    { rewrite (DeepCopy_run h a u Hu Hw) by (rewrite Eav; exact Hav).
      unfold CopyOverTo_result, NewUser. simpl. rewrite Eav, Hs. reflexivity. }
    split; [exact Hfresh |]. split; [exact Hca |].
    simpl.
    assert (Hlc : <[c := copied u User_zero (Some q)]> (users h ++ [User_zero])%list !! c
                  = Some (copied u User_zero (Some q)))
      by now apply list_lookup_insert_eq.
    assert (Hla : <[c := copied u User_zero (Some q)]> (users h ++ [User_zero])%list !! a
                  = Some u).
    { rewrite list_lookup_insert_ne by exact Hca. now apply lookup_app_l_Some. }
    split; [exact Hlc |]. split; [exact Hla |].
    split; [apply same_scalars_copied |]. split; [reflexivity |].
    split.
    { exists q, s. split; [reflexivity |]. split; [unfold q; lia |].
      split; [apply lookup_ge_None_2; unfold q; lia |].
      split; [exact Hs |].
      split; [now apply lookup_app_l_Some |].
      unfold q. now rewrite list_lookup_middle. }
    split.
    { intros v. rewrite list_lookup_insert_ne by exact Hca. exact Hla. }
    split.
    { intros v. rewrite list_lookup_insert_ne by congruence. exact Hlc. }
    intros p0 q0 s0 [= <-] [= <-].
    split; apply list_lookup_insert_ne; unfold q; lia.
  - exists c, (copied u User_zero None),
      (mk_heap (<[c := copied u User_zero None]> (users h ++ [User_zero])%list)
               (cells h) (presences h)).
    split.
    { rewrite (DeepCopy_run h a u Hu Hw) by (rewrite Eav; exact Hav).
      unfold CopyOverTo_result, NewUser. simpl. rewrite Eav. reflexivity. }
    split; [exact Hfresh |]. split; [exact Hca |].
    simpl.
    assert (Hlc : <[c := copied u User_zero None]> (users h ++ [User_zero])%list !! c
                  = Some (copied u User_zero None))
      by now apply list_lookup_insert_eq.
    assert (Hla : <[c := copied u User_zero None]> (users h ++ [User_zero])%list !! a
                  = Some u).
    { rewrite list_lookup_insert_ne by exact Hca. now apply lookup_app_l_Some. }
    split; [exact Hlc |]. split; [exact Hla |].
    split; [apply same_scalars_copied |]. split; [reflexivity |].
    split; [reflexivity |].
    split.
    { intros v. rewrite list_lookup_insert_ne by exact Hca. exact Hla. }
    split.
    { intros v. rewrite list_lookup_insert_ne by congruence. exact Hlc. }
    intros p0 q0 s0 HH. discriminate HH.
Qed.

Lemma DeepCopy_true_copy_witness :
  users sample_heap !! 0 = Some ann
  /\ writer (mu ann) = false
  /\ (forall p, Avatar ann = Some p -> is_Some (cells sample_heap !! p))
  /\ exists c cu h1,
       DeepCopy (Some 0) sample_heap = Done (VUserPtr (Some c), h1)
       /\ users sample_heap !! c = None
       /\ users h1 !! c = Some cu
       /\ users h1 !! 0 = Some ann
       /\ same_scalars cu ann
       /\ exists q s, Avatar cu = Some q /\ q <> 0
                      /\ cells sample_heap !! 0 = Some s
                      /\ cells h1 !! 0 = Some s /\ cells h1 !! q = Some s.
Proof.
  assert (H3 : forall p, Avatar ann = Some p -> is_Some (cells sample_heap !! p)).
  { intros p [= <-]. exists "a.png". reflexivity. }
  split; [reflexivity |]. split; [reflexivity |]. split; [exact H3 |].
  destruct (DeepCopy_true_copy sample_heap 0 ann eq_refl eq_refl H3)
    as (c & cu & h1 & Hrun & Hfresh & _ & Hc & Ha & Hsame & _ & Hav & _).
  exists c, cu, h1.
  refine (conj Hrun (conj Hfresh (conj Hc (conj Ha (conj Hsame _))))).
  simpl in Hav. destruct Hav as (q & s & Hq & Hne & _ & Hp0 & Hp & Hqs).
  exists q, s. auto.
Defined.

(** The copy of the sample user, computed. *)
Example DeepCopy_ann :
  DeepCopy (Some 0) sample_heap
  = Done (VUserPtr (Some 3),
          mk_heap [ann; mention_only; User_zero; with_Avatar ann (Some 1)]
                  ["a.png"; "a.png"] (presences sample_heap)).
Proof. vm_compute. reflexivity. Qed.

(** ** Copying over a target that already holds an Avatar *)

(** C3: on a source whose Avatar is nil and a target whose Avatar is set,
    [CopyOverTo] succeeds and transfers the scalar fields, but the target's
    Avatar still points to its old string instead of being unset. *)
Theorem CopyOverTo_nil_Avatar_not_transferred :
  exists h1 src dst,
    CopyOverTo (Some 0) (VUserPtr (Some 1)) stale_heap = Done (None, h1)
    /\ users h1 !! 0 = Some src
    /\ users h1 !! 1 = Some dst
    /\ same_scalars dst src
    /\ Avatar src = None
    /\ Avatar dst = Some 0
    /\ cells h1 !! 0 = Some "old.png".
Proof.
  exists (mk_heap [ann_no_avatar; copied ann_no_avatar bob (Some 0)]
                  ["old.png"] []),
    ann_no_avatar, (copied ann_no_avatar bob (Some 0)).
  split; [vm_compute; reflexivity |].
  split; [reflexivity |].
  split; [reflexivity |].
  split; [apply same_scalars_copied |].
  split; [reflexivity |].
  split; reflexivity.
Qed.

(** X1: what [CopyOverTo] does transfer, between two distinct users with the
    locks available: every scalar field; a non-nil Avatar into a fresh cell
    holding the string that the source's Avatar held before the call, which
    the source's Avatar still holds after it; and with a nil Avatar in the
    source the target keeps the Avatar it had. *)
Lemma CopyOverTo_transfers (h : heap) (a b : addr) (ua ub : User) :
  a <> b ->
  users h !! a = Some ua ->
  users h !! b = Some ub ->
  writer (mu ua) = false ->
  mu ub = {| readers := 0; writer := false |} ->
  (forall p, Avatar ua = Some p -> is_Some (cells h !! p)) ->
  exists h1 t,
    CopyOverTo (Some a) (VUserPtr (Some b)) h = Done (None, h1)
    /\ users h1 !! a = Some ua
    /\ users h1 !! b = Some t
    /\ same_scalars t ua
    /\ mu t = mu ub
    /\ match Avatar ua with
       | None => Avatar t = Avatar ub /\ cells h1 = cells h
       | Some p =>
         exists q s, Avatar t = Some q
                     /\ cells h !! q = None
                     /\ cells h !! p = Some s
                     /\ cells h1 !! p = Some s
                     /\ cells h1 !! q = Some s
       end.
Proof.
  intros Hab Hua Hub Hw Hfree Hav.
  pose proof (lookup_lt_Some _ _ _ Hub) as Hb.
  unfold CopyOverTo.
  rewrite (CopyOverTo_body_run h a b ua ub Hab Hua Hub Hw Hfree Hav).
  cbn [obind]. unfold CopyOverTo_result.
  destruct (Avatar ua) as [p |] eqn:Eav.
  - destruct (Hav p eq_refl) as [s Hs]. rewrite Hs.
    eexists. eexists. split; [reflexivity |]. simpl.
    split; [rewrite list_lookup_insert_ne by congruence; exact Hua |].
    split; [now apply list_lookup_insert_eq |].
    split; [apply same_scalars_copied |].
    split; [reflexivity |].
    exists (length (cells h)), s.
    split; [reflexivity |].
    split; [now apply lookup_ge_None_2 |].
    split; [reflexivity |].
    split; [now apply lookup_app_l_Some |].
    now rewrite list_lookup_middle.
  - eexists. eexists. split; [reflexivity |]. simpl.
    split; [rewrite list_lookup_insert_ne by congruence; exact Hua |].
    split; [now apply list_lookup_insert_eq |].
    split; [apply same_scalars_copied |].
    split; [reflexivity |].
    split; reflexivity.
Qed.

Lemma CopyOverTo_transfers_witness :
  exists h1 t,
    CopyOverTo (Some 0) (VUserPtr (Some 2)) sample_heap = Done (None, h1)
    /\ users h1 !! 2 = Some t
    /\ same_scalars t ann
    /\ exists q s, Avatar t = Some q
                   /\ cells sample_heap !! q = None
                   /\ cells sample_heap !! 0 = Some s
                   /\ cells h1 !! 0 = Some s
                   /\ cells h1 !! q = Some s.
Proof.
  assert (H3 : forall p, Avatar ann = Some p -> is_Some (cells sample_heap !! p)).
  { intros p [= <-]. exists "a.png". reflexivity. }
  assert (Hne : 0 <> 2) by discriminate.
  destruct (CopyOverTo_transfers sample_heap 0 2 ann User_zero
              Hne eq_refl eq_refl eq_refl eq_refl H3)
    as (h1 & t & Hrun & _ & Ht & Hsame & _ & Hav).
  exists h1, t. simpl in Hav. auto.
Defined.

(** ** The store after a copy, looked up *)

Lemma CopyOverTo_run (h : heap) (a b : addr) (ua ub : User) :
  a <> b ->
  users h !! a = Some ua ->
  users h !! b = Some ub ->
  writer (mu ua) = false ->
  mu ub = {| readers := 0; writer := false |} ->
  (forall p, Avatar ua = Some p -> is_Some (cells h !! p)) ->
  CopyOverTo (Some a) (VUserPtr (Some b)) h
  = Done (None, CopyOverTo_result h b ua ub).
Proof.
  intros Hab Hua Hub Hw Hfree Hav. unfold CopyOverTo.
  now rewrite (CopyOverTo_body_run h a b ua ub Hab Hua Hub Hw Hfree Hav).
Qed.

Lemma CopyOverTo_result_src (h : heap) (a b : addr) (ua ub : User) :
  a <> b ->
  users h !! a = Some ua ->
  (forall p, Avatar ua = Some p -> is_Some (cells h !! p)) ->
  users (CopyOverTo_result h b ua ub) !! a = Some ua.
Proof.
  intros Hab Hua Hav. unfold CopyOverTo_result.
  destruct (Avatar ua) as [p |].
  - destruct (Hav p eq_refl) as [s ->]. simpl.
    now rewrite list_lookup_insert_ne by congruence.
  - simpl. now rewrite list_lookup_insert_ne by congruence.
Qed.

Lemma CopyOverTo_result_dst (h : heap) (b : addr) (ua ub : User) :
  users h !! b = Some ub ->
  (forall p, Avatar ua = Some p -> is_Some (cells h !! p)) ->
  exists av, users (CopyOverTo_result h b ua ub) !! b = Some (copied ua ub av).
Proof.
  intros Hub Hav. pose proof (lookup_lt_Some _ _ _ Hub) as Hb.
  unfold CopyOverTo_result.
  destruct (Avatar ua) as [p |].
  - destruct (Hav p eq_refl) as [s ->]. simpl.
    eexists. now apply list_lookup_insert_eq.
  - simpl. eexists. now apply list_lookup_insert_eq.
Qed.

(** ** Lock order and deadlock *)

Lemma run_schedule_solo_head (i : nat) (sched : list nat) (h : heap)
    (prog : list action) (c1 : config) :
  run_schedule (i :: sched) (h, [prog]) = Some c1 ->
  exists x rest h1,
    prog = x :: rest /\ exec x h = Done h1
    /\ run_schedule sched (h1, [rest]) = Some c1.
Proof.
  cbn [run_schedule]. unfold step_thread. cbn [fst snd].
  destruct i as [| i]; cbn.
  - destruct prog as [| x rest]; [discriminate |].
    destruct (exec x h) as [h1 | |] eqn:Ex; try discriminate.
    intros H. exists x, rest, h1. auto.
  - discriminate.
Qed.

(** A program that runs to the end on its own never deadlocks on its own. *)
Lemma solo_deadlock_free (prog : list action) (h h2 : heap) :
  run prog h = Done h2 -> deadlock_free (h, [prog]).
Proof.
  intros Hrun sched. revert prog h Hrun.
  induction sched as [| i sched IH]; intros prog h Hrun c1 Hs.
  - injection Hs as <-. unfold deadlocked. cbn [fst snd forallb existsb].
    destruct prog as [| x rest]; [reflexivity |].
    cbn [run] in Hrun. cbn [blocked finished].
    destruct (exec x h); try discriminate Hrun. reflexivity.
  - destruct (run_schedule_solo_head _ _ _ _ _ Hs) as (x & rest & h1 & -> & Hx & Hs1).
    cbn [run] in Hrun. rewrite Hx in Hrun. cbn [obind] in Hrun.
    exact (IH rest h1 Hrun c1 Hs1).
Qed.

(** C6 (counterexample): with two threads copying in opposite directions,
    the schedule in which each takes its read lock first reaches a state in
    which both wait for ever. *)
Lemma opposite_copies_deadlock : ~ deadlock_free opposite_copies.
Proof.
  intros H.
  pose proof (H [0; 1] _ eq_refl) as Hd.
  vm_compute in Hd. discriminate Hd.
Qed.

(** ** Further facts *)

(** Copying a user over itself never returns: the write lock is requested
    while the same call holds the read lock. *)
Lemma CopyOverTo_self_blocks (h : heap) (a : addr) (u : User) :
  users h !! a = Some u ->
  writer (mu u) = false ->
  CopyOverTo (Some a) (VUserPtr (Some a)) h = Blocks.
Proof.
  intros Hu Hw.
  pose proof (lookup_lt_Some _ _ _ Hu) as Ha.
  unfold CopyOverTo, CopyOverTo_body.
  rewrite run_cons. cbn [exec]. unfold on_mutex at 1.
  rewrite (index_lookup _ _ _ Hu). cbn [obind].
  unfold RLock. rewrite Hw. cbn [obind].
  rewrite run_cons. cbn [exec]. unfold on_mutex at 1.
  unfold store_user at 1. cbn [users].
  rewrite (index_lookup _ _ (with_mu u {| readers := S (readers (mu u)); writer := false |}))
    by now apply list_lookup_insert_eq.
  reflexivity.
Qed.

Lemma CopyOverTo_self_blocks_witness :
  CopyOverTo (Some 0) (VUserPtr (Some 0)) sample_heap = Blocks.
Proof.
  exact (CopyOverTo_self_blocks sample_heap 0 ann eq_refl eq_refl).
Defined.

(** X2: a nil [*User] target passes the type assertion and crashes at its
    lock: the first statement of the body takes the source's read lock and
    succeeds, the second one, the write lock of the nil target, is where the
    call crashes. *)
Lemma CopyOverTo_nil_target_panics (h : heap) (a : addr) (u : User) :
  users h !! a = Some u ->
  writer (mu u) = false ->
  CopyOverTo (Some a) (VUserPtr None) h = Panics
  /\ is_UserPtr (VUserPtr None) = true
  /\ exists h1 rest,
       CopyOverTo_body (Some a) None = ARLock (Some a) :: ALock None :: rest
       /\ exec (ARLock (Some a)) h = Done h1
       /\ users h1 !! a
          = Some (with_mu u {| readers := S (readers (mu u)); writer := false |})
       /\ exec (ALock None) h1 = Panics.
Proof.
  intros Hu Hw.
  pose proof (lookup_lt_Some _ _ _ Hu) as Ha.
  assert (Hfirst : exec (ARLock (Some a)) h
                   = Done (store_user h a
                             (with_mu u {| readers := S (readers (mu u));
                                           writer := false |}))).
  { cbn [exec]. unfold on_mutex.
    rewrite (index_lookup _ _ _ Hu). cbn [obind].
    unfold RLock. rewrite Hw. reflexivity. }
  split.
  { unfold CopyOverTo, CopyOverTo_body.
    rewrite run_cons, Hfirst. cbn [obind]. reflexivity. }
  split; [reflexivity |].
  eexists. eexists.
  split; [reflexivity |].
  split; [exact Hfirst |].
  split; [simpl; now apply list_lookup_insert_eq |].
  reflexivity.
Qed.

Lemma CopyOverTo_nil_target_panics_witness :
  CopyOverTo (Some 0) (VUserPtr None) sample_heap = Panics
  /\ exists h1,
       exec (ARLock (Some 0)) sample_heap = Done h1
       /\ exec (ALock None) h1 = Panics.
Proof.
  destruct (CopyOverTo_nil_target_panics sample_heap 0 ann eq_refl eq_refl)
    as (Hrun & _ & h1 & rest & _ & Hfirst & _ & Hsecond).
  split; [exact Hrun |]. exists h1. split; assumption.
Defined.

(** The flags combine by bitwise OR: Join with Spectate is 6, and Play (32)
    is not set in it. *)
Lemma ActivityFlag_combination :
  Z.lor ActivityFlagJoin ActivityFlagSpectate = 6%Z
  /\ ActivityFlagPlay = 32%Z
  /\ Z.land (Z.lor ActivityFlagJoin ActivityFlagSpectate) ActivityFlagPlay = 0%Z.
Proof. repeat split. Qed.

(** The presentation strings of the user with identifier 123, name Ann and
    discriminator 0001. *)
Lemma User_String_Mention_ann :
  User_String ann = "Ann#0001{123}"
  /\ Mention ann = "<@123>"
  /\ MentionNickname ann = "<@!123>".
Proof. repeat split; vm_compute; reflexivity. Qed.

(** [Valid] holds exactly for identifiers above 0, and a user that is
    written as the empty object is never valid. *)
Lemma Valid_iff (u : User) :
  (Valid u = true <-> (0 < ID u)%Z)
  /\ (Empty (ID u) = true -> Valid u = false).
Proof.
  unfold Valid, Empty. split.
  - apply Z.ltb_lt.
  - intros H. apply Z.eqb_eq in H. rewrite H. reflexivity.
Qed.

(** [Partial] holds exactly when username and discriminator are both
    empty. *)
Lemma Partial_iff (u : User) :
  Partial u = true <-> Username u = "" /\ Discriminator u = "".
Proof.
  unfold Partial. destruct (decide (Username u ++ Discriminator u = "")) as [E | E].
  - split; [intros _ | reflexivity].
    destruct (Username u); [| discriminate E]. now split.
  - split; [discriminate |]. intros [H1 H2]. rewrite H1, H2 in E. now destruct E.
Qed.

(** ** Party sizes, taken together *)

(** X18: no size list makes both [Limit] and [NumberOfPeople] non-zero: a
    two-element list (current and maximum) reports 0 people, a one-element
    list reports limit 0, and with any other length both are 0. *)
Lemma Party_never_both (ap : ActivityParty) :
  (Limit ap = Done 0%Z \/ NumberOfPeople ap = Done 0%Z)
  /\ (length (Size ap) = 2 -> NumberOfPeople ap = Done 0%Z)
  /\ (length (Size ap) = 1 -> Limit ap = Done 0%Z)
  /\ (length (Size ap) <> 1 -> length (Size ap) <> 2 ->
        Limit ap = Done 0%Z /\ NumberOfPeople ap = Done 0%Z).
Proof.
  refine (conj _ (conj _ (conj _ _))).
  - destruct (decide (length (Size ap) = 2)) as [E | E].
    + right. apply NumberOfPeople_other. lia.
    + left. now apply Limit_other.
  - intros E. apply NumberOfPeople_other. lia.
  - intros E. apply Limit_other. lia.
  - intros E1 E2. split; [now apply Limit_other | now apply NumberOfPeople_other].
Qed.

(** ** Activity flags *)

Lemma ActivityFlags_land (f g : Z) :
  f ∈ ActivityFlags -> g ∈ ActivityFlags ->
  Z.land g f = if decide (g = f) then f else 0%Z.
Proof.
  unfold ActivityFlags. rewrite !elem_of_cons, !elem_of_nil.
  intros Hf Hg.
  destruct Hf as [-> | [-> | [-> | [-> | [-> | [-> | []]]]]]];
    destruct Hg as [-> | [-> | [-> | [-> | [-> | [-> | []]]]]]];
    vm_compute; reflexivity.
Qed.

Lemma ActivityFlags_nonzero (f : Z) : f ∈ ActivityFlags -> f <> 0%Z.
Proof.
  unfold ActivityFlags. rewrite !elem_of_cons, !elem_of_nil.
  intros [-> | [-> | [-> | [-> | [-> | [-> | []]]]]]]; discriminate.
Qed.

Lemma ActivityFlags_fold (fs : list Z) (f : Z) :
  (forall g, g ∈ fs -> g ∈ ActivityFlags) ->
  f ∈ ActivityFlags ->
  Z.land (foldr Z.lor 0%Z fs) f = if decide (f ∈ fs) then f else 0%Z.
Proof.
  intros Hfs Hf. induction fs as [| g fs IH].
  - simpl. destruct (decide (f ∈ [])) as [E | E]; [now apply elem_of_nil in E | reflexivity].
  - cbn [foldr]. rewrite Z.land_lor_distr_l.
    rewrite IH by (intros g' Hg'; apply Hfs; now right).
    rewrite (ActivityFlags_land f g Hf) by (apply Hfs; now left).
    destruct (decide (g = f)) as [-> | Hne].
    + destruct (decide (f ∈ f :: fs)) as [_ | E]; [| exfalso; apply E; now left].
      destruct (decide (f ∈ fs)); [apply Z.lor_diag | apply Z.lor_0_r].
    + rewrite Z.lor_0_l.
      destruct (decide (f ∈ fs)) as [E | E];
        destruct (decide (f ∈ g :: fs)) as [E' | E']; try reflexivity.
      * exfalso. apply E'. now right.
      * exfalso. apply elem_of_cons in E' as [-> | E']; [now apply Hne | now apply E].
Qed.

(** X19: the six flags are disjoint single bits, so combining any of them
    with bitwise OR loses nothing: testing the combination for a flag with
    bitwise AND gives the flag itself exactly when it was combined in, and 0
    exactly when it was not. *)
Lemma ActivityFlags_test (fs : list Z) (f : Z) :
  (forall g, g ∈ fs -> g ∈ ActivityFlags) ->
  f ∈ ActivityFlags ->
  (Z.land (foldr Z.lor 0%Z fs) f = f <-> f ∈ fs)
  /\ (Z.land (foldr Z.lor 0%Z fs) f = 0%Z <-> f ∉ fs).
Proof.
  intros Hfs Hf. rewrite (ActivityFlags_fold fs f Hfs Hf).
  pose proof (ActivityFlags_nonzero f Hf) as Hnz.
  destruct (decide (f ∈ fs)) as [E | E]; split; split; intros H;
    try assumption; try reflexivity; try congruence.
Qed.

Lemma ActivityFlags_test_witness :
  (Z.land (foldr Z.lor 0%Z [ActivityFlagJoin; ActivityFlagSpectate])
          ActivityFlagSpectate = ActivityFlagSpectate
   <-> ActivityFlagSpectate ∈ [ActivityFlagJoin; ActivityFlagSpectate])
  /\ (Z.land (foldr Z.lor 0%Z [ActivityFlagJoin; ActivityFlagSpectate])
             ActivityFlagSpectate = 0%Z
      <-> ActivityFlagSpectate ∉ [ActivityFlagJoin; ActivityFlagSpectate]).
Proof.
  apply (ActivityFlags_test [ActivityFlagJoin; ActivityFlagSpectate]
                            ActivityFlagSpectate).
  - intros g Hg. unfold ActivityFlags.
    apply elem_of_cons in Hg as [-> | Hg]; [rewrite !elem_of_cons; tauto |].
    apply elem_of_cons in Hg as [-> | Hg]; [rewrite !elem_of_cons; tauto |].
    now apply elem_of_nil in Hg.
  - unfold ActivityFlags. rewrite !elem_of_cons. tauto.
Defined.

(** ** The shape of the written object *)

Section EmptyObject.

Variable encode_string : string -> string.
Variable Snowflake_MarshalJSON : Snowflake -> string.

Lemma encode_object_cons (m : member) (ms : list member) :
  exists rest,
    encode_object encode_string Snowflake_MarshalJSON (m :: ms)
    = String "{"%char (String "034"%char rest).
Proof.
  unfold encode_object. cbn [map String.concat].
  destruct (map (encode_member encode_string Snowflake_MarshalJSON) ms);
    unfold encode_member, dquote; cbn [String.append]; eexists; reflexivity.
Qed.

(** X13: for a user in the store with a valid Avatar pointer [MarshalJSON]
    always returns bytes and no error, and the bytes are the empty object
    exactly when the identifier is 0: a user with any other identifier is
    never written as the empty object. *)
Lemma MarshalJSON_empty_object_iff (h : heap) (a : addr) (u : User) :
  users h !! a = Some u ->
  (forall p, Avatar u = Some p -> is_Some (cells h !! p)) ->
  (exists bytes,
     MarshalJSON encode_string Snowflake_MarshalJSON (Some a) h
     = Done (bytes, None))
  /\ (MarshalJSON encode_string Snowflake_MarshalJSON (Some a) h
      = Done ("{}", None)
      <-> ID u = 0%Z).
Proof.
  intros Hu Hav. unfold MarshalJSON.
  rewrite (load_user_lookup _ _ _ Hu). cbn [obind]. unfold Empty.
  destruct (Z.eqb_spec (ID u) 0) as [E | E].
  - split; [now exists "{}" | tauto].
  - destruct (encode_Avatar_valid h (Avatar u) Hav) as [v Hv].
    unfold json_Marshal_User, User_members. rewrite Hv. cbn [obind].
    apply Z.eqb_neq in E. rewrite E. cbn [omitempty app].
    match goal with
    | |- context [encode_object _ _ (?m :: ?ms)] =>
      destruct (encode_object_cons m ms) as [rest Hrest]
    end.
    rewrite Hrest. split; [eexists; reflexivity |].
    apply Z.eqb_neq in E. split; [intros [=] | intros HH; contradiction].
Qed.

End EmptyObject.

Lemma MarshalJSON_empty_object_iff_witness :
  (exists bytes,
     MarshalJSON plain_quote quoted_decimal (Some 0) sample_heap
     = Done (bytes, None))
  /\ (MarshalJSON plain_quote quoted_decimal (Some 0) sample_heap
      = Done ("{}", None)
      <-> ID ann = 0%Z).
Proof.
  apply (MarshalJSON_empty_object_iff plain_quote quoted_decimal sample_heap 0 ann).
  - reflexivity.
  - intros p [= <-]. exists "a.png". reflexivity.
Defined.

(** ** Copies seen through the read-only methods *)

Lemma same_scalars_presentation (x y : User) :
  same_scalars x y ->
  Mention x = Mention y
  /\ MentionNickname x = MentionNickname y
  /\ User_String x = User_String y
  /\ Partial x = Partial y
  /\ Valid x = Valid y.
Proof.
  unfold same_scalars, Mention, MentionNickname, User_String, Partial, Valid.
  intros (-> & -> & -> & _). repeat split.
Qed.

Lemma User_members_ext (h1 h : heap) (x y : User) :
  same_scalars x y ->
  encode_Avatar h1 (Avatar x) = encode_Avatar h (Avatar y) ->
  User_members h1 x = User_members h y.
Proof.
  unfold same_scalars, User_members.
  intros (-> & -> & -> & -> & -> & -> & -> & ->) ->. reflexivity.
Qed.

Lemma MarshalJSON_ext (encode_string : string -> string)
    (Snowflake_MarshalJSON : Snowflake -> string)
    (h1 h : heap) (c a : addr) (x y : User) :
  users h1 !! c = Some x ->
  users h !! a = Some y ->
  same_scalars x y ->
  encode_Avatar h1 (Avatar x) = encode_Avatar h (Avatar y) ->
  MarshalJSON encode_string Snowflake_MarshalJSON (Some c) h1
  = MarshalJSON encode_string Snowflake_MarshalJSON (Some a) h.
Proof.
  intros Hx Hy Hs Hav. unfold MarshalJSON.
  rewrite (load_user_lookup _ _ _ Hx), (load_user_lookup _ _ _ Hy).
  cbn [obind]. unfold json_Marshal_User.
  rewrite (User_members_ext h1 h x y Hs Hav).
  destruct Hs as (-> & _). reflexivity.
Qed.

(** The target of a copy, with the encoding of its Avatar. *)
Lemma CopyOverTo_result_target (h : heap) (b : addr) (ua ub : User) :
  users h !! b = Some ub ->
  (forall p, Avatar ua = Some p -> is_Some (cells h !! p)) ->
  exists t,
    users (CopyOverTo_result h b ua ub) !! b = Some t
    /\ same_scalars t ua
    /\ mu t = mu ub
    /\ (Avatar ua <> None \/ Avatar ub = None ->
        encode_Avatar (CopyOverTo_result h b ua ub) (Avatar t)
        = encode_Avatar h (Avatar ua)).
Proof.
  intros Hub Hav. pose proof (lookup_lt_Some _ _ _ Hub) as Hb.
  unfold CopyOverTo_result.
  destruct (Avatar ua) as [p |] eqn:Eav.
  - destruct (Hav p eq_refl) as [s Hs]. rewrite Hs.
    exists (copied ua ub (Some (length (cells h)))).
    split; [now apply list_lookup_insert_eq |].
    split; [apply same_scalars_copied |]. split; [reflexivity |].
    intros _. cbn. unfold load_cell, index. cbn.
    now rewrite list_lookup_middle, Hs.
  - exists (copied ua ub (Avatar ub)).
    split; [now apply list_lookup_insert_eq |].
    split; [apply same_scalars_copied |]. split; [reflexivity |].
    intros [HH | HH]; [now destruct HH |]. cbn. now rewrite HH.
Qed.

(** Cells are only ever added, so an Avatar that was valid reads the same. *)
Lemma CopyOverTo_result_cells (h : heap) (b : addr) (ua ub : User) (p : ptr) :
  (forall q, p = Some q -> is_Some (cells h !! q)) ->
  encode_Avatar (CopyOverTo_result h b ua ub) p = encode_Avatar h p.
Proof.
  intros Hp. unfold CopyOverTo_result.
  destruct (Avatar ua) as [q |]; [| reflexivity].
  destruct (cells h !! q) as [s |] eqn:Es; [| reflexivity].
  destruct p as [r |]; [| reflexivity].
  destruct (Hp r eq_refl) as [s' Hs'].
  cbn. unfold load_cell, index. cbn.
  now rewrite (lookup_app_l_Some _ _ _ _ Hs'), Hs'.
Qed.

Section Observable.

Variable encode_string : string -> string.
Variable Snowflake_MarshalJSON : Snowflake -> string.

(** X8: a deep copy cannot be told from its source by the read-only methods:
    [MarshalJSON] writes the same bytes for the copy as for the source, before
    and after the copy was made, and [Mention], [MentionNickname], [String],
    [Partial] and [Valid] agree. *)
Lemma DeepCopy_observably_equal (h : heap) (a : addr) (u : User) :
  users h !! a = Some u ->
  writer (mu u) = false ->
  (forall p, Avatar u = Some p -> is_Some (cells h !! p)) ->
  exists c cu h1,
    DeepCopy (Some a) h = Done (VUserPtr (Some c), h1)
    /\ users h1 !! c = Some cu
    /\ MarshalJSON encode_string Snowflake_MarshalJSON (Some c) h1
       = MarshalJSON encode_string Snowflake_MarshalJSON (Some a) h
    /\ MarshalJSON encode_string Snowflake_MarshalJSON (Some a) h1
       = MarshalJSON encode_string Snowflake_MarshalJSON (Some a) h
    /\ Mention cu = Mention u
    /\ MentionNickname cu = MentionNickname u
    /\ User_String cu = User_String u
    /\ Partial cu = Partial u
    /\ Valid cu = Valid u.
Proof.
  intros Hu Hw Hav.
  pose proof (lookup_lt_Some _ _ _ Hu) as Ha.
  set (c := length (users h)).
  set (h0 := snd (NewUser h)).
  assert (Hu0 : users h0 !! a = Some u) by (cbn; now apply lookup_app_l_Some).
  assert (Hc0 : users h0 !! c = Some User_zero)
    by (cbn; unfold c; now rewrite list_lookup_middle).
  assert (Hav0 : forall p, Avatar u = Some p -> is_Some (cells h0 !! p)) by exact Hav.
  destruct (CopyOverTo_result_target h0 c u User_zero Hc0 Hav0)
    as (cu & Hcu & Hsame & _ & Henc).
  exists c, cu, (CopyOverTo_result h0 c u User_zero).
  split; [now apply DeepCopy_run |].
  split; [exact Hcu |].
  split.
  { apply (MarshalJSON_ext _ _ _ h c a cu u Hcu Hu Hsame).
    rewrite Henc by (right; reflexivity). reflexivity. }
  split.
  { apply (MarshalJSON_ext _ _ _ h a a u u); try assumption.
    - apply CopyOverTo_result_src; [unfold c; lia | assumption | assumption].
    - unfold same_scalars. repeat split.
    - rewrite (CopyOverTo_result_cells h0 c u User_zero (Avatar u) Hav0).
      reflexivity. }
  exact (same_scalars_presentation cu u Hsame).
Qed.

(** X6: after a copy between two distinct users the target presents as the
    source ([Mention], [MentionNickname], [String], [Partial], [Valid]);
    [MarshalJSON] writes the same bytes for both provided the source has an
    Avatar or the target had none. *)
Lemma CopyOverTo_observably_equal (h : heap) (a b : addr) (ua ub : User) :
  a <> b ->
  users h !! a = Some ua ->
  users h !! b = Some ub ->
  writer (mu ua) = false ->
  mu ub = {| readers := 0; writer := false |} ->
  (forall p, Avatar ua = Some p -> is_Some (cells h !! p)) ->
  exists h1 t,
    CopyOverTo (Some a) (VUserPtr (Some b)) h = Done (None, h1)
    /\ users h1 !! b = Some t
    /\ Mention t = Mention ua
    /\ MentionNickname t = MentionNickname ua
    /\ User_String t = User_String ua
    /\ Partial t = Partial ua
    /\ Valid t = Valid ua
    /\ (Avatar ua <> None \/ Avatar ub = None ->
        MarshalJSON encode_string Snowflake_MarshalJSON (Some b) h1
        = MarshalJSON encode_string Snowflake_MarshalJSON (Some a) h1).
Proof.
  intros Hab Hua Hub Hw Hfree Hav.
  destruct (CopyOverTo_result_target h b ua ub Hub Hav)
    as (t & Ht & Hsame & _ & Henc).
  exists (CopyOverTo_result h b ua ub), t.
  split; [now apply CopyOverTo_run |].
  split; [exact Ht |].
  destruct (same_scalars_presentation t ua Hsame) as (P1 & P2 & P3 & P4 & P5).
  refine (conj P1 (conj P2 (conj P3 (conj P4 (conj P5 _))))).
  intros Hcase.
  apply (MarshalJSON_ext _ _ _ _ b a t ua Ht); [| exact Hsame |].
  - now apply CopyOverTo_result_src.
  - rewrite (Henc Hcase).
    now rewrite (CopyOverTo_result_cells h b ua ub (Avatar ua) Hav).
Qed.

End Observable.

Lemma DeepCopy_observably_equal_witness :
  exists c cu h1,
    DeepCopy (Some 0) sample_heap = Done (VUserPtr (Some c), h1)
    /\ users h1 !! c = Some cu
    /\ MarshalJSON plain_quote quoted_decimal (Some c) h1
       = MarshalJSON plain_quote quoted_decimal (Some 0) sample_heap
    /\ User_String cu = User_String ann.
Proof.
  assert (H3 : forall p, Avatar ann = Some p -> is_Some (cells sample_heap !! p)).
  { intros p [= <-]. exists "a.png". reflexivity. }
  destruct (DeepCopy_observably_equal plain_quote quoted_decimal
              sample_heap 0 ann eq_refl eq_refl H3)
    as (c & cu & h1 & H1 & H2 & H4 & _ & _ & _ & H5 & _).
  exists c, cu, h1. auto.
Defined.

Lemma CopyOverTo_observably_equal_witness :
  exists h1 t,
    CopyOverTo (Some 0) (VUserPtr (Some 2)) sample_heap = Done (None, h1)
    /\ users h1 !! 2 = Some t
    /\ User_String t = User_String ann
    /\ MarshalJSON plain_quote quoted_decimal (Some 2) h1
       = MarshalJSON plain_quote quoted_decimal (Some 0) h1.
Proof.
  assert (H3 : forall p, Avatar ann = Some p -> is_Some (cells sample_heap !! p)).
  { intros p [= <-]. exists "a.png". reflexivity. }
  assert (Hne : 0 <> 2) by discriminate.
  destruct (CopyOverTo_observably_equal plain_quote quoted_decimal
              sample_heap 0 2 ann User_zero Hne eq_refl eq_refl eq_refl eq_refl H3)
    as (h1 & t & H1 & H2 & _ & _ & H5 & _ & _ & H8).
  exists h1, t. split; [exact H1 |]. split; [exact H2 |]. split; [exact H5 |].
  apply H8. left. discriminate.
Defined.

(** ** Construction *)

(** X15: [NewUser] puts the zero user at an address not in use and changes
    nothing else in the store; that user is partial, not valid, holds a free
    lock, and is written as the empty object. *)
Lemma NewUser_fresh (encode_string : string -> string)
    (Snowflake_MarshalJSON : Snowflake -> string) (h : heap) :
  users h !! fst (NewUser h) = None
  /\ users (snd (NewUser h)) !! fst (NewUser h) = Some User_zero
  /\ (forall i u, users h !! i = Some u -> users (snd (NewUser h)) !! i = Some u)
  /\ cells (snd (NewUser h)) = cells h
  /\ presences (snd (NewUser h)) = presences h
  /\ Partial User_zero = true
  /\ Valid User_zero = false
  /\ is_free (mu User_zero) = true
  /\ MarshalJSON encode_string Snowflake_MarshalJSON
       (Some (fst (NewUser h))) (snd (NewUser h))
     = Done ("{}", None).
Proof.
  cbn [NewUser fst snd users cells presences].
  split; [now apply lookup_ge_None_2 |].
  split; [now rewrite list_lookup_middle |].
  split; [intros i u Hi; now apply lookup_app_l_Some |].
  do 5 (split; [reflexivity |]).
  unfold MarshalJSON, load_user, index. cbn [users].
  now rewrite list_lookup_middle.
Qed.

(** ** Messages through the session *)

(** X16: [SendMsg] asks the session for a direct channel with the user's
    identifier first.  If that fails, the error and whatever channel came
    with it are returned and nothing is sent; if it yields a channel, exactly
    one message is sent to that channel's identifier and the session's answer
    is returned as it is; if it yields neither channel nor error the call
    crashes.  [SendMsgString] does the same with a message that carries
    only the content. *)
Lemma SendMsg_calls (S : Type) (session : Session S) (a : addr) (u : User)
    (message : Message) (content : string) (h : heap) (s : S) :
  users h !! a = Some u ->
  (forall channel e s1,
     CreateDM session (ID u) s = ((channel, Some e), s1) ->
     SendMsg (logged session) (Some a) message h (s, [])
     = Done ((channel, None, Some e), (s1, [CallCreateDM (ID u)])))
  /\ (forall ch s1 msg err s2,
        CreateDM session (ID u) s = ((Some ch, None), s1) ->
        session_SendMsg session (channel_ID ch) message s1 = ((msg, err), s2) ->
        SendMsg (logged session) (Some a) message h (s, [])
        = Done ((Some ch, msg, err),
                (s2, [CallCreateDM (ID u);
                      CallSendMsg (channel_ID ch) message])))
  /\ (forall s1,
        CreateDM session (ID u) s = ((None, None), s1) ->
        SendMsg (logged session) (Some a) message h (s, []) = Panics)
  /\ SendMsgString (logged session) (Some a) content h (s, [])
     = SendMsg (logged session) (Some a) {| Content := content |} h (s, []).
Proof.
  intros Hu. unfold SendMsgString, SendMsg.
  rewrite (load_user_lookup _ _ _ Hu). cbn [obind logged CreateDM session_SendMsg fst snd].
  refine (conj _ (conj _ (conj _ _))).
  - intros channel e s1 ->. reflexivity.
  - intros ch s1 msg err s2 -> H2. cbn. rewrite H2. reflexivity.
  - intros s1 ->. reflexivity.
  - reflexivity.
Qed.

Lemma SendMsg_calls_witness :
  SendMsg (logged refusing_session) (Some 0) {| Content := "hi" |}
          sample_heap (tt, [])
  = Done ((None, None, Some (errors_New "cannot open channel")),
          (tt, [CallCreateDM 123%Z]))
  /\ SendMsg (logged recording_session) (Some 0) {| Content := "hi" |}
             sample_heap ([], [])
     = Done ((Some {| channel_ID := 123%Z |}, Some {| Content := "hi" |}, None),
             ([CallCreateDM 123%Z; CallSendMsg 123%Z {| Content := "hi" |}],
              [CallCreateDM 123%Z; CallSendMsg 123%Z {| Content := "hi" |}])).
Proof.
  split.
  - apply (proj1 (SendMsg_calls unit refusing_session 0 ann {| Content := "hi" |}
                    "hi" sample_heap tt eq_refl)).
    reflexivity.
  - apply (proj1 (proj2 (SendMsg_calls _ recording_session 0 ann
                           {| Content := "hi" |} "hi" sample_heap [] eq_refl))
             _ _ _ _ _ eq_refl eq_refl).
Defined.

(** ** Presences *)

(** X17: [UserPresence.Clear] resets the activity pointer of that presence
    and nothing else: its other fields, every other presence, the users and
    the strings stay as they were, and clearing again changes nothing.
    [Update] does not change the status: [String] returns the old status
    after it. *)
Lemma UserPresence_Clear_only_Game (h : heap) (a : addr) (x : UserPresence)
    (status : string) :
  presences h !! a = Some x ->
  exists h1,
    UserPresence_Clear (Some a) h = Done h1
    /\ presences h1 !! a
       = Some {| presence_User := presence_User x; Roles := Roles x;
                 Game := None; GuildID := GuildID x; Nick := Nick x;
                 Status := Status x |}
    /\ (forall i, i <> a -> presences h1 !! i = presences h !! i)
    /\ users h1 = users h
    /\ cells h1 = cells h
    /\ UserPresence_Clear (Some a) h1 = Done h1
    /\ UserPresence_String (Some a) h1 = Done (Status x)
    /\ (forall h2, UserPresence_Update (Some a) status h = Done h2 ->
          UserPresence_String (Some a) h2 = Done (Status x)).
Proof.
  intros Hx. pose proof (lookup_lt_Some _ _ _ Hx) as Ha.
  unfold UserPresence_Clear. rewrite (index_lookup _ _ _ Hx). cbn [obind].
  eexists. split; [reflexivity |]. cbn [presences users cells].
  assert (Hl : <[a := {| presence_User := presence_User x; Roles := Roles x;
                         Game := None; GuildID := GuildID x; Nick := Nick x;
                         Status := Status x |}]> (presences h) !! a
               = Some {| presence_User := presence_User x; Roles := Roles x;
                         Game := None; GuildID := GuildID x; Nick := Nick x;
                         Status := Status x |})
    by now apply list_lookup_insert_eq.
  split; [exact Hl |].
  split; [intros i Hi; now apply list_lookup_insert_ne |].
  split; [reflexivity |]. split; [reflexivity |].
  split.
  { rewrite (index_lookup _ _ _ Hl). cbn.
    now rewrite list_insert_insert_eq. }
  split.
  { unfold UserPresence_String. cbn [presences].
    now rewrite (index_lookup _ _ _ Hl). }
  intros h2 [= <-]. unfold UserPresence_String.
  now rewrite (index_lookup _ _ _ Hx).
Qed.

Lemma UserPresence_Clear_only_Game_witness :
  exists h1,
    UserPresence_Clear (Some 0) sample_heap = Done h1
    /\ Game <$> presences h1 !! 0 = Some None
    /\ users h1 = users sample_heap
    /\ UserPresence_String (Some 0) h1 = Done StatusOnline.
Proof.
  destruct (UserPresence_Clear_only_Game sample_heap 0 _ "idle" eq_refl)
    as (h1 & H1 & H2 & _ & H4 & _ & _ & H7 & _).
  exists h1. split; [exact H1 |]. split; [now rewrite H2 |].
  split; [exact H4 | exact H7].
Defined.

(** ** When a copy returns *)

Lemma on_mutex_lookup op (a : addr) (u : User) (h : heap) :
  users h !! a = Some u ->
  on_mutex op (Some a) h
  = let! m := op (mu u) in Done (store_user h a (with_mu u m)).
Proof. intros Hu. unfold on_mutex. now rewrite (index_lookup _ _ _ Hu). Qed.

Lemma on_mutex_missing op (a : addr) (h : heap) :
  users h !! a = None -> on_mutex op (Some a) h = Panics.
Proof. intros Hu. unfold on_mutex, index. now rewrite Hu. Qed.

Lemma run_body_head (u user : ptr) (h : heap) :
  run (CopyOverTo_body u user) h
  = let! h1 := on_mutex RLock u h in
    let! h2 := on_mutex Lock user h1 in
    run (skipn 2 (CopyOverTo_body u user)) h2.
Proof. reflexivity. Qed.

Lemma is_free_spec (m : RWMutex) :
  is_free m = true <-> m = {| readers := 0; writer := false |}.
Proof.
  unfold is_free. destruct m as [r w]. cbn. split.
  - intros H. apply andb_true_iff in H as [Hw Hr].
    apply Nat.eqb_eq in Hr. destruct w; [discriminate |]. now subst.
  - intros [= -> ->]. reflexivity.
Qed.

Lemma Lock_blocks (m : RWMutex) : is_free m = false -> Lock m = Blocks.
Proof.
  unfold is_free, Lock. destruct (writer m); [reflexivity |].
  cbn. now intros ->.
Qed.

(** The source's lock has a writer: the call waits at [RLock]. *)
Lemma run_body_source_locked (a : addr) (user : ptr) (ua : User) (h : heap) :
  users h !! a = Some ua ->
  writer (mu ua) = true ->
  run (CopyOverTo_body (Some a) user) h = Blocks.
Proof.
  intros Hua Hw. rewrite run_body_head, (on_mutex_lookup _ _ _ _ Hua).
  unfold RLock. now rewrite Hw.
Qed.

(** The target's lock is held by anyone: the call waits at [Lock]. *)
Lemma run_body_target_locked (a b : addr) (ua ub : User) (h : heap) :
  a <> b ->
  users h !! a = Some ua ->
  users h !! b = Some ub ->
  writer (mu ua) = false ->
  is_free (mu ub) = false ->
  run (CopyOverTo_body (Some a) (Some b)) h = Blocks.
Proof.
  intros Hab Hua Hub Hw Hf.
  rewrite run_body_head, (on_mutex_lookup _ _ _ _ Hua).
  unfold RLock. rewrite Hw. cbn [obind].
  rewrite (on_mutex_lookup _ b ub).
  - now rewrite (Lock_blocks _ Hf).
  - cbn. now rewrite list_lookup_insert_ne.
Qed.

(** Source and target are the same user: the call waits at [Lock]. *)
Lemma run_body_self (a : addr) (ua : User) (h : heap) :
  users h !! a = Some ua ->
  writer (mu ua) = false ->
  run (CopyOverTo_body (Some a) (Some a)) h = Blocks.
Proof.
  intros Hua Hw. pose proof (lookup_lt_Some _ _ _ Hua) as Ha.
  rewrite run_body_head, (on_mutex_lookup _ _ _ _ Hua).
  unfold RLock. rewrite Hw. cbn [obind].
  rewrite (on_mutex_lookup _ a (with_mu ua {| readers := S (readers (mu ua));
                                              writer := false |})).
  - reflexivity.
  - cbn. now apply list_lookup_insert_eq.
Qed.

Lemma run_body_target_missing (a b : addr) (ua : User) (h : heap) :
  a <> b ->
  users h !! a = Some ua ->
  users h !! b = None ->
  writer (mu ua) = false ->
  run (CopyOverTo_body (Some a) (Some b)) h = Panics.
Proof.
  intros Hab Hua Hub Hw.
  rewrite run_body_head, (on_mutex_lookup _ _ _ _ Hua).
  unfold RLock. rewrite Hw. cbn [obind].
  rewrite on_mutex_missing; [reflexivity |].
  cbn. now rewrite list_lookup_insert_ne.
Qed.

Lemma run_body_target_nil (a : addr) (ua : User) (h : heap) :
  users h !! a = Some ua ->
  writer (mu ua) = false ->
  run (CopyOverTo_body (Some a) None) h = Panics.
Proof.
  intros Hua Hw. rewrite run_body_head, (on_mutex_lookup _ _ _ _ Hua).
  unfold RLock. now rewrite Hw.
Qed.

Lemma exec_copy_avatar_dangling (l : list User) (a b : addr) (ta tb : User)
    (cs : list string) (ps : list UserPresence) (p : addr) :
  a <> b -> a < length l ->
  Avatar ta = Some p ->
  cs !! p = None ->
  exec (ACopyAvatar (Some b) (Some a)) (mk_heap (two l a ta b tb) cs ps)
  = Panics.
Proof.
  intros Hab Ha Hav Hp. unfold mk_heap. cbn [exec load_user users].
  rewrite (index_lookup _ _ _ (two_lookup_src l a b Hab Ha ta tb)).
  cbn [obind]. rewrite Hav. unfold load_cell, index. cbn [cells].
  now rewrite Hp.
Qed.

Lemma run_body_dangling (h : heap) (a b : addr) (ua ub : User) (p : addr) :
  a <> b ->
  users h !! a = Some ua ->
  users h !! b = Some ub ->
  writer (mu ua) = false ->
  mu ub = {| readers := 0; writer := false |} ->
  Avatar ua = Some p ->
  cells h !! p = None ->
  run (CopyOverTo_body (Some a) (Some b)) h = Panics.
Proof.
  intros Hab Hua Hub Hw Hfree Hav Hp.
  pose proof (lookup_lt_Some _ _ _ Hua) as Ha.
  pose proof (lookup_lt_Some _ _ _ Hub) as Hb.
  destruct h as [us cs ps]. simpl in Hua, Hub, Hp, Ha, Hb.
  change {| users := us; cells := cs; presences := ps |} with (mk_heap us cs ps).
  assert (Hinit : us = two us a ua b ub).
  { unfold two. now rewrite (list_insert_id us a ua Hua), (list_insert_id us b ub Hub). }
  rewrite Hinit at 1.
  unfold CopyOverTo_body.
  rewrite run_cons, exec_RLock_src by assumption. cbn [obind].
  rewrite run_cons, exec_Lock_dst by assumption. cbn [obind].
  do 8 (rewrite run_cons, exec_assign by assumption; cbn [obind]).
  rewrite run_cons, (exec_copy_avatar_dangling us a b _ _ cs ps p)
    by (simpl; assumption).
  reflexivity.
Qed.

(** Everything that must hold for the body to run to its end, and the store
    it leaves. *)
Lemma run_body_Done_inv (u user : ptr) (h h1 : heap) :
  run (CopyOverTo_body u user) h = Done h1 ->
  exists a b ua ub,
    u = Some a /\ user = Some b /\ a <> b
    /\ users h !! a = Some ua
    /\ users h !! b = Some ub
    /\ writer (mu ua) = false
    /\ mu ub = {| readers := 0; writer := false |}
    /\ (forall p, Avatar ua = Some p -> is_Some (cells h !! p))
    /\ h1 = CopyOverTo_result h b ua ub.
Proof.
  intros Hrun.
  destruct u as [a |]; [| discriminate Hrun].
  destruct (users h !! a) as [ua |] eqn:Hua;
    [| rewrite run_body_head, (on_mutex_missing _ _ _ Hua) in Hrun; discriminate Hrun].
  destruct (writer (mu ua)) eqn:Hw;
    [rewrite (run_body_source_locked a user ua h Hua Hw) in Hrun; discriminate Hrun |].
  destruct user as [b |];
    [| rewrite (run_body_target_nil a ua h Hua Hw) in Hrun; discriminate Hrun].
  destruct (decide (a = b)) as [-> | Hab];
    [rewrite (run_body_self b ua h Hua Hw) in Hrun; discriminate Hrun |].
  destruct (users h !! b) as [ub |] eqn:Hub;
    [| rewrite (run_body_target_missing a b ua h Hab Hua Hub Hw) in Hrun;
       discriminate Hrun].
  destruct (is_free (mu ub)) eqn:Hf;
    [| rewrite (run_body_target_locked a b ua ub h Hab Hua Hub Hw Hf) in Hrun;
       discriminate Hrun].
  apply is_free_spec in Hf.
  assert (Hav : forall p, Avatar ua = Some p -> is_Some (cells h !! p)).
  { intros p Hp. destruct (cells h !! p) as [s |] eqn:Hs; [now exists s |].
    rewrite (run_body_dangling h a b ua ub p Hab Hua Hub Hw Hf Hp Hs) in Hrun.
    discriminate Hrun. }
  rewrite (CopyOverTo_body_run h a b ua ub Hab Hua Hub Hw Hf Hav) in Hrun.
  injection Hrun as <-.
  exists a, b, ua, ub. repeat split; assumption.
Qed.

Lemma CopyOverTo_result_locks (h : heap) (b : addr) (ua ub : User) :
  users h !! b = Some ub ->
  locks (CopyOverTo_result h b ua ub) = locks h.
Proof.
  intros Hub.
  assert (Hl : forall av, mu <$> <[b := copied ua ub av]> (users h) = mu <$> users h).
  { intros av. rewrite list_fmap_insert. apply list_insert_id.
    rewrite list_lookup_fmap, Hub. reflexivity. }
  unfold CopyOverTo_result, locks.
  destruct (Avatar ua) as [p |]; [destruct (cells h !! p) |]; cbn [users mk_heap];
    auto.
Qed.

Lemma CopyOverTo_result_cells_grow (h : heap) (b : addr) (ua ub : User) :
  cells (CopyOverTo_result h b ua ub) = cells h
  \/ exists p s, Avatar ua = Some p /\ cells h !! p = Some s
                 /\ cells (CopyOverTo_result h b ua ub) = (cells h ++ [s])%list.
Proof.
  unfold CopyOverTo_result.
  destruct (Avatar ua) as [p |]; [| now left].
  destruct (cells h !! p) as [s |] eqn:Hs; [| now left].
  right. exists p, s. auto.
Qed.

Lemma CopyOverTo_result_presences (h : heap) (b : addr) (ua ub : User) :
  presences (CopyOverTo_result h b ua ub) = presences h.
Proof.
  unfold CopyOverTo_result.
  destruct (Avatar ua) as [p |]; [destruct (cells h !! p) |]; reflexivity.
Qed.

Lemma CopyOverTo_result_others (h : heap) (b : addr) (ua ub : User) (i : addr) :
  i <> b ->
  users (CopyOverTo_result h b ua ub) !! i = users h !! i.
Proof.
  intros Hi. unfold CopyOverTo_result.
  destruct (Avatar ua) as [p |]; [destruct (cells h !! p) |]; cbn [users mk_heap];
    try reflexivity; now apply list_lookup_insert_ne.
Qed.

(** X5: whenever [CopyOverTo] returns, with or without an error, every
    lock in the store is in the state it was in before the call; no user
    other than the target has changed, the source included; no existing
    string has changed and at most one was added; the presences are
    untouched. *)
Lemma CopyOverTo_frame (u : ptr) (other : value) (h h1 : heap)
    (e : option error) :
  CopyOverTo u other h = Done (e, h1) ->
  locks h1 = locks h
  /\ (forall i, other <> VUserPtr (Some i) -> users h1 !! i = users h !! i)
  /\ (forall a, u = Some a -> users h1 !! a = users h !! a)
  /\ (forall i s, cells h !! i = Some s -> cells h1 !! i = Some s)
  /\ length (cells h1) <= S (length (cells h))
  /\ presences h1 = presences h.
Proof.
  intros Hrun. unfold CopyOverTo in Hrun.
  destruct other as [| user | | | |];
    try (injection Hrun as <- <-; repeat split; auto).
  destruct (run (CopyOverTo_body u user) h) as [h2 | |] eqn:Hbody;
    cbn [obind] in Hrun; try discriminate Hrun.
  injection Hrun as <- <-.
  destruct (run_body_Done_inv u user h h2 Hbody)
    as (a & b & ua & ub & -> & -> & Hab & Hua & Hub & Hw & Hf & Hav & ->).
  split; [now apply CopyOverTo_result_locks |].
  split.
  { intros i Hi. apply CopyOverTo_result_others. congruence. }
  split.
  { intros a' [= <-]. now apply CopyOverTo_result_others. }
  destruct (CopyOverTo_result_cells_grow h b ua ub) as [Hc | (p & s & _ & _ & Hc)];
    rewrite Hc.
  - split; [auto |]. split; [lia | apply CopyOverTo_result_presences].
  - split; [intros i s' Hi; now apply lookup_app_l_Some |].
    split; [rewrite length_app; simpl; lia | apply CopyOverTo_result_presences].
Qed.

Lemma CopyOverTo_frame_witness :
  exists h1,
    CopyOverTo (Some 0) (VUserPtr (Some 2)) sample_heap = Done (None, h1)
    /\ locks h1 = locks sample_heap
    /\ users h1 !! 1 = users sample_heap !! 1
    /\ users h1 !! 0 = users sample_heap !! 0
    /\ presences h1 = presences sample_heap.
Proof.
  eexists. split; [vm_compute; reflexivity |].
  match goal with
  | |- locks ?h1 = _ /\ _ =>
    assert (Hrun : CopyOverTo (Some 0) (VUserPtr (Some 2)) sample_heap
                   = Done (None, h1)) by (vm_compute; reflexivity);
    destruct (CopyOverTo_frame _ _ _ _ _ Hrun) as (H1 & H2 & H3 & _ & _ & H6)
  end.
  split; [exact H1 |].
  split; [apply H2; discriminate |].
  split; [now apply H3 | exact H6].
Defined.

Lemma writer_false_iff (m : RWMutex) :
  writer m = false <-> writer_holds m = false /\ writer_waits m = false.
Proof.
  unfold writer_holds, writer_waits.
  destruct (writer m), (readers m =? 0)%nat; simpl; intuition congruence.
Qed.

Lemma writer_true_iff (m : RWMutex) :
  writer m = true <-> writer_holds m = true \/ writer_waits m = true.
Proof.
  unfold writer_holds, writer_waits.
  destruct (writer m), (readers m =? 0)%nat; simpl; intuition congruence.
Qed.

(** X3: with a [*User] target, [CopyOverTo] never returns an error, and it
    returns at all exactly when source and target are two different users of
    the store, no writer holds the source's lock and none waits for it
    behind readers, the target's lock has neither a reader nor a writer
    inside, and the source's Avatar pointer is valid. *)
Lemma CopyOverTo_returns_iff (u user : ptr) (h : heap) :
  (forall e h1, CopyOverTo u (VUserPtr user) h = Done (e, h1) -> e = None)
  /\ ((exists h1, CopyOverTo u (VUserPtr user) h = Done (None, h1))
      <-> exists a b ua ub,
            u = Some a /\ user = Some b /\ a <> b
            /\ users h !! a = Some ua
            /\ users h !! b = Some ub
            /\ (writer_holds (mu ua) = false /\ writer_waits (mu ua) = false)
            /\ is_free (mu ub) = true
            /\ (forall p, Avatar ua = Some p -> is_Some (cells h !! p))).
Proof.
  setoid_rewrite <- writer_false_iff.
  unfold CopyOverTo. split; [| split].
  - intros e h1 H.
    destruct (run (CopyOverTo_body u user) h); cbn [obind] in H;
      try discriminate H. now injection H as <- _.
  - intros [h1 H].
    destruct (run (CopyOverTo_body u user) h) as [h2 | |] eqn:Hbody;
      cbn [obind] in H; try discriminate H.
    destruct (run_body_Done_inv u user h h2 Hbody)
      as (a & b & ua & ub & -> & -> & Hab & Hua & Hub & Hw & Hf & Hav & _).
    exists a, b, ua, ub. apply is_free_spec in Hf. repeat split; assumption.
  - intros (a & b & ua & ub & -> & -> & Hab & Hua & Hub & Hw & Hf & Hav).
    apply is_free_spec in Hf.
    rewrite (CopyOverTo_body_run h a b ua ub Hab Hua Hub Hw Hf Hav).
    eexists. reflexivity.
Qed.

(** X4: [CopyOverTo] into a [*User] target waits for ever exactly when a
    writer holds the source's lock, or a writer waits for the source's lock
    behind the readers inside it, or the target is the source itself, or
    a reader or a writer is inside the target's lock. *)
Lemma CopyOverTo_blocks_iff (a : addr) (user : ptr) (ua : User) (h : heap) :
  users h !! a = Some ua ->
  CopyOverTo (Some a) (VUserPtr user) h = Blocks
  <-> (writer_holds (mu ua) = true \/ writer_waits (mu ua) = true)
      \/ user = Some a
      \/ exists b ub, user = Some b /\ users h !! b = Some ub
                      /\ is_free (mu ub) = false.
Proof.
  intros Hua. rewrite <- writer_true_iff.
  assert (Hcopy : CopyOverTo (Some a) (VUserPtr user) h = Blocks
                  <-> run (CopyOverTo_body (Some a) user) h = Blocks).
  { unfold CopyOverTo.
    destruct (run (CopyOverTo_body (Some a) user) h); cbn [obind];
      split; intros H; try discriminate H; reflexivity. }
  rewrite Hcopy. clear Hcopy. split.
  - intros Hb.
    destruct (writer (mu ua)) eqn:Hw; [now left | right].
    destruct user as [b |];
      [| rewrite (run_body_target_nil a ua h Hua Hw) in Hb; discriminate Hb].
    destruct (decide (a = b)) as [-> | Hab]; [now left | right].
    destruct (users h !! b) as [ub |] eqn:Hub;
      [| rewrite (run_body_target_missing a b ua h Hab Hua Hub Hw) in Hb;
         discriminate Hb].
    exists b, ub. split; [reflexivity |]. split; [exact Hub |].
    destruct (is_free (mu ub)) eqn:Hf; [| reflexivity].
    apply is_free_spec in Hf.
    destruct (Avatar ua) as [p |] eqn:Eav.
    + destruct (cells h !! p) as [s |] eqn:Hs.
      * rewrite (CopyOverTo_body_run h a b ua ub Hab Hua Hub Hw Hf) in Hb;
          [discriminate Hb |].
        intros q Hq. rewrite Eav in Hq. injection Hq as <-. now exists s.
      * rewrite (run_body_dangling h a b ua ub p Hab Hua Hub Hw Hf Eav Hs) in Hb.
        discriminate Hb.
    + rewrite (CopyOverTo_body_run h a b ua ub Hab Hua Hub Hw Hf) in Hb;
        [discriminate Hb |].
      intros q Hq. rewrite Eav in Hq. discriminate Hq.
  - intros [Hw | [-> | (b & ub & -> & Hub & Hf)]].
    + now apply (run_body_source_locked a user ua h).
    + destruct (writer (mu ua)) eqn:Hw.
      * now apply (run_body_source_locked a _ ua h).
      * now apply run_body_self with (ua := ua).
    + destruct (writer (mu ua)) eqn:Hw.
      * now apply (run_body_source_locked a _ ua h).
      * destruct (decide (a = b)) as [-> | Hab].
        -- now apply run_body_self with (ua := ua).
        -- now apply (run_body_target_locked a b ua ub h).
Qed.

Lemma CopyOverTo_returns_iff_witness :
  (exists h1, CopyOverTo (Some 0) (VUserPtr (Some 2)) sample_heap = Done (None, h1))
  /\ ~ (exists h1, CopyOverTo (Some 0) (VUserPtr (Some 2)) awaited_heap
                   = Done (None, h1)).
Proof.
  split.
  - apply (proj2 (CopyOverTo_returns_iff (Some 0) (Some 2) sample_heap)).
    exists 0, 2, ann, User_zero.
    repeat split; try reflexivity; try discriminate.
    intros p [= <-]. exists "a.png". reflexivity.
  - intros H.
    apply (proj2 (CopyOverTo_returns_iff (Some 0) (Some 2) awaited_heap)) in H.
    destruct H as (a & b & ua & ub & [= <-] & _ & _ & Hua & _ & [_ Hw] & _).
    injection Hua as <-. discriminate Hw.
Defined.

(** The source's lock has one reader inside and a writer waiting behind it:
    the copy waits in its first statement. *)
Lemma CopyOverTo_blocks_iff_witness :
  users awaited_heap !! 0 = Some (with_mu ann {| readers := 1; writer := true |})
  /\ writer_waits {| readers := 1; writer := true |} = true
  /\ CopyOverTo (Some 0) (VUserPtr (Some 2)) awaited_heap = Blocks.
Proof.
  split; [reflexivity |]. split; [reflexivity |].
  apply (CopyOverTo_blocks_iff 0 (Some 2) _ awaited_heap eq_refl).
  left. right. reflexivity.
Defined.

(** ** When a deep copy returns *)

Lemma insert_snoc {A : Type} (l : list A) (x y : A) :
  <[length l := y]> (l ++ [x])%list = (l ++ [y])%list.
Proof.
  replace (length l) with (length l + 0) at 1 by lia.
  now rewrite insert_app_r.
Qed.

Lemma DeepCopy_result (h : heap) (u : User) :
  (forall p, Avatar u = Some p -> is_Some (cells h !! p)) ->
  exists cu,
    users (CopyOverTo_result (snd (NewUser h)) (length (users h)) u User_zero)
    = (users h ++ [cu])%list
    /\ same_scalars cu u
    /\ mu cu = free.
Proof.
  intros Hav. unfold CopyOverTo_result. cbn [NewUser snd cells users].
  destruct (Avatar u) as [p |].
  - destruct (Hav p eq_refl) as [s ->]. cbn [users mk_heap].
    rewrite insert_snoc. eexists. split; [reflexivity |].
    split; [apply same_scalars_copied | reflexivity].
  - cbn [users mk_heap]. rewrite insert_snoc. eexists. split; [reflexivity |].
    split; [apply same_scalars_copied | reflexivity].
Qed.

(** X7: [DeepCopy] of a user of the store waits for ever when a writer
    holds that user's lock or waits for it behind readers, and returns
    otherwise; it never crashes.  When it
    returns, the store has exactly one more user, the copy, placed after the
    existing ones, which are all as they were; the copy's lock is free and
    every other lock is in the state it was in; the presences are untouched
    and at most one string was added. *)
Lemma DeepCopy_outcome (h : heap) (a : addr) (u : User) :
  users h !! a = Some u ->
  (forall p, Avatar u = Some p -> is_Some (cells h !! p)) ->
  (writer_holds (mu u) = true \/ writer_waits (mu u) = true ->
   DeepCopy (Some a) h = Blocks)
  /\ (writer_holds (mu u) = false /\ writer_waits (mu u) = false ->
      exists cu h1,
        DeepCopy (Some a) h = Done (VUserPtr (Some (length (users h))), h1)
        /\ users h1 = (users h ++ [cu])%list
        /\ same_scalars cu u
        /\ locks h1 = (locks h ++ [free])%list
        /\ presences h1 = presences h
        /\ (cells h1 = cells h \/ exists s, cells h1 = (cells h ++ [s])%list)).
Proof.
  intros Hu Hav. rewrite <- writer_true_iff, <- writer_false_iff. split.
  - intros Hw. unfold DeepCopy, CopyOverTo. cbn [NewUser].
    rewrite (run_body_source_locked a _ u); [reflexivity | | exact Hw].
    cbn [users]. now apply lookup_app_l_Some.
  - intros Hw.
    destruct (DeepCopy_result h u Hav) as (cu & Hus & Hsame & Hmu).
    exists cu, (CopyOverTo_result (snd (NewUser h)) (length (users h)) u User_zero).
    split; [now apply DeepCopy_run |].
    split; [exact Hus |]. split; [exact Hsame |].
    split.
    { unfold locks. rewrite Hus, fmap_app. cbn. now rewrite Hmu. }
    split; [now rewrite CopyOverTo_result_presences |].
    destruct (CopyOverTo_result_cells_grow (snd (NewUser h)) (length (users h))
                u User_zero) as [Hc | (p & s & _ & _ & Hc)].
    + left. exact Hc.
    + right. exists s. exact Hc.
Qed.

Lemma DeepCopy_outcome_witness :
  (exists cu h1,
     DeepCopy (Some 0) sample_heap = Done (VUserPtr (Some 3), h1)
     /\ users h1 = (users sample_heap ++ [cu])%list
     /\ locks h1 = (locks sample_heap ++ [free])%list)
  /\ DeepCopy (Some 0) awaited_heap = Blocks.
Proof.
  assert (H3 : forall p, Avatar ann = Some p -> is_Some (cells sample_heap !! p)).
  { intros p [= <-]. exists "a.png". reflexivity. }
  split.
  - destruct (proj2 (DeepCopy_outcome sample_heap 0 ann eq_refl H3)
                (conj eq_refl eq_refl))
      as (cu & h1 & H1 & H2 & _ & H4 & _).
    exists cu, h1. auto.
  - apply (proj1 (DeepCopy_outcome awaited_heap 0 _ eq_refl H3)).
    right. reflexivity.
Defined.

(** ** Concurrent copies out of one source *)

Lemma locks_store_user (h : heap) (a : addr) (u : User) :
  locks (store_user h a u) = <[a := mu u]> (locks h).
Proof. unfold locks. cbn. apply list_fmap_insert. Qed.

Lemma locks_lookup (h : heap) (a : addr) (u : User) :
  users h !! a = Some u -> locks h !! a = Some (mu u).
Proof. intros H. unfold locks. now rewrite list_lookup_fmap, H. Qed.

Lemma on_mutex_Done_inv op (p : ptr) (h h1 : heap) :
  on_mutex op p h = Done h1 ->
  exists a m m1,
    p = Some a /\ locks h !! a = Some m /\ op m = Done m1
    /\ locks h1 = <[a := m1]> (locks h).
Proof.
  unfold on_mutex. destruct p as [a |]; [| discriminate].
  unfold index. destruct (users h !! a) as [u |] eqn:Hu; [| discriminate].
  cbn [obind]. destruct (op (mu u)) as [m1 | |] eqn:Hop; try discriminate.
  cbn [obind]. intros [= <-].
  exists a, (mu u), m1. split; [reflexivity |].
  split; [now apply locks_lookup |]. split; [exact Hop |].
  apply locks_store_user.
Qed.

Lemma update_user_locks (f : User -> User) (p : ptr) (h h1 : heap) :
  (forall t, mu (f t) = mu t) ->
  update_user f p h = Done h1 ->
  locks h1 = locks h.
Proof.
  intros Hf. unfold update_user. destruct p as [a |]; [| discriminate].
  unfold index. destruct (users h !! a) as [u |] eqn:Hu; [| discriminate].
  cbn [obind]. intros [= <-]. rewrite locks_store_user, Hf.
  apply list_insert_id. now apply locks_lookup.
Qed.

(** What a statement that ran did to the locks. *)
Lemma exec_locks (x : action) (h h1 : heap) :
  exec x h = Done h1 ->
  match x with
  | ARLock p =>
    exists a m, p = Some a /\ locks h !! a = Some m /\ writer m = false
                /\ locks h1 = <[a := {| readers := S (readers m);
                                        writer := false |}]> (locks h)
  | ALock p =>
    exists a m, p = Some a /\ locks h !! a = Some m /\ is_free m = true
                /\ locks h1 = <[a := {| readers := 0; writer := true |}]> (locks h)
  | ARUnlock p =>
    exists a m r, p = Some a /\ locks h !! a = Some m /\ readers m = S r
                  /\ locks h1 = <[a := {| readers := r; writer := writer m |}]>
                                  (locks h)
  | AUnlock p =>
    exists a m, p = Some a /\ locks h !! a = Some m /\ writer m = true
                /\ locks h1 = <[a := {| readers := readers m;
                                        writer := false |}]> (locks h)
  | AAssign _ _ _ | ACopyAvatar _ _ => locks h1 = locks h
  end.
Proof.
  intros Hx. destruct x as [p | p | p | p | f dst src | dst src]; cbn [exec] in Hx.
  - destruct (on_mutex_Done_inv _ _ _ _ Hx) as (a & m & m1 & -> & Hm & Hop & Hl).
    exists a, m. unfold RLock in Hop. destruct (writer m); [discriminate |].
    injection Hop as <-. auto.
  - destruct (on_mutex_Done_inv _ _ _ _ Hx) as (a & m & m1 & -> & Hm & Hop & Hl).
    exists a, m. unfold Lock in Hop.
    destruct (writer m || negb (readers m =? 0)%nat) eqn:E; [discriminate |].
    injection Hop as <-. apply orb_false_iff in E as [Ew Er].
    apply negb_false_iff, Nat.eqb_eq in Er. rewrite Er in Hl.
    repeat split; auto. unfold is_free. rewrite Ew, Er. reflexivity.
  - destruct (on_mutex_Done_inv _ _ _ _ Hx) as (a & m & m1 & -> & Hm & Hop & Hl).
    unfold RUnlock in Hop. destruct (readers m) as [| r] eqn:Er; [discriminate |].
    injection Hop as <-. exists a, m, r. auto.
  - destruct (on_mutex_Done_inv _ _ _ _ Hx) as (a & m & m1 & -> & Hm & Hop & Hl).
    unfold Unlock in Hop. destruct (writer m) eqn:Ew; [| discriminate].
    injection Hop as <-. exists a, m. auto.
  - destruct (load_user h src) as [s | |]; cbn [obind] in Hx; try discriminate.
    assert (Hf : forall t, mu (assign_field f t s) = mu t)
      by (intros t; now destruct f).
    apply (update_user_locks _ _ _ _ Hf Hx).
  - destruct (load_user h src) as [s | |]; cbn [obind] in Hx; try discriminate.
    destruct (Avatar s) as [q |]; [| now injection Hx as <-].
    destruct (load_cell h q) as [avatar | |]; cbn [obind] in Hx; try discriminate.
    cbn [alloc_cell] in Hx.
    apply (update_user_locks
             (fun t => with_Avatar t (Some (length (cells h)))) _ _ _
             (fun t => eq_refl) Hx).
Qed.

Lemma index_not_Blocks {A : Type} (l : list A) (i : nat) : index l i <> Blocks.
Proof. unfold index. destruct (l !! i); discriminate. Qed.

Lemma load_user_not_Blocks (h : heap) (p : ptr) : load_user h p <> Blocks.
Proof. destruct p; cbn; [apply index_not_Blocks | discriminate]. Qed.

Lemma update_user_not_Blocks (f : User -> User) (p : ptr) (h : heap) :
  update_user f p h <> Blocks.
Proof.
  unfold update_user, index. destruct p as [a |]; [| discriminate].
  destruct (users h !! a); discriminate.
Qed.

(** Only the two acquiring statements can wait, and only on a held lock. *)
Lemma exec_Blocks_inv (x : action) (h : heap) :
  exec x h = Blocks ->
  (exists a m, x = ARLock (Some a) /\ locks h !! a = Some m /\ writer m = true)
  \/ (exists a m, x = ALock (Some a) /\ locks h !! a = Some m
                  /\ is_free m = false).
Proof.
  destruct x as [p | p | p | p | f dst src | dst src]; cbn [exec]; unfold on_mutex.
  - destruct p as [a |]; [| discriminate]. unfold index.
    destruct (users h !! a) as [u |] eqn:Hu; [| discriminate]. cbn [obind].
    unfold RLock. destruct (writer (mu u)) eqn:Hw; [| discriminate].
    intros _. left. exists a, (mu u). split; [reflexivity |].
    split; [now apply locks_lookup | exact Hw].
  - destruct p as [a |]; [| discriminate]. unfold index.
    destruct (users h !! a) as [u |] eqn:Hu; [| discriminate]. cbn [obind].
    destruct (is_free (mu u)) eqn:Hf.
    + apply is_free_spec in Hf. rewrite Hf. discriminate.
    + intros _. right. exists a, (mu u). split; [reflexivity |].
      split; [now apply locks_lookup | exact Hf].
  - destruct p as [a |]; [| discriminate]. unfold index.
    destruct (users h !! a) as [u |]; [| discriminate]. cbn [obind].
    unfold RUnlock. destruct (readers (mu u)); discriminate.
  - destruct p as [a |]; [| discriminate]. unfold index.
    destruct (users h !! a) as [u |]; [| discriminate]. cbn [obind].
    unfold Unlock. destruct (writer (mu u)); discriminate.
  - intros H. exfalso.
    destruct (load_user h src) as [s | |] eqn:Hs; cbn [obind] in H;
      try discriminate H.
    + now apply update_user_not_Blocks in H.
    + now apply load_user_not_Blocks in Hs.
  - intros H. exfalso.
    destruct (load_user h src) as [s | |] eqn:Hs; cbn [obind] in H;
      try discriminate H.
    + destruct (Avatar s) as [q |]; [| discriminate H].
      destruct (load_cell h q) as [avatar | |] eqn:Hq; cbn [obind] in H;
        try discriminate H.
      * cbn [alloc_cell] in H. now apply update_user_not_Blocks in H.
      * now apply index_not_Blocks in Hq.
    + now apply load_user_not_Blocks in Hs.
Qed.

Ltac pick_case :=
  first [ split; [lia | reflexivity] | left; pick_case | right; pick_case ].

(** Where a thread is in its copy, from what it has left to run. *)
Lemma body_suffix_head (a t : addr) (k : nat) (x : action) (rest : list action) :
  x :: rest = skipn k (CopyOverTo_body (Some a) (Some t)) ->
  rest = skipn (S k) (CopyOverTo_body (Some a) (Some t))
  /\ ((k = 0 /\ x = ARLock (Some a))
      \/ (k = 1 /\ x = ALock (Some t))
      \/ (2 <= k <= 10 /\ is_lock_action x = false)
      \/ (k = 11 /\ x = ARUnlock (Some a))
      \/ (k = 12 /\ x = AUnlock (Some t))).
Proof.
  intros H.
  do 13 (destruct k as [| k];
         [cbn in H; injection H as -> ->; split; [reflexivity | pick_case] |]).
  destruct k; discriminate H.
Qed.

Lemma body_suffix_holding (a t : addr) (k : nat) :
  2 <= k <= 12 ->
  exists y rest,
    skipn k (CopyOverTo_body (Some a) (Some t)) = y :: rest
    /\ is_acquire y = false.
Proof.
  intros Hk.
  do 2 (destruct k as [| k]; [lia |]).
  do 11 (destruct k as [| k]; [eexists; eexists; split; reflexivity |]).
  lia.
Qed.

Lemma body_suffix_inj (a t x : addr) (k k0 : nat) :
  k0 <= 12 ->
  skipn k (CopyOverTo_body (Some a) (Some t))
  = skipn k0 (CopyOverTo_body (Some a) (Some x)) ->
  k = k0 /\ t = x.
Proof.
  intros Hk0 H.
  assert (Hk : k = k0).
  { apply (f_equal length) in H. rewrite !length_drop in H. cbn in H. lia. }
  subst k0. split; [reflexivity |].
  do 13 (destruct k as [| k];
         [apply (f_equal last) in H; cbn in H; congruence |]).
  lia.
Qed.

Lemma lookup_insert_cases {A : Type} (l : list A) (p i : nat) (x y : A) :
  <[p := x]> l !! i = Some y -> (i = p /\ y = x) \/ l !! i = Some y.
Proof.
  intros H. apply list_lookup_insert_Some in H as [(-> & -> & _) | (_ & H)]; auto.
Qed.

(** A holder stays a holder when thread [i] takes a step, unless that step
    was the holder's own [Unlock]. *)
Lemma holder_after_step (ts : list (list action)) (i : nat) (a t x0 : addr)
    (k : nat) (rest : list action) :
  ts !! i = Some (skipn k (CopyOverTo_body (Some a) (Some t))) ->
  rest = skipn (S k) (CopyOverTo_body (Some a) (Some t)) ->
  k <> 12 \/ x0 <> t ->
  (exists i0 k0, 2 <= k0 <= 12
     /\ ts !! i0 = Some (skipn k0 (CopyOverTo_body (Some a) (Some x0)))) ->
  exists i0 k0, 2 <= k0 <= 12
    /\ <[i := rest]> ts !! i0
       = Some (skipn k0 (CopyOverTo_body (Some a) (Some x0))).
Proof.
  intros Hi -> Hcase (i0 & k0 & Hk0 & Hi0).
  destruct (decide (i0 = i)) as [-> | Hne].
  - rewrite Hi in Hi0. injection Hi0 as Heq.
    destruct (body_suffix_inj a t x0 k k0 ltac:(lia) Heq) as [-> ->].
    exists i, (S k0). split; [destruct Hcase as [? | ?]; [lia | congruence] |].
    apply list_lookup_insert_eq. now apply lookup_lt_Some in Hi.
  - exists i0, k0. split; [exact Hk0 |].
    now rewrite list_lookup_insert_ne by congruence.
Qed.

Lemma copy_inv_not_deadlocked (a : addr) (c : config) :
  copy_inv a c -> deadlocked c = false.
Proof.
  destruct c as [h ts]. intros (I4 & I3 & I2 & I1). unfold deadlocked.
  cbn [fst snd] in *.
  destruct (existsb (blocked h) ts) eqn:Eb; [| apply andb_false_r].
  rewrite andb_true_r.
  apply existsb_exists in Eb as (prog & Hin & Hb).
  apply list_elem_of_In in Hin.
  destruct (proj1 (Forall_forall _ _) I4 prog Hin) as (t & k & Hta & Hshape).
  destruct prog as [| x rest]; [discriminate Hb |].
  cbn [blocked] in Hb.
  destruct (exec x h) eqn:Hx; try discriminate Hb. clear Hb.
  destruct (body_suffix_head a t k x rest Hshape) as (_ & Hk).
  destruct (exec_Blocks_inv x h Hx)
    as [(p & m & -> & Hm & Hw) | (p & m & -> & Hm & Hf)].
  - destruct Hk as [(_ & [= <-]) | [(_ & [=]) | [(_ & [=]) | [(_ & [=]) | (_ & [=])]]]].
    rewrite (I3 m Hm) in Hw. discriminate Hw.
  - destruct Hk as [(_ & [=]) | [(_ & [= <-]) | [(_ & [=]) | [(_ & [=]) | (_ & [=])]]]].
    assert (Hw : writer m = true).
    { unfold is_free in Hf. rewrite (I2 p m Hta Hm) in Hf.
      destruct (writer m); [reflexivity | discriminate Hf]. }
    destruct (I1 p m Hm Hw) as (i & k0 & Hk0 & Hi).
    destruct (body_suffix_holding a p k0 Hk0) as (y & rest' & Hy & Hacq).
    rewrite Hy in Hi.
    apply not_true_is_false. intros Hall.
    rewrite forallb_forall in Hall.
    specialize (Hall (y :: rest')
                  (proj1 (list_elem_of_In _ _) (list_elem_of_lookup_2 _ _ _ Hi))).
    cbn [finished blocked orb] in Hall.
    destruct (exec y h) eqn:Hy'; try discriminate Hall.
    destruct (exec_Blocks_inv y h Hy')
      as [(? & ? & -> & _) | (? & ? & -> & _)]; discriminate Hacq.
Qed.

Lemma copy_inv_step (a : addr) (c c1 : config) (i : nat) :
  copy_inv a c -> step_thread i c = Some c1 -> copy_inv a c1.
Proof.
  destruct c as [h ts]. intros (I4 & I3 & I2 & I1) Hstep.
  unfold step_thread in Hstep. cbn [fst snd] in *.
  destruct (ts !! i) as [[| x rest] |] eqn:Hi; try discriminate Hstep.
  destruct (exec x h) as [h1 | |] eqn:Hx; try discriminate Hstep.
  injection Hstep as <-.
  destruct (Forall_lookup_1 _ _ _ _ I4 Hi) as (t & k & Hta & Hshape).
  destruct (body_suffix_head a t k x rest Hshape) as (Hrest & Hk).
  rewrite Hshape in Hi.
  pose proof (exec_locks x h h1 Hx) as HL.
  unfold copy_inv. cbn [fst snd].
  split.
  { apply Forall_insert; [exact I4 |]. exists t, (S k). auto. }
  destruct Hk as [(-> & ->) | [(-> & ->) | [(Hk & Hneutral) | [(-> & ->) | (-> & ->)]]]].
  - (* RLock on the source *)
    destruct HL as (a' & m & [= <-] & Hm & Hw & ->).
    split; [| split].
    + intros m' H. apply lookup_insert_cases in H as [(_ & ->) | H]; [reflexivity | eauto].
    + intros x0 m' Hx0 H.
      rewrite list_lookup_insert_ne in H by congruence. eauto.
    + intros x0 m' H Hw'.
      apply lookup_insert_cases in H as [(_ & ->) | H]; [discriminate Hw' |].
      apply (holder_after_step ts i a t x0 0 rest Hi Hrest); [left; lia | eauto].
  - (* Lock on the target *)
    destruct HL as (a' & m & [= <-] & Hm & Hf & ->).
    split; [| split].
    + intros m' H. rewrite list_lookup_insert_ne in H by congruence. eauto.
    + intros x0 m' Hx0 H.
      apply lookup_insert_cases in H as [(_ & ->) | H]; [reflexivity | eauto].
    + intros x0 m' H Hw'.
      apply lookup_insert_cases in H as [(-> & ->) | H].
      * exists i, 2. split; [lia |]. rewrite Hrest.
        apply list_lookup_insert_eq. now apply lookup_lt_Some in Hi.
      * apply (holder_after_step ts i a t x0 1 rest Hi Hrest); [left; lia | eauto].
  - (* an assignment or the Avatar copy *)
    assert (HL' : locks h1 = locks h).
    { destruct x; try discriminate Hneutral; exact HL. }
    rewrite HL'. split; [exact I3 |]. split; [exact I2 |].
    intros x0 m' H Hw'.
    apply (holder_after_step ts i a t x0 k rest Hi Hrest); [left; lia | eauto].
  - (* RUnlock on the source *)
    destruct HL as (a' & m & r & [= <-] & Hm & Hr & ->).
    split; [| split].
    + intros m' H. apply lookup_insert_cases in H as [(_ & ->) | H]; [| eauto].
      cbn. eauto.
    + intros x0 m' Hx0 H.
      rewrite list_lookup_insert_ne in H by congruence. eauto.
    + intros x0 m' H Hw'.
      apply lookup_insert_cases in H as [(_ & ->) | H].
      * cbn in Hw'. rewrite (I3 m Hm) in Hw'. discriminate Hw'.
      * apply (holder_after_step ts i a t x0 11 rest Hi Hrest); [left; lia | eauto].
  - (* Unlock on the target *)
    destruct HL as (a' & m & [= <-] & Hm & Hw & ->).
    split; [| split].
    + intros m' H. rewrite list_lookup_insert_ne in H by congruence. eauto.
    + intros x0 m' Hx0 H.
      apply lookup_insert_cases in H as [(-> & ->) | H]; [| eauto].
      cbn. eauto.
    + intros x0 m' H Hw'.
      destruct (decide (x0 = t)) as [-> | Hne].
      * rewrite list_lookup_insert_eq in H by now apply lookup_lt_Some in Hm.
        injection H as <-. discriminate Hw'.
      * rewrite list_lookup_insert_ne in H by congruence.
        apply (holder_after_step ts i a t x0 12 rest Hi Hrest); [right; exact Hne | eauto].
Qed.

Lemma copy_inv_init (h : heap) (a : addr) (targets : list addr) :
  (forall t, t ∈ targets -> t <> a) ->
  (forall x m, locks h !! x = Some m ->
     writer m = false /\ (x <> a -> readers m = 0)) ->
  copy_inv a (h, copies_from a targets).
Proof.
  intros Ht Hl. unfold copy_inv, copies_from. cbn [fst snd].
  split; [| split; [| split]].
  - apply Forall_fmap, Forall_forall. intros t Hin. exists t, 0. cbn. auto.
  - intros m Hm. now apply (Hl a m).
  - intros x m Hx Hm. now apply (Hl x m).
  - intros x m Hm Hw. destruct (Hl x m Hm) as [Hw' _]. congruence.
Qed.

Lemma copy_inv_run (a : addr) (sched : list nat) (c c1 : config) :
  copy_inv a c -> run_schedule sched c = Some c1 -> copy_inv a c1.
Proof.
  revert c. induction sched as [| i sched IH]; intros c Hinv Hrun.
  - now injection Hrun as <-.
  - cbn [run_schedule] in Hrun.
    destruct (step_thread i c) as [c2 |] eqn:Hstep; [| discriminate Hrun].
    exact (IH c2 (copy_inv_step a c c2 i Hinv Hstep) Hrun).
Qed.

(** X9: any number of copies out of one source into other users, run
    concurrently and interleaved in any way, never reach a deadlock: as long
    as a thread waits for a lock, some other thread is not waiting.  This
    holds from every store in which no lock has a writer and no lock other
    than the source's has a reader, and covers several threads copying into
    the same target. *)
Lemma common_source_deadlock_free (h : heap) (a : addr) (targets : list addr) :
  (forall t, t ∈ targets -> t <> a) ->
  (forall x m, locks h !! x = Some m ->
     writer m = false /\ (x <> a -> readers m = 0)) ->
  deadlock_free (h, copies_from a targets).
Proof.
  intros Ht Hl sched c1 Hrun.
  apply (copy_inv_not_deadlocked a).
  exact (copy_inv_run a sched _ c1 (copy_inv_init h a targets Ht Hl) Hrun).
Qed.

Lemma common_source_deadlock_free_witness :
  deadlock_free (sample_heap, copies_from 0 [2; 2; 1]).
Proof.
  apply common_source_deadlock_free.
  - intros t Ht. rewrite !elem_of_cons, elem_of_nil in Ht.
    destruct Ht as [-> | [-> | [-> | []]]]; discriminate.
  - intros x m Hm.
    destruct x as [| [| [| x]]]; cbn in Hm; try discriminate Hm;
      injection Hm as <-; split; reflexivity.
Defined.

(** Two copies into the same target, run one after the other and run
    interleaved, both finish. *)
Example same_target_copies_finish :
  (snd <$> run_schedule (replicate 13 0 ++ replicate 13 1)
                        (sample_heap, copies_from 0 [2; 2]))
  = Some [[]; []]
  /\ (snd <$> run_schedule ([0; 1; 1] ++ replicate 11 1 ++ replicate 12 0)
                           (sample_heap, copies_from 0 [2; 2]))
     = Some [[]; []].
Proof. split; vm_compute; reflexivity. Qed.

(** ** Concurrent copies out of one source run to the end *)

Lemma count_reading_insert (ts : list (list action)) (i : nat)
    (old new : list action) :
  ts !! i = Some old ->
  count_reading (<[i := new]> ts) + (if reading old then 1 else 0)
  = count_reading ts + (if reading new then 1 else 0).
Proof.
  revert i. induction ts as [| p ts IH]; intros i Hi; [discriminate Hi |].
  destruct i as [| i].
  - injection Hi as ->.
    change (<[0 := new]> (old :: ts)) with (new :: ts). cbn [count_reading].
    destruct (reading old), (reading new); lia.
  - change (<[S i := new]> (p :: ts)) with (p :: <[i := new]> ts).
    cbn [count_reading]. specialize (IH i Hi).
    destruct (reading p), (reading old), (reading new); lia.
Qed.

Lemma count_reading_lookup (ts : list (list action)) (i : nat)
    (prog : list action) :
  ts !! i = Some prog -> reading prog = true -> 1 <= count_reading ts.
Proof.
  revert i. induction ts as [| p ts IH]; intros i Hi Hr; [discriminate Hi |].
  destruct i as [| i]; cbn [count_reading].
  - injection Hi as ->. rewrite Hr. lia.
  - specialize (IH i Hi Hr). lia.
Qed.

Lemma count_reading_fresh (a : addr) (targets : list addr) :
  count_reading (copies_from a targets) = 0.
Proof. induction targets as [| t ts IH]; [reflexivity | exact IH]. Qed.

Lemma reading_suffix (a t : addr) (k : nat) :
  reading (skipn k (CopyOverTo_body (Some a) (Some t)))
  = (1 <=? k)%nat && (k <=? 11)%nat.
Proof.
  unfold reading. rewrite length_drop.
  change (length (CopyOverTo_body (Some a) (Some t))) with 13.
  destruct (Nat.leb_spec 2 (13 - k)), (Nat.leb_spec (13 - k) 12),
    (Nat.leb_spec 1 k), (Nat.leb_spec k 11); cbn; try reflexivity; lia.
Qed.

Lemma body_suffix_neutral (a t : addr) (k : nat) (x : action)
    (rest : list action) :
  2 <= k <= 10 ->
  x :: rest = skipn k (CopyOverTo_body (Some a) (Some t)) ->
  (exists f, x = AAssign f (Some t) (Some a))
  \/ x = ACopyAvatar (Some t) (Some a).
Proof.
  intros Hk H.
  do 2 (destruct k as [| k]; [lia |]).
  do 8 (destruct k as [| k]; [cbn in H; injection H as -> _; left; eexists; reflexivity |]).
  destruct k as [| k]; [cbn in H; injection H as -> _; now right | lia].
Qed.

(** What a statement that ran left alone. *)
Lemma exec_store_shape (x : action) (h h1 : heap) :
  exec x h = Done h1 ->
  length (users h1) = length (users h)
  /\ (forall i s, cells h !! i = Some s -> cells h1 !! i = Some s)
  /\ (forall y, match x with
                | AAssign _ dst _ | ACopyAvatar dst _ => dst <> Some y
                | _ => True
                end ->
                Avatar <$> users h1 !! y = Avatar <$> users h !! y).
Proof.
  assert (Hon : forall op p, on_mutex op p h = Done h1 ->
            length (users h1) = length (users h)
            /\ (forall i s, cells h !! i = Some s -> cells h1 !! i = Some s)
            /\ (forall y, Avatar <$> users h1 !! y = Avatar <$> users h !! y)).
  { intros op p H. unfold on_mutex in H. destruct p as [a |]; [| discriminate H].
    unfold index in H. destruct (users h !! a) as [u |] eqn:Hu; [| discriminate H].
    cbn [obind] in H. destruct (op (mu u)) as [m | |]; try discriminate H.
    injection H as <-. cbn [store_user users cells].
    split; [apply length_insert |]. split; [auto |].
    intros y. destruct (decide (a = y)) as [<- | Hne].
    - rewrite list_lookup_insert_eq by now apply lookup_lt_Some in Hu.
      now rewrite Hu.
    - now rewrite list_lookup_insert_ne. }
  assert (Hup : forall f p h0, update_user f p h0 = Done h1 ->
            length (users h1) = length (users h0)
            /\ cells h1 = cells h0
            /\ (forall y, p <> Some y -> users h1 !! y = users h0 !! y)).
  { intros f p h0 H. unfold update_user in H. destruct p as [d |]; [| discriminate H].
    unfold index in H. destruct (users h0 !! d) as [u |]; [| discriminate H].
    injection H as <-. cbn [store_user users cells].
    split; [apply length_insert |]. split; [reflexivity |].
    intros y Hy. apply list_lookup_insert_ne. congruence. }
  intros Hx. destruct x as [p | p | p | p | f dst src | dst src]; cbn [exec] in Hx.
  - destruct (Hon _ _ Hx) as (H1 & H2 & H3). auto.
  - destruct (Hon _ _ Hx) as (H1 & H2 & H3). auto.
  - destruct (Hon _ _ Hx) as (H1 & H2 & H3). auto.
  - destruct (Hon _ _ Hx) as (H1 & H2 & H3). auto.
  - destruct (load_user h src) as [s | |]; cbn [obind] in Hx; try discriminate Hx.
    destruct (Hup _ _ _ Hx) as (H1 & H2 & H3).
    split; [exact H1 |]. split; [now rewrite H2 |].
    intros y Hy. now rewrite (H3 y Hy).
  - destruct (load_user h src) as [s | |]; cbn [obind] in Hx; try discriminate Hx.
    destruct (Avatar s) as [q |]; [| injection Hx as <-; auto].
    destruct (load_cell h q) as [avatar | |]; cbn [obind] in Hx; try discriminate Hx.
    cbn [alloc_cell] in Hx.
    destruct (Hup _ _ _ Hx) as (H1 & H2 & H3). cbn [users cells] in H1, H2, H3.
    split; [exact H1 |].
    split; [intros i s' Hi; rewrite H2; now apply lookup_app_l_Some |].
    intros y Hy. now rewrite (H3 y Hy).
Qed.

Lemma thread_target_ne (a : addr) (c : config) (j t k : nat) :
  copy_inv a c ->
  snd c !! j = Some (skipn k (CopyOverTo_body (Some a) (Some t))) ->
  k <= 12 ->
  t <> a.
Proof.
  intros (I4 & _) Hj Hk.
  destruct (Forall_lookup_1 _ _ _ _ I4 Hj) as (t0 & k0 & Ht0 & Heq).
  symmetry in Heq.
  destruct (body_suffix_inj a t0 t k0 k Hk Heq) as [_ <-]. exact Ht0.
Qed.

Lemma shape_after_step (ts : list (list action)) (i j a t t' k k' : nat) :
  ts !! i = Some (skipn k (CopyOverTo_body (Some a) (Some t))) ->
  <[i := skipn (S k) (CopyOverTo_body (Some a) (Some t))]> ts !! j
  = Some (skipn k' (CopyOverTo_body (Some a) (Some t'))) ->
  k' <= 12 ->
  (j = i /\ t' = t /\ k' = S k)
  \/ (j <> i /\ ts !! j = Some (skipn k' (CopyOverTo_body (Some a) (Some t')))).
Proof.
  intros Hi Hj Hk'.
  apply list_lookup_insert_Some in Hj as [(<- & Heq & _) | (Hne & Hj)].
  - left. destruct (body_suffix_inj a t t' (S k) k' Hk' Heq) as [<- <-]. auto.
  - right. auto.
Qed.

Section SafeStep.

Variables (a r0 : nat) (h h1 : heap) (ts : list (list action)).
Variables (i t k : nat) (x : action) (rest : list action).
Hypothesis K : copy_safe a r0 (h, ts).
Hypothesis Hi : ts !! i = Some (skipn k (CopyOverTo_body (Some a) (Some t))).
Hypothesis Hshape : x :: rest = skipn k (CopyOverTo_body (Some a) (Some t)).
Hypothesis Hta : t <> a.
Hypothesis Hx : exec x h = Done h1.

Lemma K_inv : copy_inv a (h, ts).
Proof. exact (proj1 K). Qed.

Lemma K_source :
  exists ua, users h !! a = Some ua
             /\ forall p, Avatar ua = Some p -> is_Some (cells h !! p).
Proof. exact (proj1 (proj2 K)). Qed.

Lemma K_targets (j t' k' : nat) :
  ts !! j = Some (skipn k' (CopyOverTo_body (Some a) (Some t'))) ->
  k' <= 12 -> is_Some (users h !! t').
Proof. exact (proj1 (proj2 (proj2 K)) j t' k'). Qed.

Lemma K_readers (m : RWMutex) :
  locks h !! a = Some m -> readers m = r0 + count_reading ts.
Proof. exact (proj1 (proj2 (proj2 (proj2 K))) m). Qed.

Lemma K_holder (j t' k' : nat) :
  ts !! j = Some (skipn k' (CopyOverTo_body (Some a) (Some t'))) ->
  2 <= k' <= 12 ->
  exists m, locks h !! t' = Some m /\ writer m = true.
Proof. exact (proj1 (proj2 (proj2 (proj2 (proj2 K)))) j t' k'). Qed.

Lemma K_unique (j j' t' k' k'' : nat) :
  ts !! j = Some (skipn k' (CopyOverTo_body (Some a) (Some t'))) ->
  ts !! j' = Some (skipn k'' (CopyOverTo_body (Some a) (Some t'))) ->
  2 <= k' <= 12 -> 2 <= k'' <= 12 -> j = j'.
Proof. exact (proj2 (proj2 (proj2 (proj2 (proj2 K)))) j j' t' k' k''). Qed.

Lemma step_rest : rest = skipn (S k) (CopyOverTo_body (Some a) (Some t)).
Proof. exact (proj1 (body_suffix_head a t k x rest Hshape)). Qed.

Lemma step_k_le : k <= 12.
Proof.
  destruct (proj2 (body_suffix_head a t k x rest Hshape))
    as [(-> & _) | [(-> & _) | [(Hk & _) | [(-> & _) | (-> & _)]]]]; lia.
Qed.

(** The lock of a user other than the one the statement locks or unlocks. *)
Lemma step_lock_other (y : addr) :
  (k = 0 \/ k = 11 -> y <> a) ->
  (k = 1 \/ k = 12 -> y <> t) ->
  locks h1 !! y = locks h !! y.
Proof.
  intros Hya Hyt. pose proof (exec_locks x h h1 Hx) as HL.
  destruct (proj2 (body_suffix_head a t k x rest Hshape))
    as [(-> & ->) | [(-> & ->) | [(Hk & Hn) | [(-> & ->) | (-> & ->)]]]].
  - destruct HL as (a' & m & [= <-] & _ & _ & ->).
    apply list_lookup_insert_ne. intros ->. apply Hya; auto.
  - destruct HL as (a' & m & [= <-] & _ & _ & ->).
    apply list_lookup_insert_ne. intros ->. apply Hyt; auto.
  - destruct x; try discriminate Hn; now rewrite HL.
  - destruct HL as (a' & m & r & [= <-] & _ & _ & ->).
    apply list_lookup_insert_ne. intros ->. apply Hya; auto.
  - destruct HL as (a' & m & [= <-] & _ & _ & ->).
    apply list_lookup_insert_ne. intros ->. apply Hyt; auto.
Qed.

Lemma step_source :
  exists ua, users h1 !! a = Some ua
             /\ forall p, Avatar ua = Some p -> is_Some (cells h1 !! p).
Proof.
  destruct K_source as (ua & Hua & Hav).
  destruct (exec_store_shape x h h1 Hx) as (_ & Hcells & Hkeep).
  assert (Hdst : match x with
                 | AAssign _ dst _ | ACopyAvatar dst _ => dst <> Some a
                 | _ => True
                 end).
  { destruct (proj2 (body_suffix_head a t k x rest Hshape))
      as [(_ & ->) | [(_ & ->) | [(Hk & _) | [(_ & ->) | (_ & ->)]]]];
      try exact I.
    destruct (body_suffix_neutral a t k x rest Hk Hshape) as [[f ->] | ->];
      congruence. }
  specialize (Hkeep a Hdst). rewrite Hua in Hkeep. cbn in Hkeep.
  destruct (users h1 !! a) as [ua' |]; [| discriminate Hkeep].
  injection Hkeep as Heq. exists ua'. split; [reflexivity |].
  intros p Hp. rewrite Heq in Hp. destruct (Hav p Hp) as [s Hs].
  exists s. now apply Hcells.
Qed.

Lemma step_targets (j t' k' : nat) :
  <[i := rest]> ts !! j = Some (skipn k' (CopyOverTo_body (Some a) (Some t'))) ->
  k' <= 12 ->
  is_Some (users h1 !! t').
Proof.
  intros Hj Hk'. pose proof K_targets as Kt.
  destruct (exec_store_shape x h h1 Hx) as (Hlen & _).
  apply lookup_lt_is_Some. rewrite Hlen. apply lookup_lt_is_Some.
  rewrite step_rest in Hj.
  destruct (shape_after_step ts i j a t t' k k' Hi Hj Hk')
    as [(_ & -> & _) | (_ & Hold)].
  - exact (Kt i t k Hi step_k_le).
  - exact (Kt j t' k' Hold Hk').
Qed.

Lemma step_readers (m : RWMutex) :
  locks h1 !! a = Some m ->
  readers m = r0 + count_reading (<[i := rest]> ts).
Proof.
  intros Hm. pose proof K_readers as K2.
  pose proof (count_reading_insert ts i _ rest Hi) as Hc.
  rewrite step_rest in Hc at 2. rewrite !reading_suffix in Hc.
  pose proof (exec_locks x h h1 Hx) as HL.
  pose proof (step_lock_other a) as Hother.
  destruct (proj2 (body_suffix_head a t k x rest Hshape))
    as [(-> & ->) | [(-> & ->) | [(Hk & Hn) | [(-> & ->) | (-> & ->)]]]].
  - destruct HL as (a' & m0 & [= <-] & Hm0 & _ & HL). rewrite HL in Hm.
    rewrite list_lookup_insert_eq in Hm by now apply lookup_lt_Some in Hm0.
    injection Hm as <-. cbn in Hc |- *. rewrite (K2 m0 Hm0). lia.
  - rewrite Hother in Hm by (intros [? | ?]; congruence || lia).
    cbn in Hc. rewrite (K2 m Hm). lia.
  - rewrite Hother in Hm by (intros [? | ?]; lia).
    assert (E1 : ((1 <=? k) && (k <=? 11))%nat = true)
      by (apply andb_true_iff; split; apply Nat.leb_le; lia).
    assert (E2 : ((1 <=? S k) && (S k <=? 11))%nat = true)
      by (apply andb_true_iff; split; apply Nat.leb_le; lia).
    rewrite E1, E2 in Hc. rewrite (K2 m Hm). lia.
  - destruct HL as (a' & m0 & r & [= <-] & Hm0 & Hr & HL). rewrite HL in Hm.
    rewrite list_lookup_insert_eq in Hm by now apply lookup_lt_Some in Hm0.
    injection Hm as <-. cbn in Hc |- *. pose proof (K2 m0 Hm0). lia.
  - rewrite Hother in Hm by (intros [? | ?]; congruence || lia).
    cbn in Hc. rewrite (K2 m Hm). lia.
Qed.

Lemma step_holder (j t' k' : nat) :
  <[i := rest]> ts !! j = Some (skipn k' (CopyOverTo_body (Some a) (Some t'))) ->
  2 <= k' <= 12 ->
  exists m, locks h1 !! t' = Some m /\ writer m = true.
Proof.
  intros Hj Hk'. rewrite step_rest in Hj.
  pose proof (exec_locks x h h1 Hx) as HL.
  pose proof step_lock_other as Hother.
  pose proof K_holder as K3. pose proof K_unique as K4. pose proof K_inv as K0.
  pose proof (proj2 (body_suffix_head a t k x rest Hshape)) as Hcase.
  destruct (shape_after_step ts i j a t t' k k' Hi Hj ltac:(lia))
    as [(-> & -> & ->) | (Hne & Hold)].
  - destruct Hcase as [(-> & ->) | [(-> & ->) | [(Hk & Hn) | [(-> & ->) | (-> & ->)]]]];
      try lia.
    + destruct HL as (a' & m & [= <-] & Hm & _ & HL).
      exists {| readers := 0; writer := true |}. rewrite HL.
      split; [| reflexivity].
      apply list_lookup_insert_eq. now apply lookup_lt_Some in Hm.
    + destruct (K3 i t k Hi ltac:(lia)) as (m & Hm & Hw).
      exists m. split; [| exact Hw].
      rewrite Hother by (intros [? | ?]; lia). exact Hm.
    + destruct (K3 i t 11 Hi ltac:(lia)) as (m & Hm & Hw).
      exists m. split; [| exact Hw].
      rewrite Hother by (intros [? | ?]; congruence || lia). exact Hm.
  - destruct (K3 j t' k' Hold Hk') as (m & Hm & Hw).
    pose proof (thread_target_ne a (h, ts) j t' k' K0 Hold ltac:(lia)) as Hta'.
    exists m. split; [| exact Hw].
    rewrite Hother; [exact Hm | intros _; exact Hta' |].
    intros Hk ->.
    destruct Hcase as [(-> & ->) | [(-> & ->) | [(Hk2 & Hn) | [(-> & ->) | (-> & ->)]]]];
      try lia.
    + destruct HL as (a' & m0 & [= <-] & Hm0 & Hf & _).
      rewrite Hm in Hm0. injection Hm0 as <-.
      unfold is_free in Hf. rewrite Hw in Hf. discriminate Hf.
    + apply Hne. symmetry. exact (K4 i j t 12 k' Hi Hold ltac:(lia) Hk').
Qed.

Lemma step_unique (j j' t' k' k'' : nat) :
  <[i := rest]> ts !! j = Some (skipn k' (CopyOverTo_body (Some a) (Some t'))) ->
  <[i := rest]> ts !! j' = Some (skipn k'' (CopyOverTo_body (Some a) (Some t'))) ->
  2 <= k' <= 12 -> 2 <= k'' <= 12 -> j = j'.
Proof.
  intros Hj Hj' Hk' Hk''. rewrite step_rest in Hj, Hj'.
  pose proof (exec_locks x h h1 Hx) as HL.
  pose proof K_holder as K3. pose proof K_unique as K4.
  pose proof (proj2 (body_suffix_head a t k x rest Hshape)) as Hcase.
  assert (Hclash : forall j0 k0,
            j0 <> i ->
            ts !! j0 = Some (skipn k0 (CopyOverTo_body (Some a) (Some t))) ->
            2 <= k0 <= 12 -> 2 <= S k <= 12 -> False).
  { intros j0 k0 Hne Hold Hk0 HSk.
    destruct Hcase as [(-> & ->) | [(-> & ->) | [(Hk2 & Hn) | [(-> & ->) | (-> & ->)]]]];
      try lia.
    - destruct HL as (a' & m0 & [= <-] & Hm0 & Hf & _).
      destruct (K3 j0 t k0 Hold Hk0) as (m & Hm & Hw).
      rewrite Hm in Hm0. injection Hm0 as <-.
      unfold is_free in Hf. rewrite Hw in Hf. discriminate Hf.
    - apply Hne. symmetry. exact (K4 i j0 t k k0 Hi Hold ltac:(lia) Hk0).
    - apply Hne. symmetry. exact (K4 i j0 t 11 k0 Hi Hold ltac:(lia) Hk0). }
  destruct (shape_after_step ts i j a t t' k k' Hi Hj ltac:(lia))
    as [(-> & -> & ->) | (Hne & Hold)];
    destruct (shape_after_step ts i j' a t _ k k'' Hi Hj' ltac:(lia))
      as [(-> & E2 & ->) | (Hne' & Hold')].
  - reflexivity.
  - exfalso. exact (Hclash j' k'' Hne' Hold' Hk'' Hk').
  - subst t'. exfalso. exact (Hclash j k' Hne Hold Hk' Hk'').
  - exact (K4 j j' t' k' k'' Hold Hold' Hk' Hk'').
Qed.

(** The invariant after the step. *)
Lemma step_safe :
  copy_inv a (h1, <[i := rest]> ts) ->
  copy_safe a r0 (h1, <[i := rest]> ts).
Proof.
  intros K0'. unfold copy_safe. cbn [fst snd].
  split; [exact K0' |].
  split; [exact step_source |].
  split; [exact step_targets |].
  split; [exact step_readers |].
  split; [exact step_holder | exact step_unique].
Qed.

End SafeStep.

Lemma step_thread_inv (i : nat) (c c1 : config) :
  step_thread i c = Some c1 ->
  exists x rest h1,
    snd c !! i = Some (x :: rest) /\ exec x (fst c) = Done h1
    /\ c1 = (h1, <[i := rest]> (snd c)).
Proof.
  unfold step_thread.
  destruct (snd c !! i) as [[| x rest] |]; try discriminate.
  destruct (exec x (fst c)) as [h1 | |] eqn:Hx; try discriminate.
  intros [= <-]. exists x, rest, h1. auto.
Qed.

Lemma step_thread_Done (i : nat) (h h1 : heap) (ts : list (list action))
    (x : action) (rest : list action) :
  ts !! i = Some (x :: rest) -> exec x h = Done h1 ->
  step_thread i (h, ts) = Some (h1, <[i := rest]> ts).
Proof. intros Hi Hx. unfold step_thread. cbn [fst snd]. now rewrite Hi, Hx. Qed.

Lemma copy_safe_step (a r0 : nat) (c c1 : config) (i : nat) :
  copy_safe a r0 c -> step_thread i c = Some c1 -> copy_safe a r0 c1.
Proof.
  intros K Hstep.
  pose proof (copy_inv_step a c c1 i (proj1 K) Hstep) as K0'.
  destruct (step_thread_inv i c c1 Hstep) as (x & rest & h1 & Hi & Hx & ->).
  destruct c as [h ts]. cbn [fst snd] in Hi, Hx.
  destruct K as (K0 & Krest). pose proof K0 as (I4 & _).
  destruct (Forall_lookup_1 _ _ _ _ I4 Hi) as (t & k & Hta & Hshape).
  rewrite Hshape in Hi.
  exact (step_safe a r0 h h1 ts i t k x rest (conj K0 Krest) Hi Hshape Hta Hx K0').
Qed.

Lemma copy_safe_run (a r0 : nat) (sched : list nat) (c c1 : config) :
  copy_safe a r0 c -> run_schedule sched c = Some c1 -> copy_safe a r0 c1.
Proof.
  revert c. induction sched as [| i sched IH]; intros c K Hrun.
  - now injection Hrun as <-.
  - cbn [run_schedule] in Hrun.
    destruct (step_thread i c) as [c2 |] eqn:Hstep; [| discriminate Hrun].
    exact (IH c2 (copy_safe_step a r0 c c2 i K Hstep) Hrun).
Qed.

(** No statement of any thread can crash. *)
Lemma copy_safe_no_panic (a r0 : nat) (h : heap) (ts : list (list action))
    (i : nat) (x : action) (rest : list action) :
  copy_safe a r0 (h, ts) ->
  ts !! i = Some (x :: rest) ->
  exec x h <> Panics.
Proof.
  intros (K0 & (ua & Hua & Hav) & Kt & K2 & K3 & _) Hi. cbn [fst snd] in *.
  pose proof K0 as (I4 & _).
  destruct (Forall_lookup_1 _ _ _ _ I4 Hi) as (t & k & Hta & Hshape).
  cbn [fst snd] in *.
  pose proof (body_suffix_head a t k x rest Hshape) as (_ & Hcase).
  rewrite Hshape in Hi.
  assert (Hk12 : k <= 12) by (destruct Hcase as [(-> & _) | [(-> & _) | [(? & _) | [(-> & _) | (-> & _)]]]]; lia).
  destruct (Kt i t k Hi Hk12) as [ut Hut].
  destruct Hcase as [(-> & ->) | [(-> & ->) | [(Hk & Hn) | [(-> & ->) | (-> & ->)]]]].
  - cbn [exec]. rewrite (on_mutex_lookup _ _ _ _ Hua). unfold RLock.
    destruct (writer (mu ua)); discriminate.
  - cbn [exec]. rewrite (on_mutex_lookup _ _ _ _ Hut). unfold Lock.
    destruct (writer (mu ut) || negb (readers (mu ut) =? 0)%nat); discriminate.
  - destruct (body_suffix_neutral a t k x rest Hk Hshape) as [[f ->] | ->];
      cbn [exec]; rewrite (load_user_lookup _ _ _ Hua); cbn [obind].
    + unfold update_user. rewrite (index_lookup _ _ _ Hut). discriminate.
    + destruct (Avatar ua) as [p |] eqn:Eav; [| discriminate].
      destruct (Hav p eq_refl) as [s Hs].
      unfold load_cell. rewrite (index_lookup _ _ _ Hs). cbn [obind alloc_cell].
      unfold update_user. cbn [users]. rewrite (index_lookup _ _ _ Hut).
      discriminate.
  - cbn [exec]. rewrite (on_mutex_lookup _ _ _ _ Hua). unfold RUnlock.
    pose proof (K2 (mu ua) (locks_lookup _ _ _ Hua)) as Hr.
    pose proof (count_reading_lookup ts i _ Hi eq_refl) as Hc.
    destruct (readers (mu ua)); [lia | discriminate].
  - cbn [exec]. rewrite (on_mutex_lookup _ _ _ _ Hut). unfold Unlock.
    destruct (K3 i t 12 Hi ltac:(lia)) as (m & Hm & Hw).
    rewrite (locks_lookup _ _ _ Hut) in Hm. injection Hm as <-.
    rewrite Hw. discriminate.
Qed.

Lemma forallb_false_inv {A : Type} (f : A -> bool) (l : list A) :
  forallb f l = false -> exists x, In x l /\ f x = false.
Proof.
  induction l as [| y l IH]; [discriminate |]. cbn.
  destruct (f y) eqn:Hy; cbn.
  - intros H. destruct (IH H) as (x & Hin & Hx). exists x. auto.
  - intros _. exists y. auto.
Qed.

(** Unless every thread has finished, some thread can take its next
    step. *)
Lemma copy_safe_progress (a r0 : nat) (c : config) :
  copy_safe a r0 c ->
  Forall (fun prog => prog = []) (snd c)
  \/ exists i c1, step_thread i c = Some c1.
Proof.
  destruct c as [h ts]. intros K. cbn [snd].
  assert (Hrunnable : forall prog, In prog ts -> prog <> [] ->
            blocked h prog = false -> exists i c1, step_thread i (h, ts) = Some c1).
  { intros prog Hin Hne Hb. destruct prog as [| x rest]; [now destruct Hne |].
    apply list_elem_of_In, list_elem_of_lookup_1 in Hin as [i Hi].
    cbn [blocked] in Hb.
    destruct (exec x h) as [h1 | |] eqn:Hx; try discriminate Hb.
    - exists i. eexists. now apply (step_thread_Done i h h1 ts x rest).
    - now destruct (copy_safe_no_panic a r0 h ts i x rest K Hi). }
  destruct (forallb finished ts) eqn:Hfin.
  - left. apply Forall_forall. intros prog Hin.
    rewrite forallb_forall in Hfin.
    specialize (Hfin prog (proj1 (list_elem_of_In _ _) Hin)).
    destruct prog; [reflexivity | discriminate Hfin].
  - right. apply forallb_false_inv in Hfin as (prog & Hin & Hf).
    destruct (blocked h prog) eqn:Hb.
    + pose proof (copy_inv_not_deadlocked a (h, ts) (proj1 K)) as Hd.
      unfold deadlocked in Hd. cbn [fst snd] in Hd.
      assert (Hex : existsb (blocked h) ts = true)
        by (apply existsb_exists; exists prog; auto).
      rewrite Hex, andb_true_r in Hd.
      apply forallb_false_inv in Hd as (prog' & Hin' & Hf').
      apply orb_false_iff in Hf' as [Hf1 Hf2].
      apply (Hrunnable prog' Hin'); [| exact Hf2].
      intros ->. discriminate Hf1.
    + apply (Hrunnable prog Hin); [| exact Hb].
      intros ->. discriminate Hf.
Qed.

Lemma statements_left_step (ts : list (list action)) (i : nat) (x : action)
    (rest : list action) :
  ts !! i = Some (x :: rest) ->
  S (statements_left (<[i := rest]> ts)) = statements_left ts.
Proof.
  revert i. induction ts as [| p ts IH]; intros i Hi; [discriminate Hi |].
  destruct i as [| i].
  - injection Hi as ->. reflexivity.
  - change (<[S i := rest]> (p :: ts)) with (p :: <[i := rest]> ts).
    cbn [statements_left]. specialize (IH i Hi). lia.
Qed.

(** From any state the threads can reach, they can all run to the end. *)
Lemma copy_safe_completes (a r0 : nat) (n : nat) :
  forall c, copy_safe a r0 c -> statements_left (snd c) = n ->
    exists sched c2, run_schedule sched c = Some c2
                     /\ Forall (fun prog => prog = []) (snd c2).
Proof.
  induction n as [n IH] using lt_wf_ind. intros c K Hn.
  destruct (copy_safe_progress a r0 c K) as [Hdone | (i & c1 & Hstep)].
  - exists [], c. split; [reflexivity | exact Hdone].
  - destruct (step_thread_inv i c c1 Hstep) as (x & rest & h1 & Hi & _ & Hc1).
    pose proof (statements_left_step _ i x rest Hi) as Hless.
    destruct (IH (statements_left (snd c1)) ltac:(subst c1; cbn [snd]; lia) c1
                 (copy_safe_step a r0 c c1 i K Hstep) eq_refl)
      as (sched & c2 & Hrun & Hfin).
    exists (i :: sched), c2. split; [| exact Hfin].
    cbn [run_schedule]. now rewrite Hstep.
Qed.

Lemma count_reading_finished (ts : list (list action)) :
  Forall (fun prog => prog = []) ts -> count_reading ts = 0.
Proof.
  induction 1 as [| p ts -> _ IH]; [reflexivity | exact IH].
Qed.

(** Once every thread has finished, each lock is free again, the source's up
    to the readers it had at the start. *)
Lemma copy_safe_finished_locks (a r0 : nat) (c : config) (x : addr)
    (m : RWMutex) :
  copy_safe a r0 c ->
  Forall (fun prog => prog = []) (snd c) ->
  locks (fst c) !! x = Some m ->
  m = if decide (x = a) then {| readers := r0; writer := false |} else free.
Proof.
  intros ((_ & I3 & I2 & I1) & _ & _ & K2 & _) Hfin Hm.
  destruct m as [r w]. destruct (decide (x = a)) as [-> | Hne].
  - pose proof (I3 _ Hm) as Hw. pose proof (K2 _ Hm) as Hr.
    rewrite (count_reading_finished _ Hfin) in Hr. cbn in Hw, Hr.
    subst. f_equal. lia.
  - pose proof (I2 x _ Hne Hm) as Hr. cbn in Hr. subst r.
    destruct w; [| reflexivity].
    destruct (I1 x _ Hm eq_refl) as (i & k & Hk & Hi).
    pose proof (Forall_lookup_1 _ _ _ _ Hfin Hi) as Hnil.
    destruct (body_suffix_holding a x k Hk) as (y & rest & Hy & _).
    rewrite Hy in Hnil. discriminate Hnil.
Qed.

Lemma run_schedule_users_length (sched : list nat) (c c1 : config) :
  run_schedule sched c = Some c1 ->
  length (users (fst c1)) = length (users (fst c)).
Proof.
  revert c. induction sched as [| i sched IH]; intros c Hrun.
  - now injection Hrun as <-.
  - cbn [run_schedule] in Hrun.
    destruct (step_thread i c) as [c2 |] eqn:Hstep; [| discriminate Hrun].
    rewrite (IH c2 Hrun).
    destruct (step_thread_inv i c c2 Hstep) as (x & rest & h1 & _ & Hx & ->).
    exact (proj1 (exec_store_shape x _ h1 Hx)).
Qed.

Lemma copy_safe_init (h : heap) (a : addr) (ua : User) (targets : list addr) :
  users h !! a = Some ua ->
  (forall p, Avatar ua = Some p -> is_Some (cells h !! p)) ->
  (forall t, t ∈ targets -> t <> a /\ is_Some (users h !! t)) ->
  (forall x m, locks h !! x = Some m ->
     writer m = false /\ (x <> a -> readers m = 0)) ->
  copy_safe a (readers (mu ua)) (h, copies_from a targets).
Proof.
  intros Hua Hav Ht Hl.
  assert (Hfresh : forall i t k,
            copies_from a targets !! i
            = Some (skipn k (CopyOverTo_body (Some a) (Some t))) ->
            k <= 12 -> k = 0 /\ t ∈ targets).
  { intros i t k Hi Hk. unfold copies_from in Hi.
    rewrite list_lookup_fmap in Hi.
    destruct (targets !! i) as [t0 |] eqn:Ht0; [| discriminate Hi].
    injection Hi as Heq.
    destruct (body_suffix_inj a t0 t 0 k Hk Heq) as [<- <-].
    split; [reflexivity |]. now apply list_elem_of_lookup_2 in Ht0. }
  unfold copy_safe. cbn [fst snd].
  split; [apply copy_inv_init; [intros t Hin; now apply Ht | exact Hl] |].
  split; [exists ua; auto |].
  split.
  { intros i t k Hi Hk. destruct (Hfresh i t k Hi Hk) as [_ Hin]. now apply Ht. }
  split.
  { intros m Hm. rewrite (locks_lookup _ _ _ Hua) in Hm. injection Hm as <-.
    rewrite count_reading_fresh. lia. }
  split.
  { intros i t k Hi Hk. destruct (Hfresh i t k Hi ltac:(lia)) as [-> _]. lia. }
  intros i j t k k' Hi _ Hk _. destruct (Hfresh i t k Hi ltac:(lia)) as [-> _]. lia.
Qed.

(** X10: concurrent copies out of one source into other users of the store
    always run to the end.  From every state an interleaving can reach,
    either all threads have finished or some thread can take its next step
    (none waits for ever, none crashes), and the remaining statements can be
    scheduled to completion; once all have finished every lock is in the
    state it had at the start. *)
Lemma common_source_copies_complete (h : heap) (a : addr) (ua : User)
    (targets : list addr) (sched : list nat) (c1 : config) :
  users h !! a = Some ua ->
  (forall p, Avatar ua = Some p -> is_Some (cells h !! p)) ->
  (forall t, t ∈ targets -> t <> a /\ is_Some (users h !! t)) ->
  (forall x m, locks h !! x = Some m ->
     writer m = false /\ (x <> a -> readers m = 0)) ->
  run_schedule sched (h, copies_from a targets) = Some c1 ->
  (Forall (fun prog => prog = []) (snd c1)
   \/ exists i c2, step_thread i c1 = Some c2)
  /\ (exists sched2 c2,
        run_schedule sched2 c1 = Some c2
        /\ Forall (fun prog => prog = []) (snd c2))
  /\ (Forall (fun prog => prog = []) (snd c1) -> locks (fst c1) = locks h).
Proof.
  intros Hua Hav Ht Hl Hrun.
  pose proof (copy_safe_run a _ sched _ c1
                (copy_safe_init h a ua targets Hua Hav Ht Hl) Hrun) as K.
  split; [exact (copy_safe_progress a _ c1 K) |].
  split; [exact (copy_safe_completes a _ _ c1 K eq_refl) |].
  intros Hfin. apply list_eq. intros x.
  pose proof (run_schedule_users_length sched _ c1 Hrun) as Hlen.
  cbn [fst] in Hlen.
  destruct (locks (fst c1) !! x) as [m1 |] eqn:H1.
  - rewrite (copy_safe_finished_locks a _ c1 x m1 K Hfin H1).
    assert (Hx : x < length (locks h)).
    { unfold locks. rewrite length_fmap, <- Hlen, <- (length_fmap mu).
      now apply lookup_lt_Some in H1. }
    apply lookup_lt_is_Some in Hx as [m0 H0]. rewrite H0. f_equal.
    destruct (Hl x m0 H0) as [Hw Hr]. destruct m0 as [r w]. cbn in Hw, Hr.
    destruct (decide (x = a)) as [-> | Hne].
    + rewrite (locks_lookup _ _ _ Hua) in H0. injection H0 as H0.
      rewrite H0. cbn. now subst w.
    + rewrite (Hr Hne). now subst w.
  - symmetry. apply lookup_ge_None. apply lookup_ge_None in H1.
    unfold locks in *. rewrite length_fmap in *. lia.
Qed.

Lemma common_source_copies_complete_witness :
  exists sched2 c2,
    run_schedule sched2 (sample_heap, copies_from 0 [2; 2; 1]) = Some c2
    /\ Forall (fun prog => prog = []) (snd c2).
Proof.
  assert (H3 : forall p, Avatar ann = Some p -> is_Some (cells sample_heap !! p)).
  { intros p [= <-]. exists "a.png". reflexivity. }
  apply (common_source_copies_complete sample_heap 0 ann [2; 2; 1] []
           (sample_heap, copies_from 0 [2; 2; 1]) eq_refl H3).
  - intros t Ht. rewrite !elem_of_cons, elem_of_nil in Ht.
    destruct Ht as [-> | [-> | [-> | []]]]; (split; [discriminate | eexists; reflexivity]).
  - intros x m Hm.
    destruct x as [| [| [| x]]]; cbn in Hm; try discriminate Hm;
      injection Hm as <-; split; reflexivity.
  - reflexivity.
Defined.

(** ** What concurrent copies leave in their targets *)

Lemma same_scalars_fields (x y : User) :
  same_scalars x y <-> forall f, field_eq f x y.
Proof.
  unfold same_scalars. split.
  - intros (H1 & H2 & H3 & H4 & H5 & H6 & H7 & H8) f. destruct f; assumption.
  - intros H.
    exact (conj (H FID) (conj (H FUsername) (conj (H FDiscriminator)
           (conj (H FEmail) (conj (H FToken) (conj (H FVerified)
           (conj (H FMFAEnabled) (H FBot)))))))).
Qed.

Lemma field_eq_assign (f g : field) (t s z : User) :
  field_eq g s z ->
  (field_eq f t z -> field_eq f (assign_field g t s) z)
  /\ (f = g -> field_eq f (assign_field g t s) z).
Proof.
  intros Hs. split.
  - destruct f, g; cbn; intros H; first [exact H | exact Hs].
  - intros ->. destruct g; exact Hs.
Qed.

Lemma field_eq_with_mu (f : field) (u z : User) (m : RWMutex) :
  field_eq f u z -> field_eq f (with_mu u m) z.
Proof. destruct f; exact (fun H => H). Qed.

Lemma field_eq_with_Avatar (f : field) (u z : User) (p : ptr) :
  field_eq f u z -> field_eq f (with_Avatar u p) z.
Proof. destruct f; exact (fun H => H). Qed.

Lemma field_pos_inj (f g : field) : field_pos f = field_pos g -> f = g.
Proof. destruct f, g; cbn; intros H; first [reflexivity | discriminate H]. Qed.

Lemma body_suffix_assign (a t : addr) (k : nat) (x : action)
    (rest : list action) :
  x :: rest = skipn k (CopyOverTo_body (Some a) (Some t)) ->
  (exists f, field_pos f = k /\ x = AAssign f (Some t) (Some a))
  \/ ((forall f, field_pos f <> k)
      /\ forall f dst src, x <> AAssign f dst src).
Proof.
  intros H.
  do 2 (destruct k as [| k];
        [cbn in H; injection H as -> _; right; split;
         [intros f; destruct f; discriminate | discriminate] |]).
  do 8 (destruct k as [| k];
        [cbn in H; injection H as -> _; left; eexists;
         split; [| reflexivity]; reflexivity |]).
  do 3 (destruct k as [| k];
        [cbn in H; injection H as -> _; right; split;
         [intros f; destruct f; discriminate | discriminate] |]).
  destruct k; discriminate H.
Qed.

(** A statement of a copy out of [a] into [t] keeps every agreement with
    [ua0], and the assignment of a field establishes it in the target. *)
Lemma exec_fields (a t : addr) (k : nat) (x : action) (rest : list action)
    (ua0 : User) (h h1 : heap) (y : addr) (uy1 : User) :
  x :: rest = skipn k (CopyOverTo_body (Some a) (Some t)) ->
  (forall ua f, users h !! a = Some ua -> field_eq f ua ua0) ->
  exec x h = Done h1 ->
  users h1 !! y = Some uy1 ->
  exists uy,
    users h !! y = Some uy
    /\ forall f, (field_eq f uy ua0 -> field_eq f uy1 ua0)
                 /\ (y = t -> field_pos f = k -> field_eq f uy1 ua0).
Proof.
  intros Hshape Hsrc Hx Hy.
  assert (Hon : forall op p,
            (forall f, field_pos f <> k) ->
            on_mutex op p h = Done h1 ->
            exists uy, users h !! y = Some uy
              /\ forall f, (field_eq f uy ua0 -> field_eq f uy1 ua0)
                           /\ (y = t -> field_pos f = k -> field_eq f uy1 ua0)).
  { intros op p Hpos H. unfold on_mutex in H.
    destruct p as [b |]; [| discriminate H]. unfold index in H.
    destruct (users h !! b) as [u |] eqn:Hu; [| discriminate H].
    cbn [obind] in H. destruct (op (mu u)) as [m | |]; try discriminate H.
    injection H as <-. cbn [store_user users] in Hy.
    apply list_lookup_insert_Some in Hy as [(<- & <- & _) | (_ & Hy)].
    - exists u. split; [exact Hu |]. intros f.
      split; [apply field_eq_with_mu | intros _ E; now destruct (Hpos f)].
    - exists uy1. split; [exact Hy |]. intros f.
      split; [auto | intros _ E; now destruct (Hpos f)]. }
  destruct (body_suffix_assign a t k x rest Hshape)
    as [(g & Hg & ->) | (Hpos & Hnot)].
  - cbn [exec load_user] in Hx. unfold index in Hx.
    destruct (users h !! a) as [ua |] eqn:Hua; [| discriminate Hx].
    cbn [obind] in Hx. unfold update_user, index in Hx.
    destruct (users h !! t) as [ut |] eqn:Hut; [| discriminate Hx].
    injection Hx as <-. cbn [store_user users] in Hy.
    apply list_lookup_insert_Some in Hy as [(<- & <- & _) | (Hne & Hy)].
    + exists ut. split; [exact Hut |]. intros f.
      destruct (field_eq_assign f g ut ua ua0 (Hsrc ua g eq_refl)) as [H1 H2].
      split; [exact H1 |]. intros _ E. apply H2. apply field_pos_inj. congruence.
    + exists uy1. split; [exact Hy |]. intros f. split; [auto | congruence].
  - destruct x as [p | p | p | p | f dst src | dst src]; cbn [exec] in Hx;
      try (exact (Hon _ _ Hpos Hx)).
    + now destruct (Hnot f dst src).
    + destruct (load_user h src) as [s | |]; cbn [obind] in Hx; try discriminate Hx.
      assert (Hsame : h1 = h -> exists uy, users h !! y = Some uy
                /\ forall f, (field_eq f uy ua0 -> field_eq f uy1 ua0)
                             /\ (y = t -> field_pos f = k -> field_eq f uy1 ua0)).
      { intros ->. exists uy1. split; [exact Hy |]. intros f.
        split; [auto | intros _ E; now destruct (Hpos f)]. }
      destruct (Avatar s) as [q |]; [| injection Hx as <-; now apply Hsame].
      destruct (load_cell h q) as [avatar | |]; cbn [obind] in Hx;
        try discriminate Hx.
      cbn [alloc_cell] in Hx. unfold update_user, index in Hx.
      destruct dst as [d |]; [| discriminate Hx]. cbn [users] in Hx.
      destruct (users h !! d) as [ud |] eqn:Hud; [| discriminate Hx].
      injection Hx as <-. cbn [store_user users] in Hy.
      apply list_lookup_insert_Some in Hy as [(<- & <- & _) | (_ & Hy)].
      * exists ud. split; [exact Hud |]. intros f.
        split; [apply field_eq_with_Avatar | intros _ E; now destruct (Hpos f)].
      * exists uy1. split; [exact Hy |]. intros f.
        split; [auto | intros _ E; now destruct (Hpos f)].
Qed.

Lemma field_eq_refl (f : field) (u : User) : field_eq f u u.
Proof. destruct f; reflexivity. Qed.

Lemma copy_fields_init (h : heap) (a : addr) (ua : User) (targets : list addr) :
  users h !! a = Some ua ->
  (forall t, t ∈ targets -> t <> a) ->
  copy_fields a ua targets (h, copies_from a targets).
Proof.
  intros Hua Ht. unfold copy_fields, copies_from. cbn [fst snd].
  split; [apply length_fmap |]. split.
  - intros ua1 f H. rewrite Hua in H. injection H as <-. apply field_eq_refl.
  - intros i t Hi. split; [apply Ht; now apply list_elem_of_lookup_2 in Hi |].
    exists 0. split; [rewrite list_lookup_fmap, Hi; reflexivity |].
    intros f ut Hf. lia.
Qed.

Lemma copy_fields_step (a : addr) (ua0 : User) (targets : list addr)
    (c c1 : config) (i : nat) :
  copy_fields a ua0 targets c -> step_thread i c = Some c1 ->
  copy_fields a ua0 targets c1.
Proof.
  destruct c as [h ts]. intros (Hlen & L1 & L2) Hstep. cbn [fst snd] in *.
  destruct (step_thread_inv i _ c1 Hstep) as (x & rest & h1 & Hi & Hx & ->).
  cbn [fst snd] in *.
  pose proof (lookup_lt_Some _ _ _ Hi) as Hlt.
  destruct (lookup_lt_is_Some_2 targets i ltac:(lia)) as [t' Ht'].
  destruct (L2 i t' Ht') as (Hta & k & Hik & Hfields).
  rewrite Hi in Hik. injection Hik as Hshape.
  pose proof (proj1 (body_suffix_head a t' k x rest Hshape)) as Hrest.
  pose proof (exec_fields a t' k x rest ua0 h h1) as HE.
  unfold copy_fields. cbn [fst snd].
  split; [now rewrite length_insert |]. split.
  - intros ua1 f Ha.
    destruct (HE a ua1 Hshape L1 Hx Ha) as (uy & Hy & Hf).
    apply (proj1 (Hf f)). exact (L1 uy f Hy).
  - intros j t Hj. destruct (L2 j t Hj) as (Htj & kj & Hjk & Hfj).
    split; [exact Htj |].
    destruct (decide (j = i)) as [-> | Hne].
    + rewrite Ht' in Hj. injection Hj as <-.
      exists (S k). split; [rewrite Hrest; now apply list_lookup_insert_eq |].
      intros f ut1 Hf Hut1.
      destruct (HE t' ut1 Hshape L1 Hx Hut1) as (ut & Hut & Hpres).
      destruct (decide (field_pos f = k)) as [E | E].
      * now apply (proj2 (Hpres f)).
      * apply (proj1 (Hpres f)). apply (Hfields f ut); [lia | exact Hut].
    + exists kj. split; [now rewrite list_lookup_insert_ne by congruence |].
      intros f ut1 Hf Hut1.
      destruct (HE t ut1 Hshape L1 Hx Hut1) as (ut & Hut & Hpres).
      apply (proj1 (Hpres f)). exact (Hfj f ut Hf Hut).
Qed.

Lemma copy_fields_run (a : addr) (ua0 : User) (targets : list addr)
    (sched : list nat) (c c1 : config) :
  copy_fields a ua0 targets c -> run_schedule sched c = Some c1 ->
  copy_fields a ua0 targets c1.
Proof.
  revert c. induction sched as [| i sched IH]; intros c L Hrun.
  - now injection Hrun as <-.
  - cbn [run_schedule] in Hrun.
    destruct (step_thread i c) as [c2 |] eqn:Hstep; [| discriminate Hrun].
    exact (IH c2 (copy_fields_step a ua0 targets c c2 i L Hstep) Hrun).
Qed.

(** X11: while copies out of one source into other users run concurrently, in
    any interleaving, the source keeps its scalar fields, and as soon as a
    thread has finished its target carries every scalar field of the source
    and keeps them, whatever the other threads still do. *)
Lemma common_source_copies_result (h : heap) (a : addr) (ua : User)
    (targets : list addr) (sched : list nat) (c1 : config) :
  users h !! a = Some ua ->
  (forall t, t ∈ targets -> t <> a) ->
  run_schedule sched (h, copies_from a targets) = Some c1 ->
  (forall ua1, users (fst c1) !! a = Some ua1 -> same_scalars ua1 ua)
  /\ (forall i t ut,
        targets !! i = Some t ->
        snd c1 !! i = Some [] ->
        users (fst c1) !! t = Some ut ->
        same_scalars ut ua).
Proof.
  intros Hua Ht Hrun.
  pose proof (copy_fields_run a ua targets sched _ c1
                (copy_fields_init h a ua targets Hua Ht) Hrun)
    as (_ & L1 & L2).
  split.
  - intros ua1 H1. apply same_scalars_fields. intros f. now apply L1.
  - intros i t ut Hi Hfin Hut.
    destruct (L2 i t Hi) as (_ & k & Hk & Hf).
    rewrite Hfin in Hk. injection Hk as Hk.
    apply (f_equal length) in Hk. rewrite length_drop in Hk. cbn in Hk.
    apply same_scalars_fields. intros f. apply (Hf f ut); [| exact Hut].
    destruct f; cbn; lia.
Qed.

Lemma common_source_copies_result_witness :
  exists c1,
    run_schedule ([0; 1; 1; 0] ++ replicate 11 0)
                 (sample_heap, copies_from 0 [2; 1]) = Some c1
    /\ forall ut, users (fst c1) !! 2 = Some ut -> same_scalars ut ann.
Proof.
  eexists. split; [vm_compute; reflexivity |].
  intros ut Hut.
  match goal with
  | H : users (fst ?c1) !! 2 = Some ut |- _ =>
    assert (Hrun : run_schedule ([0; 1; 1; 0] ++ replicate 11 0)
                     (sample_heap, copies_from 0 [2; 1]) = Some c1)
      by (vm_compute; reflexivity);
    assert (Hne : forall t, t ∈ [2; 1] -> t <> 0)
      by (intros t Ht; rewrite !elem_of_cons, elem_of_nil in Ht;
          destruct Ht as [-> | [-> | []]]; discriminate);
    exact (proj2 (common_source_copies_result sample_heap 0 ann [2; 1] _ c1
                    eq_refl Hne Hrun) 0 2 ut eq_refl eq_refl H)
  end.
Defined.

(** ** Copies in opposite directions *)

Lemma Lock_after_RLock (m : RWMutex) :
  Lock {| readers := S (readers m); writer := false |} = Blocks.
Proof. reflexivity. Qed.

(** X12: between any two distinct users whose locks have no writer, two threads
    copying in opposite directions can deadlock: once each has taken the
    read lock of its source, each waits for ever for the write lock of its
    target. *)
Lemma opposite_copies_can_deadlock (h : heap) (a b : addr) (ua ub : User) :
  a <> b ->
  users h !! a = Some ua ->
  users h !! b = Some ub ->
  writer (mu ua) = false ->
  writer (mu ub) = false ->
  (exists c1,
     run_schedule [0; 1]
       (h, [CopyOverTo_body (Some a) (Some b); CopyOverTo_body (Some b) (Some a)])
     = Some c1
     /\ deadlocked c1 = true)
  /\ ~ deadlock_free
         (h, [CopyOverTo_body (Some a) (Some b); CopyOverTo_body (Some b) (Some a)]).
Proof.
  intros Hab Hua Hub Hwa Hwb.
  set (ua1 := with_mu ua {| readers := S (readers (mu ua)); writer := false |}).
  set (ub1 := with_mu ub {| readers := S (readers (mu ub)); writer := false |}).
  set (h1 := store_user h a ua1).
  set (h2 := store_user h1 b ub1).
  assert (Hb1 : users h1 !! b = Some ub)
    by (cbn; now rewrite list_lookup_insert_ne).
  assert (Ha2 : users h2 !! a = Some ua1).
  { cbn. rewrite list_lookup_insert_ne by congruence.
    apply list_lookup_insert_eq. now apply lookup_lt_Some in Hua. }
  assert (Hb2 : users h2 !! b = Some ub1).
  { cbn. apply list_lookup_insert_eq. rewrite length_insert.
    now apply lookup_lt_Some in Hub. }
  assert (E1 : exec (ARLock (Some a)) h = Done h1).
  { cbn [exec]. rewrite (on_mutex_lookup _ _ _ _ Hua). unfold RLock.
    now rewrite Hwa. }
  assert (E2 : exec (ARLock (Some b)) h1 = Done h2).
  { cbn [exec]. rewrite (on_mutex_lookup _ _ _ _ Hb1). unfold RLock.
    now rewrite Hwb. }
  assert (E3 : exec (ALock (Some b)) h2 = Blocks).
  { cbn [exec]. now rewrite (on_mutex_lookup _ _ _ _ Hb2). }
  assert (E4 : exec (ALock (Some a)) h2 = Blocks).
  { cbn [exec]. now rewrite (on_mutex_lookup _ _ _ _ Ha2). }
  assert (Hrun : run_schedule [0; 1]
            (h, [CopyOverTo_body (Some a) (Some b);
                 CopyOverTo_body (Some b) (Some a)])
          = Some (h2, [skipn 1 (CopyOverTo_body (Some a) (Some b));
                       skipn 1 (CopyOverTo_body (Some b) (Some a))])).
  { cbn [run_schedule].
    rewrite (step_thread_Done 0 h h1
               [CopyOverTo_body (Some a) (Some b);
                CopyOverTo_body (Some b) (Some a)]
               (ARLock (Some a))
               (skipn 1 (CopyOverTo_body (Some a) (Some b))) eq_refl E1).
    change (<[0 := skipn 1 (CopyOverTo_body (Some a) (Some b))]>
              [CopyOverTo_body (Some a) (Some b);
               CopyOverTo_body (Some b) (Some a)])
      with [skipn 1 (CopyOverTo_body (Some a) (Some b));
            CopyOverTo_body (Some b) (Some a)].
    rewrite (step_thread_Done 1 h1 h2
               [skipn 1 (CopyOverTo_body (Some a) (Some b));
                CopyOverTo_body (Some b) (Some a)]
               (ARLock (Some b))
               (skipn 1 (CopyOverTo_body (Some b) (Some a))) eq_refl E2).
    reflexivity. }
  assert (Hdead : deadlocked
            (h2, [skipn 1 (CopyOverTo_body (Some a) (Some b));
                  skipn 1 (CopyOverTo_body (Some b) (Some a))]) = true).
  { unfold deadlocked. cbn [fst snd skipn CopyOverTo_body forallb existsb
                             blocked finished].
    now rewrite E3, E4. }
  split.
  - eexists. split; [exact Hrun | exact Hdead].
  - intros Hfree. rewrite (Hfree _ _ Hrun) in Hdead. discriminate Hdead.
Qed.

Lemma opposite_copies_can_deadlock_witness :
  ~ deadlock_free
      (sample_heap,
       [CopyOverTo_body (Some 0) (Some 1); CopyOverTo_body (Some 1) (Some 0)]).
Proof.
  assert (Hne : 0 <> 1) by discriminate.
  exact (proj2 (opposite_copies_can_deadlock sample_heap 0 1 ann mention_only
                  Hne eq_refl eq_refl eq_refl eq_refl)).
Defined.

(** ** Concurrent copies that form no cycle *)

Ltac leb_decide :=
  repeat match goal with
         | |- context [(?a <=? ?b)%nat] =>
           first [ rewrite (proj2 (Nat.leb_le a b)) by lia
                 | rewrite (proj2 (Nat.leb_gt a b)) by lia ]
         | H : context [(?a <=? ?b)%nat] |- _ =>
           first [ rewrite (proj2 (Nat.leb_le a b)) in H by lia
                 | rewrite (proj2 (Nat.leb_gt a b)) in H by lia ]
         end.

Lemma body_suffix_end (s t : addr) (k : nat) :
  13 <= k -> skipn k (CopyOverTo_body (Some s) (Some t)) = [].
Proof. intros Hk. apply drop_ge. cbn. exact Hk. Qed.

Lemma reads_suffix (s t x : addr) (k : nat) :
  reads x (skipn k (CopyOverTo_body (Some s) (Some t)))
  = (1 <=? k)%nat && (k <=? 11)%nat && (s =? x)%nat.
Proof.
  destruct (le_lt_dec 13 k) as [Hk | Hk].
  - rewrite body_suffix_end by exact Hk. leb_decide. reflexivity.
  - do 13 (destruct k as [| k];
           [unfold reads; cbn; destruct (s =? x)%nat; reflexivity |]).
    lia.
Qed.

Lemma holds_suffix (s t x : addr) (k : nat) :
  holds x (skipn k (CopyOverTo_body (Some s) (Some t)))
  = (2 <=? k)%nat && (k <=? 12)%nat && (t =? x)%nat.
Proof.
  destruct (le_lt_dec 13 k) as [Hk | Hk].
  - rewrite body_suffix_end by exact Hk. leb_decide. reflexivity.
  - do 13 (destruct k as [| k];
           [unfold holds; cbn; destruct (t =? x)%nat; reflexivity |]).
    lia.
Qed.

Lemma count_threads_insert (f : list action -> bool) (ts : list (list action))
    (i : nat) (old new : list action) :
  ts !! i = Some old ->
  count_threads f (<[i := new]> ts) + (if f old then 1 else 0)
  = count_threads f ts + (if f new then 1 else 0).
Proof.
  revert i. induction ts as [| p ts IH]; intros i Hi; [discriminate Hi |].
  destruct i as [| i].
  - injection Hi as ->.
    change (<[0 := new]> (old :: ts)) with (new :: ts). cbn [count_threads].
    destruct (f old), (f new); lia.
  - change (<[S i := new]> (p :: ts)) with (p :: <[i := new]> ts).
    cbn [count_threads]. specialize (IH i Hi).
    destruct (f p), (f old), (f new); lia.
Qed.

Lemma count_threads_pos (f : list action -> bool) (ts : list (list action)) :
  0 < count_threads f ts -> exists prog, prog ∈ ts /\ f prog = true.
Proof.
  induction ts as [| p ts IH]; cbn [count_threads]; [lia |].
  destruct (f p) eqn:Hp.
  - intros _. exists p. split; [apply list_elem_of_here | exact Hp].
  - intros H. destruct (IH H) as (prog & Hin & Hf).
    exists prog. split; [now apply list_elem_of_further | exact Hf].
Qed.

Lemma count_threads_lookup (f : list action -> bool) (ts : list (list action))
    (i : nat) (prog : list action) :
  ts !! i = Some prog -> f prog = true -> 1 <= count_threads f ts.
Proof.
  revert i. induction ts as [| p ts IH]; intros i Hi Hf; [discriminate Hi |].
  destruct i as [| i]; cbn [count_threads].
  - injection Hi as ->. rewrite Hf. lia.
  - specialize (IH i Hi Hf). lia.
Qed.

Lemma count_threads_fresh (x : addr) (pairs : list (addr * addr)) :
  count_threads (reads x) (copies pairs) = 0
  /\ count_threads (holds x) (copies pairs) = 0.
Proof.
  induction pairs as [| [s t] pairs [IH1 IH2]]; [split; reflexivity |].
  unfold copies in *. rewrite fmap_cons. cbn [count_threads fst snd].
  pose proof (reads_suffix s t x 0) as R.
  change (reads x (CopyOverTo_body (Some s) (Some t)) = false) in R.
  pose proof (holds_suffix s t x 0) as W.
  change (holds x (CopyOverTo_body (Some s) (Some t)) = false) in W.
  rewrite R, W. split; assumption.
Qed.

Lemma count_threads_finished (x : addr) (ts : list (list action)) :
  Forall (fun prog => prog = []) ts ->
  count_threads (reads x) ts = 0 /\ count_threads (holds x) ts = 0.
Proof.
  induction 1 as [| p ts -> _ [IH1 IH2]]; [split; reflexivity |].
  cbn. split; assumption.
Qed.

Lemma ranked_inv_init (rank : addr -> nat) (bound : nat) (h : heap)
    (pairs : list (addr * addr)) :
  (forall s t, (s, t) ∈ pairs -> rank s < rank t /\ rank t < bound) ->
  (forall x m, locks h !! x = Some m ->
     writer m = false /\ (x ∈ pairs.*2 -> readers m = 0)) ->
  ranked_inv rank bound pairs (readers_at h) (h, copies pairs).
Proof.
  intros Hr Hl. unfold ranked_inv. cbn [fst snd].
  split; [| split].
  - intros s t Hin. destruct (Hr s t Hin) as [H1 H2].
    split; [exact H1 |]. split; [exact H2 |].
    unfold readers_at. destruct (locks h !! t) as [m |] eqn:Hm; [| reflexivity].
    apply (Hl t m Hm). apply list_elem_of_fmap. exists (s, t). auto.
  - unfold copies. apply Forall_fmap, Forall_forall. intros [s t] Hin.
    exists s, t, 0. split; [exact Hin | reflexivity].
  - intros x m Hm. destruct (Hl x m Hm) as [Hw _].
    destruct (count_threads_fresh x pairs) as [-> ->].
    rewrite Hw. unfold readers_at. rewrite Hm. split; [reflexivity | lia].
Qed.

Lemma ranked_inv_step (rank : addr -> nat) (bound : nat)
    (pairs : list (addr * addr)) (r0 : addr -> nat) (c c1 : config) (i : nat) :
  ranked_inv rank bound pairs r0 c ->
  step_thread i c = Some c1 ->
  ranked_inv rank bound pairs r0 c1.
Proof.
  destruct c as [h ts]. intros (J0 & J4 & J) Hstep.
  unfold step_thread in Hstep. cbn [fst snd] in *.
  destruct (ts !! i) as [[| x rest] |] eqn:Hi; try discriminate Hstep.
  destruct (exec x h) as [h1 | |] eqn:Hx; try discriminate Hstep.
  injection Hstep as <-.
  destruct (Forall_lookup_1 _ _ _ _ J4 Hi) as (s & t & k & Hin & Hshape).
  destruct (J0 s t Hin) as (Hrk & _ & _).
  destruct (body_suffix_head s t k x rest Hshape) as (Hrest & Hk).
  pose proof (exec_locks x h h1 Hx) as HL.
  pose proof (fun y => reads_suffix s t y k) as Rold.
  pose proof (fun y => reads_suffix s t y (S k)) as Rnew.
  pose proof (fun y => holds_suffix s t y k) as Wold.
  pose proof (fun y => holds_suffix s t y (S k)) as Wnew.
  rewrite <- Hshape in Rold, Wold. rewrite <- Hrest in Rnew, Wnew.
  pose proof (fun y => count_threads_insert (reads y) ts i _ rest Hi) as Rcnt.
  pose proof (fun y => count_threads_insert (holds y) ts i _ rest Hi) as Wcnt.
  assert (Hst : s <> t) by (intros ->; lia).
  unfold ranked_inv. cbn [fst snd].
  split; [exact J0 |].
  split.
  { apply Forall_insert; [exact J4 |]. exists s, t, (S k). auto. }
  intros y m1 H. specialize (Rcnt y). specialize (Wcnt y).
  rewrite Rold, Rnew in Rcnt. rewrite Wold, Wnew in Wcnt.
  destruct Hk as [(-> & ->) | [(-> & ->) | [(Hk & Hneutral) | [(-> & ->) | (-> & ->)]]]].
  - (* RLock on the source *)
    destruct HL as (a' & m & [= <-] & Hm & Hw & HL). rewrite HL in H.
    cbn in Rcnt, Wcnt.
    apply list_lookup_insert_Some in H as [(<- & <- & _) | (Hne & H)].
    + destruct (J s m Hm) as [K1 K2]. rewrite Hw in K1.
      rewrite Nat.eqb_refl in Rcnt. cbn. lia.
    + destruct (J y m1 H) as [K1 K2].
      rewrite (proj2 (Nat.eqb_neq s y)) in Rcnt by congruence. lia.
  - (* Lock on the target *)
    destruct HL as (a' & m & [= <-] & Hm & Hf & HL). rewrite HL in H.
    cbn in Rcnt, Wcnt. apply is_free_spec in Hf.
    apply list_lookup_insert_Some in H as [(<- & <- & _) | (Hne & H)].
    + destruct (J t m Hm) as [K1 K2]. rewrite Hf in K1, K2. cbn in K1, K2 |- *.
      rewrite Nat.eqb_refl in Wcnt. destruct (s =? t)%nat; lia.
    + destruct (J y m1 H) as [K1 K2].
      rewrite (proj2 (Nat.eqb_neq t y)) in Wcnt by congruence.
      destruct (s =? y)%nat; lia.
  - (* an assignment or the Avatar copy *)
    assert (HL' : locks h1 = locks h).
    { destruct x; try discriminate Hneutral; exact HL. }
    rewrite HL' in H. destruct (J y m1 H) as [K1 K2].
    leb_decide. cbn in Rcnt, Wcnt.
    destruct (s =? y)%nat, (t =? y)%nat; lia.
  - (* RUnlock on the source *)
    destruct HL as (a' & m & r & [= <-] & Hm & Hr & HL). rewrite HL in H.
    cbn in Rcnt, Wcnt.
    apply list_lookup_insert_Some in H as [(<- & <- & _) | (Hne & H)].
    + destruct (J s m Hm) as [K1 K2]. rewrite Nat.eqb_refl in Rcnt. cbn.
      destruct (t =? s)%nat; lia.
    + destruct (J y m1 H) as [K1 K2].
      rewrite (proj2 (Nat.eqb_neq s y)) in Rcnt by congruence.
      destruct (t =? y)%nat; lia.
  - (* Unlock on the target *)
    destruct HL as (a' & m & [= <-] & Hm & Hw & HL). rewrite HL in H.
    cbn in Rcnt, Wcnt.
    apply list_lookup_insert_Some in H as [(<- & <- & _) | (Hne & H)].
    + destruct (J t m Hm) as [K1 K2]. rewrite Hw in K1.
      rewrite Nat.eqb_refl in Wcnt. cbn. lia.
    + destruct (J y m1 H) as [K1 K2].
      rewrite (proj2 (Nat.eqb_neq t y)) in Wcnt by congruence. lia.
Qed.

Lemma ranked_inv_run (rank : addr -> nat) (bound : nat)
    (pairs : list (addr * addr)) (r0 : addr -> nat)
    (sched : list nat) (c c1 : config) :
  ranked_inv rank bound pairs r0 c ->
  run_schedule sched c = Some c1 ->
  ranked_inv rank bound pairs r0 c1.
Proof.
  revert c. induction sched as [| i sched IH]; intros c Hinv Hrun.
  - now injection Hrun as <-.
  - cbn [run_schedule] in Hrun.
    destruct (step_thread i c) as [c2 |] eqn:Hstep; [| discriminate Hrun].
    exact (IH c2 (ranked_inv_step rank bound pairs r0 c c2 i Hinv Hstep) Hrun).
Qed.

(** A thread whose next statement takes no lock neither has finished nor
    waits. *)
Lemma runnable_not_waiting (c : config) (y : action) (rest : list action) :
  is_acquire y = false ->
  finished (y :: rest) || waits c (y :: rest) = false.
Proof.
  intros Hy. unfold waits. cbn [finished blocked orb].
  destruct (exec y (fst c)) eqn:Hx.
  - destruct y; try discriminate Hy; reflexivity.
  - destruct (exec_Blocks_inv y (fst c) Hx)
      as [(? & ? & -> & _) | (? & ? & -> & _)]; discriminate Hy.
  - destruct y; try discriminate Hy; reflexivity.
Qed.

Section Ranked.

Variable rank : addr -> nat.
Variable bound : nat.
Variable pairs : list (addr * addr).
Variable r0 : addr -> nat.
Variable h : heap.
Variable ts : list (list action).
Hypothesis Hinv : ranked_inv rank bound pairs r0 (h, ts).
Hypothesis Hall : forallb (fun t => finished t || waits (h, ts) t) ts = true.

Lemma all_wait (prog : list action) :
  prog ∈ ts -> finished prog || waits (h, ts) prog = true.
Proof.
  intros Hin. rewrite forallb_forall in Hall. apply Hall.
  now apply list_elem_of_In.
Qed.

(** No lock has a writer: the thread past its [Lock] could take its next
    step. *)
Lemma no_writer (x : addr) (m : RWMutex) :
  locks h !! x = Some m -> writer m = false.
Proof.
  intros Hm. destruct Hinv as (_ & J4 & J). cbn [fst snd] in J4, J.
  destruct (writer m) eqn:Hw; [exfalso | reflexivity].
  destruct (J x m Hm) as [K1 _]. rewrite Hw in K1.
  destruct (count_threads_pos (holds x) ts ltac:(lia)) as (prog & Hin & Hh).
  destruct (proj1 (Forall_forall _ _) J4 prog Hin) as (s & t & k & _ & ->).
  rewrite holds_suffix in Hh.
  apply andb_true_iff in Hh as [Hh _]. apply andb_true_iff in Hh as [H1 H2].
  apply Nat.leb_le in H1, H2.
  destruct (body_suffix_holding s t k (conj H1 H2)) as (y & rest & Hy & Hacq).
  pose proof (all_wait _ Hin) as Hwt. rewrite Hy in Hwt.
  rewrite (runnable_not_waiting (h, ts) y rest Hacq) in Hwt. discriminate Hwt.
Qed.

(** No thread waits in [Lock]: the reader it would wait for waits in a
    [Lock] of higher rank. *)
Lemma no_Lock_waiter (d : nat) :
  forall (t : addr) (rest : list action),
    bound - rank t <= d ->
    ALock (Some t) :: rest ∈ ts ->
    exec (ALock (Some t)) h = Blocks ->
    False.
Proof.
  induction d as [| d IH]; intros t rest Hd Hin Hx;
    pose proof Hinv as (J0 & J4 & J); cbn [fst snd] in J4, J;
    destruct (proj1 (Forall_forall _ _) J4 _ Hin) as (s0 & t0 & k0 & Hp0 & Hshape);
    destruct (J0 s0 t0 Hp0) as (Hrk & Hb & Hr0);
    destruct (body_suffix_head s0 t0 k0 _ _ Hshape) as (_ & Hk);
    destruct Hk as [(_ & [=]) | [(_ & [= ->]) | [(_ & [=]) | [(_ & [=]) | (_ & [=])]]]].
  - lia.
  - destruct (exec_Blocks_inv _ h Hx)
      as [(? & ? & [=] & _) | (a & m & [= <-] & Hm & Hf)].
    pose proof (no_writer t0 m Hm) as Hw.
    assert (Hr : 0 < readers m).
    { unfold is_free in Hf. rewrite Hw in Hf.
      destruct (readers m); [discriminate Hf | lia]. }
    destruct (J t0 m Hm) as [_ K2]. rewrite Hr0 in K2.
    destruct (count_threads_pos (reads t0) ts ltac:(lia)) as (prog & Hp & Hrd).
    destruct (proj1 (Forall_forall _ _) J4 prog Hp) as (s1 & t1 & k1 & Hp1 & ->).
    destruct (J0 s1 t1 Hp1) as (Hrk1 & Hb1 & _).
    rewrite reads_suffix in Hrd.
    apply andb_true_iff in Hrd as [Hrd Hs1]. apply andb_true_iff in Hrd as [H1 H2].
    apply Nat.leb_le in H1, H2. apply Nat.eqb_eq in Hs1. subst s1.
    destruct (decide (k1 = 1)) as [-> | Hk1].
    + pose proof (all_wait _ Hp) as Hw1.
      change (skipn 1 (CopyOverTo_body (Some t0) (Some t1)))
        with (ALock (Some t1)
                :: skipn 2 (CopyOverTo_body (Some t0) (Some t1))) in Hw1, Hp.
      unfold waits in Hw1. cbn [finished blocked behind_writer fst snd orb] in Hw1.
      rewrite orb_false_r in Hw1.
      destruct (exec (ALock (Some t1)) h) eqn:Hx1; try discriminate Hw1.
      apply (IH t1 _ ltac:(lia) Hp Hx1).
    + destruct (body_suffix_holding t0 t1 k1 ltac:(lia)) as (y & rest1 & Hy & Hacq).
      pose proof (all_wait _ Hp) as Hw1. rewrite Hy in Hw1.
      rewrite (runnable_not_waiting (h, ts) y rest1 Hacq) in Hw1.
      discriminate Hw1.
Qed.

Lemma no_waiter (prog : list action) :
  prog ∈ ts -> waits (h, ts) prog = true -> False.
Proof.
  intros Hin Hw.
  unfold waits in Hw. cbn [fst snd] in Hw.
  apply orb_true_iff in Hw as [Hb | Hb].
  - destruct prog as [| x rest]; [discriminate Hb |]. cbn [blocked] in Hb.
    destruct (exec x h) eqn:Hx; try discriminate Hb.
    destruct (exec_Blocks_inv x h Hx)
      as [(a & m & -> & Hm & Hw) | (a & m & -> & Hm & Hf)].
    + rewrite (no_writer a m Hm) in Hw. discriminate Hw.
    + exact (no_Lock_waiter (bound - rank a) a rest (Nat.le_refl _) Hin Hx).
  - destruct prog as [| [[a |] | | | | |] rest]; try discriminate Hb.
    cbn [behind_writer] in Hb.
    apply existsb_exists in Hb as (prog & Hp & Hat).
    apply list_elem_of_In in Hp.
    destruct prog as [| [| [b |] | | | |] rest']; try discriminate Hat.
    cbn [at_Lock] in Hat. apply Nat.eqb_eq in Hat. subst b.
    pose proof (all_wait _ Hp) as Hw.
    unfold waits in Hw. cbn [finished blocked behind_writer fst snd orb] in Hw.
    rewrite orb_false_r in Hw.
    destruct (exec (ALock (Some a)) h) eqn:Hx; try discriminate Hw.
    exact (no_Lock_waiter (bound - rank a) a rest' (Nat.le_refl _) Hp Hx).
Qed.

End Ranked.

Lemma ranked_inv_not_stalled (rank : addr -> nat) (bound : nat)
    (pairs : list (addr * addr)) (r0 : addr -> nat) (c : config) :
  ranked_inv rank bound pairs r0 c -> stalled c = false.
Proof.
  destruct c as [h ts]. intros Hinv. unfold stalled. cbn [snd].
  destruct (forallb (fun t => finished t || waits (h, ts) t) ts) eqn:Hall;
    [| reflexivity].
  cbn [andb]. apply not_true_is_false. intros Hex.
  apply existsb_exists in Hex as (prog & Hin & Hw).
  apply list_elem_of_In in Hin.
  exact (no_waiter rank bound pairs r0 h ts Hinv Hall prog Hin Hw).
Qed.

Lemma deadlocked_stalled (c : config) : deadlocked c = true -> stalled c = true.
Proof.
  unfold deadlocked, stalled, waits. intros H.
  apply andb_true_iff in H as [Hall Hex]. apply andb_true_iff. split.
  - rewrite forallb_forall in *. intros t Ht. specialize (Hall t Ht).
    destruct (finished t); [reflexivity |]. cbn in *. now rewrite Hall.
  - apply existsb_exists in Hex as (t & Ht & Hb).
    apply existsb_exists. exists t. split; [exact Ht |]. now rewrite Hb.
Qed.

Lemma rank_bound (rank : addr -> nat) (pairs : list (addr * addr)) :
  exists bound, forall s t, (s, t) ∈ pairs -> rank t < bound.
Proof.
  induction pairs as [| [s0 t0] pairs [b IH]].
  - exists 0. intros s t H. now apply elem_of_nil in H.
  - exists (S (Nat.max (rank t0) b)). intros s t H.
    apply elem_of_cons in H as [[= -> ->] | H]; [lia |].
    specialize (IH s t H). lia.
Qed.

(** Copies that all ascend a ranking never reach a state in which every
    unfinished thread waits. *)
Lemma ranked_copies_never_stall (rank : addr -> nat) (h : heap)
    (pairs : list (addr * addr)) (sched : list nat) (c1 : config) :
  (forall s t, (s, t) ∈ pairs -> rank s < rank t) ->
  (forall x m, locks h !! x = Some m ->
     writer m = false /\ (x ∈ pairs.*2 -> readers m = 0)) ->
  run_schedule sched (h, copies pairs) = Some c1 ->
  stalled c1 = false.
Proof.
  intros Hr Hl Hrun. destruct (rank_bound rank pairs) as [bound Hb].
  apply (ranked_inv_not_stalled rank bound pairs (readers_at h)).
  refine (ranked_inv_run rank bound _ _ sched _ c1 _ Hrun).
  apply ranked_inv_init; [| exact Hl].
  intros s t Hin. split; [now apply Hr | now apply (Hb s)].
Qed.

(** *** Running on *)

(** Valid Avatar pointers stay valid. *)
Lemma exec_avatars_valid (x : action) (h h1 : heap) :
  exec x h = Done h1 ->
  (forall y u p, users h !! y = Some u -> Avatar u = Some p ->
     is_Some (cells h !! p)) ->
  forall y u p, users h1 !! y = Some u -> Avatar u = Some p ->
    is_Some (cells h1 !! p).
Proof.
  assert (Hon : forall op p, on_mutex op p h = Done h1 ->
            cells h1 = cells h
            /\ forall y u, users h1 !! y = Some u ->
                 exists u0, users h !! y = Some u0 /\ Avatar u = Avatar u0).
  { intros op p H. unfold on_mutex in H. destruct p as [a |]; [| discriminate H].
    unfold index in H. destruct (users h !! a) as [ua |] eqn:Hu; [| discriminate H].
    cbn [obind] in H. destruct (op (mu ua)) as [m | |]; try discriminate H.
    injection H as <-. cbn [store_user users cells].
    split; [reflexivity |]. intros y u Hy.
    apply list_lookup_insert_Some in Hy as [(<- & <- & _) | (_ & Hy)]; eauto. }
  intros Hx Hv y u p Hy Hp.
  destruct x as [q | q | q | q | f dst src | dst src]; cbn [exec] in Hx.
  1-4: destruct (Hon _ _ Hx) as [Hc Hu]; rewrite Hc;
       destruct (Hu y u Hy) as (u0 & Hu0 & Ha); rewrite Ha in Hp; eauto.
  - destruct (load_user h src) as [s | |]; cbn [obind] in Hx; try discriminate Hx.
    unfold update_user in Hx. destruct dst as [d |]; [| discriminate Hx].
    unfold index in Hx. destruct (users h !! d) as [ud |] eqn:Hd; [| discriminate Hx].
    injection Hx as <-. cbn [store_user users cells] in *.
    apply list_lookup_insert_Some in Hy as [(<- & <- & _) | (_ & Hy)]; [| eauto].
    apply (Hv d ud p Hd). now destruct f.
  - destruct (load_user h src) as [s | |]; cbn [obind] in Hx; try discriminate Hx.
    destruct (Avatar s) as [q |]; [| injection Hx as <-; eauto].
    destruct (load_cell h q) as [avatar | |]; cbn [obind] in Hx; try discriminate Hx.
    cbn [alloc_cell] in Hx.
    unfold update_user in Hx. destruct dst as [d |]; [| discriminate Hx].
    unfold index in Hx. cbn [users] in Hx.
    destruct (users h !! d) as [ud |] eqn:Hd; [| discriminate Hx].
    injection Hx as <-. cbn [store_user users cells] in *.
    apply list_lookup_insert_Some in Hy as [(<- & <- & _) | (_ & Hy)].
    + cbn in Hp. injection Hp as <-. rewrite list_lookup_middle; eauto.
    + destruct (Hv y u p Hy Hp) as [s' Hs']. exists s'.
      now apply lookup_app_l_Some.
Qed.

Lemma ranked_safe_init (rank : addr -> nat) (bound : nat) (h : heap)
    (pairs : list (addr * addr)) :
  (forall s t, (s, t) ∈ pairs -> rank s < rank t /\ rank t < bound) ->
  (forall x m, locks h !! x = Some m ->
     writer m = false /\ (x ∈ pairs.*2 -> readers m = 0)) ->
  (forall s t, (s, t) ∈ pairs ->
     is_Some (users h !! s) /\ is_Some (users h !! t)) ->
  (forall x u p, users h !! x = Some u -> Avatar u = Some p ->
     is_Some (cells h !! p)) ->
  ranked_safe rank bound pairs (readers_at h) (length (users h))
              (h, copies pairs).
Proof.
  intros Hr Hl Hu Hv. unfold ranked_safe. cbn [fst snd].
  split; [now apply ranked_inv_init |].
  split; [reflexivity |].
  split; [| exact Hv].
  intros s t Hin. destruct (Hu s t Hin) as [H1 H2].
  split; now apply lookup_lt_is_Some.
Qed.

Lemma ranked_safe_step (rank : addr -> nat) (bound : nat)
    (pairs : list (addr * addr)) (r0 : addr -> nat) (n : nat)
    (c c1 : config) (i : nat) :
  ranked_safe rank bound pairs r0 n c ->
  step_thread i c = Some c1 ->
  ranked_safe rank bound pairs r0 n c1.
Proof.
  intros (K0 & Kn & Ku & Kv) Hstep.
  split; [exact (ranked_inv_step rank bound pairs r0 c c1 i K0 Hstep) |].
  destruct (step_thread_inv i c c1 Hstep) as (x & rest & h1 & _ & Hx & ->).
  cbn [fst snd].
  split; [rewrite (proj1 (exec_store_shape x _ h1 Hx)); exact Kn |].
  split; [exact Ku |].
  exact (exec_avatars_valid x _ h1 Hx Kv).
Qed.

Lemma ranked_safe_run (rank : addr -> nat) (bound : nat)
    (pairs : list (addr * addr)) (r0 : addr -> nat) (n : nat)
    (sched : list nat) (c c1 : config) :
  ranked_safe rank bound pairs r0 n c ->
  run_schedule sched c = Some c1 ->
  ranked_safe rank bound pairs r0 n c1.
Proof.
  revert c. induction sched as [| i sched IH]; intros c K Hrun.
  - now injection Hrun as <-.
  - cbn [run_schedule] in Hrun.
    destruct (step_thread i c) as [c2 |] eqn:Hstep; [| discriminate Hrun].
    exact (IH c2 (ranked_safe_step rank bound pairs r0 n c c2 i K Hstep) Hrun).
Qed.

(** No statement of a thread crashes. *)
Lemma ranked_safe_no_panic (rank : addr -> nat) (bound : nat)
    (pairs : list (addr * addr)) (r0 : addr -> nat) (n : nat)
    (h : heap) (ts : list (list action)) (i : nat) (x : action)
    (rest : list action) :
  ranked_safe rank bound pairs r0 n (h, ts) ->
  ts !! i = Some (x :: rest) ->
  exec x h <> Panics.
Proof.
  intros ((_ & J4 & J) & Kn & Ku & Kv) Hi. cbn [fst snd] in *.
  destruct (Forall_lookup_1 _ _ _ _ J4 Hi) as (s & t & k & Hin & Hshape).
  destruct (Ku s t Hin) as [Hs Ht]. rewrite <- Kn in Hs, Ht.
  apply lookup_lt_is_Some in Hs as [us Hus].
  apply lookup_lt_is_Some in Ht as [ut Hut].
  pose proof (body_suffix_head s t k x rest Hshape) as (_ & Hcase).
  destruct Hcase as [(-> & ->) | [(-> & ->) | [(Hk & Hn) | [(-> & ->) | (-> & ->)]]]].
  - cbn [exec]. rewrite (on_mutex_lookup _ _ _ _ Hus). unfold RLock.
    destruct (writer (mu us)); discriminate.
  - cbn [exec]. rewrite (on_mutex_lookup _ _ _ _ Hut). unfold Lock.
    destruct (writer (mu ut) || negb (readers (mu ut) =? 0)%nat); discriminate.
  - destruct (body_suffix_neutral s t k x rest Hk Hshape) as [[f ->] | ->];
      cbn [exec]; rewrite (load_user_lookup _ _ _ Hus); cbn [obind].
    + unfold update_user. rewrite (index_lookup _ _ _ Hut). discriminate.
    + destruct (Avatar us) as [p |] eqn:Eav; [| discriminate].
      destruct (Kv s us p Hus Eav) as [str Hstr].
      unfold load_cell. rewrite (index_lookup _ _ _ Hstr). cbn [obind alloc_cell].
      unfold update_user. cbn [users]. rewrite (index_lookup _ _ _ Hut).
      discriminate.
  - cbn [exec]. rewrite (on_mutex_lookup _ _ _ _ Hus). unfold RUnlock.
    destruct (J s (mu us) (locks_lookup _ _ _ Hus)) as [_ Hr].
    assert (Hc : 1 <= count_threads (reads s) ts).
    { apply (count_threads_lookup _ ts i _ Hi). rewrite Hshape, reads_suffix.
      cbn. apply Nat.eqb_refl. }
    destruct (readers (mu us)); [lia | discriminate].
  - cbn [exec]. rewrite (on_mutex_lookup _ _ _ _ Hut). unfold Unlock.
    destruct (J t (mu ut) (locks_lookup _ _ _ Hut)) as [Hw _].
    assert (Hc : 1 <= count_threads (holds t) ts).
    { apply (count_threads_lookup _ ts i _ Hi). rewrite Hshape, holds_suffix.
      cbn. apply Nat.eqb_refl. }
    destruct (writer (mu ut)); [discriminate | lia].
Qed.

(** Unless every thread has finished, some thread can take its next step. *)
Lemma ranked_safe_progress (rank : addr -> nat) (bound : nat)
    (pairs : list (addr * addr)) (r0 : addr -> nat) (n : nat) (c : config) :
  ranked_safe rank bound pairs r0 n c ->
  Forall (fun prog => prog = []) (snd c)
  \/ exists i c1, step_thread i c = Some c1.
Proof.
  destruct c as [h ts]. intros K. cbn [snd].
  assert (Hrunnable : forall prog, In prog ts -> prog <> [] ->
            blocked h prog = false -> exists i c1, step_thread i (h, ts) = Some c1).
  { intros prog Hin Hne Hb. destruct prog as [| x rest]; [now destruct Hne |].
    apply list_elem_of_In, list_elem_of_lookup_1 in Hin as [i Hi].
    cbn [blocked] in Hb.
    destruct (exec x h) as [h1 | |] eqn:Hx; try discriminate Hb.
    - exists i. eexists. now apply (step_thread_Done i h h1 ts x rest).
    - now destruct (ranked_safe_no_panic rank bound pairs r0 n h ts i x rest K Hi). }
  destruct (forallb finished ts) eqn:Hfin.
  - left. apply Forall_forall. intros prog Hin.
    rewrite forallb_forall in Hfin.
    specialize (Hfin prog (proj1 (list_elem_of_In _ _) Hin)).
    destruct prog; [reflexivity | discriminate Hfin].
  - right. apply forallb_false_inv in Hfin as (prog & Hin & Hf).
    destruct (blocked h prog) eqn:Hb.
    + assert (Hd : deadlocked (h, ts) = false).
      { destruct (deadlocked (h, ts)) eqn:E; [| reflexivity].
        apply deadlocked_stalled in E.
        rewrite (ranked_inv_not_stalled rank bound pairs r0 _ (proj1 K)) in E.
        discriminate E. }
      unfold deadlocked in Hd. cbn [fst snd] in Hd.
      assert (Hex : existsb (blocked h) ts = true)
        by (apply existsb_exists; exists prog; auto).
      rewrite Hex, andb_true_r in Hd.
      apply forallb_false_inv in Hd as (prog' & Hin' & Hf').
      apply orb_false_iff in Hf' as [Hf1 Hf2].
      apply (Hrunnable prog' Hin'); [| exact Hf2].
      intros ->. discriminate Hf1.
    + apply (Hrunnable prog Hin); [| exact Hb].
      intros ->. discriminate Hf.
Qed.

(** From any state the threads can reach, they can all run to the end. *)
Lemma ranked_safe_completes (rank : addr -> nat) (bound : nat)
    (pairs : list (addr * addr)) (r0 : addr -> nat) (n : nat) (left : nat) :
  forall c, ranked_safe rank bound pairs r0 n c ->
    statements_left (snd c) = left ->
    exists sched c2, run_schedule sched c = Some c2
                     /\ Forall (fun prog => prog = []) (snd c2).
Proof.
  induction left as [left IH] using lt_wf_ind. intros c K Hn.
  destruct (ranked_safe_progress rank bound pairs r0 n c K)
    as [Hdone | (i & c1 & Hstep)].
  - exists [], c. split; [reflexivity | exact Hdone].
  - destruct (step_thread_inv i c c1 Hstep) as (x & rest & h1 & Hi & _ & Hc1).
    pose proof (statements_left_step _ i x rest Hi) as Hless.
    destruct (IH (statements_left (snd c1)) ltac:(subst c1; cbn [snd]; lia) c1
                 (ranked_safe_step rank bound pairs r0 n c c1 i K Hstep) eq_refl)
      as (sched & c2 & Hrun & Hfin).
    exists (i :: sched), c2. split; [| exact Hfin].
    cbn [run_schedule]. now rewrite Hstep.
Qed.

(** Once every thread has finished, each lock is as it was at the start. *)
Lemma ranked_safe_locks_restored (rank : addr -> nat) (bound : nat)
    (pairs : list (addr * addr)) (h : heap) (c1 : config) :
  (forall x m, locks h !! x = Some m -> writer m = false) ->
  ranked_safe rank bound pairs (readers_at h) (length (users h)) c1 ->
  Forall (fun prog => prog = []) (snd c1) ->
  locks (fst c1) = locks h.
Proof.
  intros Hl ((_ & _ & J) & Kn & _) Hfin.
  apply list_eq. intros x.
  destruct (locks h !! x) as [m0 |] eqn:H0.
  - assert (Hx : x < length (locks (fst c1))).
    { unfold locks. rewrite length_fmap, Kn, <- (length_fmap mu).
      now apply lookup_lt_Some in H0. }
    apply lookup_lt_is_Some in Hx as [m1 H1]. rewrite H1. f_equal.
    destruct (J x m1 H1) as [K1 K2].
    destruct (count_threads_finished x _ Hfin) as [E1 E2].
    rewrite E1 in K2. rewrite E2 in K1.
    unfold readers_at in K2. rewrite H0 in K2.
    pose proof (Hl x m0 H0) as Hw0.
    destruct m0 as [r0 w0], m1 as [r1 w1]. cbn in *. subst w0.
    destruct w1; [discriminate K1 |]. f_equal. lia.
  - apply lookup_ge_None. apply lookup_ge_None in H0.
    unfold locks in *. rewrite length_fmap in *. lia.
Qed.

(** A chain of two copies, the second reading the first one's target: the
    first cannot take its write lock while the second reads, and both
    finish once the second is through. *)
Example chain_copies_finish :
  run_schedule [0; 1; 0] (sample_heap, copies [(0, 1); (1, 2)]) = None
  /\ (snd <$> run_schedule ([0; 1] ++ replicate 12 1 ++ replicate 12 0)
                           (sample_heap, copies [(0, 1); (1, 2)]))
     = Some [[]; []].
Proof. split; vm_compute; reflexivity. Qed.

(** ** Lock order and deadlock, concluded *)

Lemma copy_safe_locks_restored (h : heap) (a : addr) (ua : User)
    (targets : list addr) (sched : list nat) (c1 : config) :
  users h !! a = Some ua ->
  (forall p, Avatar ua = Some p -> is_Some (cells h !! p)) ->
  (forall t, t ∈ targets -> t <> a /\ is_Some (users h !! t)) ->
  (forall x m, locks h !! x = Some m ->
     writer m = false /\ (x <> a -> readers m = 0)) ->
  run_schedule sched (h, copies_from a targets) = Some c1 ->
  Forall (fun prog => prog = []) (snd c1) ->
  locks (fst c1) = locks h.
Proof.
  intros Hua Hav Ht Hl Hrun Hfin.
  pose proof (copy_safe_run a _ sched _ c1
                (copy_safe_init h a ua targets Hua Hav Ht Hl) Hrun) as K.
  pose proof (run_schedule_users_length sched _ c1 Hrun) as Hlen.
  cbn [fst] in Hlen.
  apply list_eq. intros x.
  destruct (locks h !! x) as [m0 |] eqn:H0.
  - assert (Hx : x < length (locks (fst c1))).
    { unfold locks. rewrite length_fmap, Hlen, <- (length_fmap mu).
      now apply lookup_lt_Some in H0. }
    apply lookup_lt_is_Some in Hx as [m1 H1]. rewrite H1. f_equal.
    rewrite (copy_safe_finished_locks a _ c1 x m1 K Hfin H1).
    destruct (Hl x m0 H0) as [Hw Hr]. destruct m0 as [r w]. cbn in Hw, Hr.
    subst w. destruct (decide (x = a)) as [-> | Hne].
    + rewrite (locks_lookup _ _ _ Hua) in H0. injection H0 as H0.
      now rewrite H0.
    + now rewrite (Hr Hne).
  - apply lookup_ge_None. apply lookup_ge_None in H0.
    unfold locks in *. rewrite length_fmap in *. lia.
Qed.

(** C6 (amended): [CopyOverTo] takes the read lock of the source, then the
    write lock of the target, and releases them in that order.  A call
    running on its own between two distinct users whose locks are available
    returns without error and leaves both locks as they were.  Run
    concurrently, copies that form no cycle never deadlock: whenever the
    users can be ranked so that every copy goes from a lower to a higher
    one, no interleaving reaches a state in which every unfinished thread
    waits, not even when a reader counts as waiting behind a writer that
    stands at its [Lock]; and between users of a well-formed store every
    interleaving runs on: from every state it can reach, some thread can
    take its next step unless all have finished, the remaining statements
    can be scheduled to the end, and every lock is then as it was at the
    start.  Copies out of one source into other users, several of them
    possibly into the same target, are the case stated last.  The order
    does not exclude deadlock between two threads copying in opposite
    directions between the same pair of users. *)
Theorem CopyOverTo_lock_order (h : heap) (a b : addr) (ua ub : User) :
  a <> b ->
  users h !! a = Some ua ->
  users h !! b = Some ub ->
  writer (mu ua) = false ->
  mu ub = {| readers := 0; writer := false |} ->
  (forall p, Avatar ua = Some p -> is_Some (cells h !! p)) ->
  filter (fun x => is_lock_action x = true) (CopyOverTo_body (Some a) (Some b))
  = [ARLock (Some a); ALock (Some b); ARUnlock (Some a); AUnlock (Some b)]
  /\ (exists h1,
        CopyOverTo (Some a) (VUserPtr (Some b)) h = Done (None, h1)
        /\ mu <$> users h1 !! a = Some (mu ua)
        /\ mu <$> users h1 !! b = Some (mu ub))
  /\ deadlock_free (h, [CopyOverTo_body (Some a) (Some b)])
  /\ (forall (pairs : list (addr * addr)) (rank : addr -> nat),
        (forall s t, (s, t) ∈ pairs -> rank s < rank t) ->
        (forall x m, locks h !! x = Some m ->
           writer m = false /\ (x ∈ pairs.*2 -> readers m = 0)) ->
        (deadlock_free (h, copies pairs)
         /\ forall sched c1,
              run_schedule sched (h, copies pairs) = Some c1 ->
              stalled c1 = false)
        /\ ((forall s t, (s, t) ∈ pairs ->
               is_Some (users h !! s) /\ is_Some (users h !! t)) ->
            (forall x u p, users h !! x = Some u -> Avatar u = Some p ->
               is_Some (cells h !! p)) ->
            forall sched c1,
              run_schedule sched (h, copies pairs) = Some c1 ->
              (Forall (fun prog => prog = []) (snd c1)
               \/ exists i c2, step_thread i c1 = Some c2)
              /\ (exists sched2 c2,
                    run_schedule sched2 c1 = Some c2
                    /\ Forall (fun prog => prog = []) (snd c2))
              /\ (Forall (fun prog => prog = []) (snd c1) ->
                  locks (fst c1) = locks h)))
  /\ (forall targets : list addr,
        (forall t, t ∈ targets -> t <> a /\ is_Some (users h !! t)) ->
        (forall x m, locks h !! x = Some m ->
           writer m = false /\ (x <> a -> readers m = 0)) ->
        deadlock_free (h, copies_from a targets)
        /\ forall sched c1,
             run_schedule sched (h, copies_from a targets) = Some c1 ->
             (Forall (fun prog => prog = []) (snd c1)
              \/ exists i c2, step_thread i c1 = Some c2)
             /\ (exists sched2 c2,
                   run_schedule sched2 c1 = Some c2
                   /\ Forall (fun prog => prog = []) (snd c2))
             /\ (Forall (fun prog => prog = []) (snd c1) ->
                 locks (fst c1) = locks h))
  /\ (exists sched c1,
        run_schedule sched opposite_copies = Some c1
        /\ deadlocked c1 = true).
Proof.
  intros Hab Hua Hub Hw Hfree Hav.
  split; [reflexivity |].
  split.
  { exists (CopyOverTo_result h b ua ub).
    split; [now apply CopyOverTo_run |].
    rewrite (CopyOverTo_result_src h a b ua ub Hab Hua Hav).
    destruct (CopyOverTo_result_dst h b ua ub Hub Hav) as [av ->].
    split; reflexivity. }
  split.
  { apply (solo_deadlock_free _ h (CopyOverTo_result h b ua ub)).
    now apply CopyOverTo_body_run. }
  split.
  { intros pairs rank Hr Hl.
    assert (Hns : forall sched c1,
               run_schedule sched (h, copies pairs) = Some c1 ->
               stalled c1 = false).
    { intros sched c1 Hrun.
      exact (ranked_copies_never_stall rank h pairs sched c1 Hr Hl Hrun). }
    split.
    - split; [| exact Hns].
      intros sched c1 Hrun.
      destruct (deadlocked c1) eqn:E; [| reflexivity].
      apply deadlocked_stalled in E. rewrite (Hns sched c1 Hrun) in E.
      discriminate E.
    - intros Hu Hv sched c1 Hrun.
      destruct (rank_bound rank pairs) as [bound Hb].
      assert (K : ranked_safe rank bound pairs (readers_at h)
                              (length (users h)) c1).
      { refine (ranked_safe_run rank bound pairs _ _ sched _ c1 _ Hrun).
        apply ranked_safe_init; [| exact Hl | exact Hu | exact Hv].
        intros s t Hin. split; [now apply Hr | now apply (Hb s)]. }
      split; [exact (ranked_safe_progress rank bound pairs _ _ c1 K) |].
      split; [exact (ranked_safe_completes rank bound pairs _ _ _ c1 K eq_refl) |].
      apply (ranked_safe_locks_restored rank bound pairs h c1); [| exact K].
      intros x m Hm. exact (proj1 (Hl x m Hm)). }
  split.
  { intros targets Ht Hl. split.
    - intros sched c1 Hrun.
      apply (copy_inv_not_deadlocked a).
      refine (copy_inv_run a sched _ c1 (copy_inv_init h a targets _ Hl) Hrun).
      intros t Hin. exact (proj1 (Ht t Hin)).
    - intros sched c1 Hrun.
      pose proof (copy_safe_run a _ sched _ c1
                    (copy_safe_init h a ua targets Hua Hav Ht Hl) Hrun) as K.
      split; [exact (copy_safe_progress a _ c1 K) |].
      split; [exact (copy_safe_completes a _ _ c1 K eq_refl) |].
      exact (copy_safe_locks_restored h a ua targets sched c1
               Hua Hav Ht Hl Hrun). }
  exists [0; 1].
  eexists. split; [vm_compute; reflexivity | vm_compute; reflexivity].
Qed.

Lemma CopyOverTo_lock_order_witness :
  filter (fun x => is_lock_action x = true) (CopyOverTo_body (Some 0) (Some 2))
  = [ARLock (Some 0); ALock (Some 2); ARUnlock (Some 0); AUnlock (Some 2)]
  /\ (exists h1,
        CopyOverTo (Some 0) (VUserPtr (Some 2)) sample_heap = Done (None, h1)
        /\ mu <$> users h1 !! 0 = Some (mu ann)
        /\ mu <$> users h1 !! 2 = Some (mu User_zero))
  /\ deadlock_free (sample_heap, [CopyOverTo_body (Some 0) (Some 2)])
  /\ deadlock_free (sample_heap, copies [(0, 1); (1, 2); (0, 2)])
  /\ (exists sched2 c2,
        run_schedule sched2 (sample_heap, copies [(0, 1); (1, 2); (0, 2)])
        = Some c2
        /\ Forall (fun prog => prog = []) (snd c2))
  /\ deadlock_free (sample_heap, copies_from 0 [2; 2; 1])
  /\ (exists sched2 c2,
        run_schedule sched2 (sample_heap, copies_from 0 [2; 2; 1]) = Some c2
        /\ Forall (fun prog => prog = []) (snd c2))
  /\ (exists sched c1,
        run_schedule sched opposite_copies = Some c1
        /\ deadlocked c1 = true).
Proof.
  assert (H3 : forall p, Avatar ann = Some p -> is_Some (cells sample_heap !! p)).
  { intros p [= <-]. exists "a.png". reflexivity. }
  assert (Hne : 0 <> 2) by discriminate.
  destruct (CopyOverTo_lock_order sample_heap 0 2 ann User_zero
              Hne eq_refl eq_refl eq_refl eq_refl H3)
    as (K1 & K2 & K3 & K4 & K5 & K6).
  assert (Hr : forall s t : addr, (s, t) ∈ [(0, 1); (1, 2); (0, 2)] -> s < t).
  { intros s t Hin. rewrite !elem_of_cons, elem_of_nil in Hin.
    destruct Hin as [[= -> ->] | [[= -> ->] | [[= -> ->] | []]]]; lia. }
  assert (Hu : forall s t : addr, (s, t) ∈ [(0, 1); (1, 2); (0, 2)] ->
                 is_Some (users sample_heap !! s)
                 /\ is_Some (users sample_heap !! t)).
  { intros s t Hin. rewrite !elem_of_cons, elem_of_nil in Hin.
    destruct Hin as [[= -> ->] | [[= -> ->] | [[= -> ->] | []]]];
      (split; eexists; reflexivity). }
  assert (Hv : forall x u p, users sample_heap !! x = Some u ->
                 Avatar u = Some p -> is_Some (cells sample_heap !! p)).
  { intros x u p Hx Hp.
    destruct x as [| [| [| x]]]; cbn in Hx; try discriminate Hx;
      injection Hx as <-; cbn in Hp; try discriminate Hp.
    all: injection Hp as <-; eexists; reflexivity. }
  assert (Hfree : forall x m, locks sample_heap !! x = Some m ->
                    writer m = false /\ readers m = 0).
  { intros x m Hm.
    destruct x as [| [| [| x]]]; cbn in Hm; try discriminate Hm;
      injection Hm as <-; split; reflexivity. }
  assert (Ht : forall t, t ∈ [2; 2; 1] ->
                 t <> 0 /\ is_Some (users sample_heap !! t)).
  { intros t Ht. rewrite !elem_of_cons, elem_of_nil in Ht.
    destruct Ht as [-> | [-> | [-> | []]]];
      (split; [discriminate | eexists; reflexivity]). }
  destruct (K4 [(0, 1); (1, 2); (0, 2)] (fun x => x) Hr) as [[K7 _] K8].
  { intros x m Hm. destruct (Hfree x m Hm). auto. }
  destruct (K8 Hu Hv [] _ eq_refl) as (_ & K9 & _).
  destruct (K5 [2; 2; 1] Ht) as [K10 K11].
  { intros x m Hm. destruct (Hfree x m Hm). auto. }
  destruct (K11 [] _ eq_refl) as (_ & K12 & _).
  exact (conj K1 (conj K2 (conj K3 (conj K7 (conj K9
          (conj K10 (conj K12 K6))))))).
Defined.
